(** * Stock pattern matcher: a shallow embedding of
    [src/homework/01/stock_pattern_matcher.py] and the properties of its
    similarity search.

    Conventions.
    - Python [float] / numpy [float64] prices are idealised as exact
      rationals ([Q]): rounding is not modelled. The non-finite values are
      kept explicit: [Infinity] for [float('inf')] in the DTW table, and
      [NaN]/[PInf]/[NInf] in the arithmetic of [np.corrcoef] and in the
      duration [a_hours], which [main] reads with [float()].
    - What is stated of a correlation or a score is what does not depend on
      rounding: whether it is [nan], its sign, its bounds. A sequence whose
      values are all exactly [0] has the same sums, mean and variance in
      [float64] as in exact arithmetic; a sequence that is flat at another
      level need not, so the properties of the search that speak of a flat
      window are stated for a window of zeros.
    - Python [int] is [Z]; [range a b] is [zrange a b].
    - An exception is a value of [exn] carried by [result].
    - [fastdtw] (package fastdtw, imported at line 12) and [np.corrcoef]
      (numpy) are library code: their algorithms are embedded in the modules
      [FastDTW] and [Numpy] below, from the packages' Python sources. *)

From Stdlib Require Import ZArith QArith Qabs Qminmax Qround Lia Lqa List Bool.
From Stdlib Require Import Sorting.Sorted.
From stdpp Require Import gmap list sorting.

Local Open Scope Z_scope.

(** ** Costs with an infinity: the values stored in the DTW table *)

Inductive xcost : Type :=
| Finite (q : Q)
| Infinity.

(** [c + dt] where [dt] is a finite float. *)
Definition xadd (c : xcost) (dt : Q) : xcost :=
  match c with
  | Finite q => Finite (q + dt)
  | Infinity => Infinity
  end.

Definition Qltb (p q : Q) : bool :=
  match (p ?= q)%Q with Lt => true | _ => false end.

(** Python's [a < b] on floats that may be [inf]. *)
Definition xltb (a b : xcost) : bool :=
  match a, b with
  | Finite p, Finite q => Qltb p q
  | Finite _, Infinity => true
  | Infinity, _ => false
  end.

(** Equality of costs as numbers (fractions are not kept in lowest terms). *)
Definition xeq (a b : xcost) : Prop :=
  match a, b with
  | Finite p, Finite q => (p == q)%Q
  | Infinity, Infinity => True
  | _, _ => False
  end.

Definition xle (a b : xcost) : Prop :=
  match a, b with
  | Finite p, Finite q => (p <= q)%Q
  | _, Infinity => True
  | Infinity, Finite _ => False
  end.

(** [range(a, b)] *)
Definition zrange (a b : Z) : list Z := seqZ a (b - a).

Definition len {A : Type} (l : list A) : Z := Z.of_nat (length l).

(** [x[k]] on a Python sequence: a negative index counts from the end, an
    index out of range raises [IndexError] ([None]). *)
Definition getitem {A : Type} (x : list A) (k : Z) : option A :=
  if 0 <=? k then nth_error x (Z.to_nat k)
  else if 0 <=? len x + k then nth_error x (Z.to_nat (len x + k))
  else None.

(** ** The fastdtw package (fastdtw.py), as called with its defaults
    [radius=1, dist=None] on one-dimensional inputs *)

Module FastDTW.

Abbreviation cell := (Z * Z)%type.

(** A table entry [(cost, i, j)]; a key that is absent reads as the
    default [(inf,)]. *)
Abbreviation entry := (xcost * Z * Z)%type.

Abbreviation table := (gmap cell entry).

(** [D[c][0]] *)
Definition cost_at (D : table) (c : cell) : xcost :=
  match D !! c with
  | Some (v, _, _) => v
  | None => Infinity
  end.

(** [__difference(a, b) = abs(a - b)] *)
Definition difference (a b : Q) : Q := Qabs (a - b).

(** [min(e1, e2, e3, key=lambda a: a[0])]: the first entry of least key. *)
Definition min_entry (e1 e2 e3 : entry) : entry :=
  let best := if xltb (fst (fst e2)) (fst (fst e1)) then e2 else e1 in
  if xltb (fst (fst e3)) (fst (fst best)) then e3 else best.

(** One iteration of the loop [for i, j in window] of [__dtw]. *)
Definition dtw_cell (x y : list Q) (D : table) (c : cell) : option table :=
  let '(i, j) := c in
  match getitem x (i - 1), getitem y (j - 1) with
  | Some xi, Some yj =>
      let dt := difference xi yj in
      Some (<[(i, j) :=
               min_entry (xadd (cost_at D (i - 1, j)) dt, i - 1, j)
                         (xadd (cost_at D (i, j - 1)) dt, i, j - 1)
                         (xadd (cost_at D (i - 1, j - 1)) dt, i - 1, j - 1)]> D)
  | _, _ => None
  end.

Fixpoint dtw_fill (x y : list Q) (window : list cell) (D : table)
  : option table :=
  match window with
  | [] => Some D
  | c :: rest =>
      match dtw_cell x y D c with
      | Some D' => dtw_fill x y rest D'
      | None => None
      end
  end.

(** The loop [while not (i == j == 0)]: [path] collects the cells visited;
    reading the pointers of an absent key raises [IndexError]. The table
    only points to cells of smaller [i + j], so [fuel = len_x + len_y]
    iterations are enough (lemma [backtrack_total]). *)
Fixpoint backtrack (fuel : nat) (D : table) (i j : Z) (path : list cell)
  : option (list cell) :=
  if (i =? j) && (j =? 0) then Some path
  else
    match fuel with
    | O => None
    | S fuel' =>
        match D !! (i, j) with
        | Some (_, pi, pj) =>
            backtrack fuel' D pi pj (path ++ [(i - 1, j - 1)])
        | None => None
        end
    end.

(** [[(i, j) for i in range(len_x) for j in range(len_y)]] *)
Definition full_window (len_x len_y : Z) : list cell :=
  i ← zrange 0 len_x; (fun j => (i, j)) <$> zrange 0 len_y.

(** [__dtw(x, y, window, dist)] *)
Definition dtw_window (x y : list Q) (window : option (list cell))
  : option (xcost * list cell) :=
  let len_x := len x in
  let len_y := len y in
  let window :=
    match window with
    | None => full_window len_x len_y
    | Some w => w
    end in
  let window := (fun c : cell => (fst c + 1, snd c + 1)) <$> window in
  match dtw_fill x y window {[ (0, 0) := (Finite 0, 0, 0) ]} with
  | Some D =>
      match backtrack (Z.to_nat (len_x + len_y)) D len_x len_y [] with
      | Some path => Some (cost_at D (len_x, len_y), rev path)
      | None => None
      end
  | None => None
  end.

(** [dtw(x, y, dist=None)] *)
Definition dtw (x y : list Q) : option (xcost * list cell) :=
  dtw_window x y None.

(** [__reduce_by_half]: means of consecutive pairs, a last odd element is
    dropped. *)
Fixpoint reduce_by_half (x : list Q) : list Q :=
  match x with
  | a :: b :: rest => ((a + b) / 2)%Q :: reduce_by_half rest
  | _ => []
  end.

(** The two comprehensions of [__expand_window] that build sets. *)
Definition around (radius : Z) (c : cell) : list cell :=
  a ← zrange (- radius) (radius + 1);
  b ← zrange (- radius) (radius + 1);
  [(fst c + a, snd c + b)].

Definition refine (c : cell) : list cell :=
  let '(i, j) := c in
  [(i * 2, j * 2); (i * 2, j * 2 + 1); (i * 2 + 1, j * 2); (i * 2 + 1, j * 2 + 1)].

Definition expand_path (path : list cell) (radius : Z) : gset cell :=
  list_to_set path ∪ list_to_set (path ≫= around radius).

Definition refine_set (path_ : gset cell) : gset cell :=
  list_to_set (elements path_ ≫= refine).

(** The inner loop [for j in range(start_j, len_y)] with its [break]. *)
Fixpoint scan_row (window_ : gset cell) (i : Z) (js : list Z)
    (new_start_j : option Z) (window : list cell)
  : option Z * list cell :=
  match js with
  | [] => (new_start_j, window)
  | j :: js' =>
      if bool_decide ((i, j) ∈ window_) then
        scan_row window_ i js'
          (match new_start_j with None => Some j | Some s => Some s end)
          (window ++ [(i, j)])
      else
        match new_start_j with
        | Some _ => (new_start_j, window)
        | None => scan_row window_ i js' new_start_j window
        end
  end.

(** The outer loop [for i in range(0, len_x)]; [range(None, len_y)] raises
    [TypeError] when the previous row found no cell. *)
Fixpoint scan_rows (window_ : gset cell) (len_y : Z) (rows : list Z)
    (start_j : option Z) (window : list cell) : option (list cell) :=
  match rows with
  | [] => Some window
  | i :: rows' =>
      match start_j with
      | None => None
      | Some s =>
          let '(new_start_j, window') :=
            scan_row window_ i (zrange s len_y) None window in
          scan_rows window_ len_y rows' new_start_j window'
      end
  end.

(** [__expand_window(path, len_x, len_y, radius)] *)
Definition expand_window (path : list cell) (len_x len_y radius : Z)
  : option (list cell) :=
  let path_ := expand_path path radius in
  let window_ := refine_set path_ in
  scan_rows window_ len_y (zrange 0 len_x) (Some 0) [].

(** [__fastdtw(x, y, radius, dist)]. The recursion is on sequences of half
    the length; [fuel] bounds its depth (lemma [fastdtw_rec_total]). *)
Fixpoint fastdtw_rec (fuel : nat) (x y : list Q) (radius : Z)
  : option (xcost * list cell) :=
  let min_time_size := radius + 2 in
  if (len x <? min_time_size) || (len y <? min_time_size) then dtw x y
  else
    match fuel with
    | O => None
    | S fuel' =>
        let x_shrinked := reduce_by_half x in
        let y_shrinked := reduce_by_half y in
        match fastdtw_rec fuel' x_shrinked y_shrinked radius with
        | Some (_, path) =>
            match expand_window path (len x) (len y) radius with
            | Some window => dtw_window x y (Some window)
            | None => None
            end
        | None => None
        end
    end.

(** [fastdtw(x, y, radius=1, dist=None)] *)
Definition fastdtw (x y : list Q) : option (xcost * list cell) :=
  fastdtw_rec (length x) x y 1.

End FastDTW.

(** ** Exceptions *)

Inductive exn : Type :=
| ValueError_data (days_needed have : Z)  (* line 112: not enough rows *)
| ValueError_history                      (* line 143: not enough history *)
| ValueError_empty                        (* np.min / np.max of an empty array *)
| ValueError_shape                        (* numpy: arrays of different length *)
| IndexError                              (* .iloc[k] out of bounds *)
| FastDTWError                            (* raised inside fastdtw *)
| OverflowError                           (* line 103: int() of an infinity *)
| ValueError_nan.                         (* line 103: int() of nan *)

Inductive result (A : Type) : Type :=
| Ok (a : A)
| Raise (e : exn).

Arguments Ok {A} a.
Arguments Raise {A} e.

#[global] Instance result_ret : MRet result := fun A a => Ok a.

#[global] Instance result_bind : MBind result :=
  fun A B f r => match r with Ok a => f a | Raise e => Raise e end.

(** The two failures the specification calls InsufficientHistory. *)
Definition InsufficientHistory (e : exn) : Prop :=
  match e with
  | ValueError_data _ _ | ValueError_history => True
  | _ => False
  end.

(** ** numpy: float64 arithmetic with its non-finite values

    A finite value is a rational, kept in lowest terms by the operations. *)

Inductive npfloat : Type :=
| Num (q : Q)
| PInf
| NInf
| NaN.

Definition Qsign (q : Q) : comparison := (q ?= 0)%Q.

Definition of_sign (s : comparison) : npfloat :=
  match s with Gt => PInf | Lt => NInf | Eq => NaN end.

Definition fneg (a : npfloat) : npfloat :=
  match a with
  | Num q => Num (- q)
  | PInf => NInf
  | NInf => PInf
  | NaN => NaN
  end.

Definition fadd (a b : npfloat) : npfloat :=
  match a, b with
  | NaN, _ | _, NaN => NaN
  | Num p, Num q => Num (Qred (p + q))
  | PInf, NInf | NInf, PInf => NaN
  | PInf, _ | _, PInf => PInf
  | NInf, _ | _, NInf => NInf
  end.

Definition fsub (a b : npfloat) : npfloat := fadd a (fneg b).

Definition fmul (a b : npfloat) : npfloat :=
  match a, b with
  | NaN, _ | _, NaN => NaN
  | Num p, Num q => Num (Qred (p * q))
  | Num p, PInf | PInf, Num p => of_sign (Qsign p)
  | Num p, NInf | NInf, Num p => of_sign (CompOpp (Qsign p))
  | PInf, PInf | NInf, NInf => PInf
  | PInf, NInf | NInf, PInf => NInf
  end.

(** Division as numpy performs it: a zero divisor gives an infinity of the
    sign of the dividend, and [0 / 0 = nan] (signed zeros are not modelled). *)
Definition fdiv (a b : npfloat) : npfloat :=
  match a, b with
  | NaN, _ | _, NaN => NaN
  | Num p, Num q =>
      if Qeq_bool q 0 then of_sign (Qsign p) else Num (Qred (p / q))
  | Num _, PInf | Num _, NInf => Num 0
  | PInf, Num q => if Qltb q 0 then NInf else PInf
  | NInf, Num q => if Qltb q 0 then PInf else NInf
  | _, _ => NaN
  end.

(** [np.clip(c, -1, 1)] *)
Definition clip (c : npfloat) : npfloat :=
  match c with
  | Num q => Num (Qmin (Qmax q (-1)) 1)
  | PInf => Num 1
  | NInf => Num (-1)
  | NaN => NaN
  end.

Definition of_xcost (c : xcost) : npfloat :=
  match c with
  | Finite q => Num q
  | Infinity => PInf
  end.

Arguments fadd : simpl never.
Arguments fmul : simpl never.
Arguments fdiv : simpl never.
Arguments clip : simpl never.

Module Numpy.

(** [np.min(series)] and [np.max(series)]; an empty array raises. *)
Definition np_min (series : list Q) : result Q :=
  match series with
  | [] => Raise ValueError_empty
  | v :: rest => Ok (fold_left Qmin rest v)
  end.

Definition np_max (series : list Q) : result Q :=
  match series with
  | [] => Raise ValueError_empty
  | v :: rest => Ok (fold_left Qmax rest v)
  end.

Definition fsum (l : list npfloat) : npfloat := fold_left fadd l (Num 0).

(** [np.average(row)]: the sum over the number of elements. *)
Definition average (l : list npfloat) : npfloat :=
  fdiv (fsum l) (Num (inject_Z (len l))).

(** [dot] of two rows. *)
Definition dot (u v : list npfloat) : npfloat :=
  fsum (zip_with fmul u v).

Section Sqrt.

(** The correctly rounded square root of a positive finite number is a
    parameter of the model; no property of it is used. *)
Variable sqrt_pos : Q -> Q.

(** [np.sqrt] *)
Definition np_sqrt (v : npfloat) : npfloat :=
  match v with
  | Num q =>
      match Qsign q with
      | Eq => Num 0
      | Gt => Num (sqrt_pos q)
      | Lt => NaN
      end
  | PInf => PInf
  | NInf => NaN
  | NaN => NaN
  end.

(** [np.corrcoef(x, y)[0, 1]]: the covariance matrix of the two rows
    ([np.cov], [ddof = 1]), divided by the standard deviations of its
    diagonal, clipped to [-1, 1]. *)
Definition corrcoef (x y : list Q) : result npfloat :=
  if negb (len x =? len y) then Raise ValueError_shape
  else
    let X0 := Num <$> x in
    let X1 := Num <$> y in
    let avg0 := average X0 in
    let avg1 := average X1 in
    let fact := len x - 1 in
    let fact := if fact <=? 0 then 0 else fact in
    let X0 := (fun v => fsub v avg0) <$> X0 in
    let X1 := (fun v => fsub v avg1) <$> X1 in
    let scale := fdiv (Num 1) (Num (inject_Z fact)) in
    let c00 := fmul (dot X0 X0) scale in
    let c01 := fmul (dot X0 X1) scale in
    let c11 := fmul (dot X1 X1) scale in
    let stddev0 := np_sqrt c00 in
    let stddev1 := np_sqrt c11 in
    Ok (clip (fdiv (fdiv c01 stddev0) stddev1)).

End Sqrt.

End Numpy.

(** ** The matcher *)

(** One row of [self.data]: the columns the matcher reads. *)
Record row : Type := {
  date : Z;
  close : Q;
  close_norm : Q;
}.

(** [series[a:b]] / [.iloc[a:b]] *)
Definition clamp_index (n k : Z) : Z :=
  if k <? 0 then Z.max 0 (n + k) else Z.min k n.

Definition slice {A : Type} (l : list A) (a b : Z) : list A :=
  let a' := clamp_index (len l) a in
  let b' := clamp_index (len l) b in
  take (Z.to_nat (b' - a')) (drop (Z.to_nat a') l).

(** [.iloc[k]] *)
Definition iloc {A : Type} (l : list A) (k : Z) : result A :=
  match getitem l k with
  | Some a => Ok a
  | None => Raise IndexError
  end.

(** [normalize_series] (lines 71-78) *)
Definition normalize_series (series : list Q) : result (list Q) :=
  min_val ← Numpy.np_min series;
  max_val ← Numpy.np_max series;
  if Qeq_bool max_val min_val then
    Ok ((fun _ => 0%Q) <$> series)
  else
    Ok ((fun v => (v - min_val) / (max_val - min_val))%Q <$> series).

(** [fetch_data], lines 57-65: [table] is the downloaded history as line 59
    leaves it (sorted by date, re-indexed); the column of normalised closing
    prices is added. Any exception makes the method return [False] ([None]). *)
Definition fetch_data (table : list (Z * Q)) : option (list row) :=
  match normalize_series (snd <$> table) with
  | Ok normed =>
      Some (zip_with (fun dc n => {| date := fst dc; close := snd dc; close_norm := n |})
              table normed)
  | Raise _ => None
  end.

(** [calculate_dtw_distance] (lines 80-87) *)
Definition calculate_dtw_distance (pattern1 pattern2 : list Q)
  : result (xcost * list FastDTW.cell) :=
  match FastDTW.fastdtw pattern1 pattern2 with
  | Some (distance, path) => Ok (distance, path)
  | None => Raise FastDTWError
  end.

(** [int(np.ceil(v))] (line 103): [int] raises [OverflowError] on an
    infinity and [ValueError] on [nan]. *)
Definition int_ceil (v : npfloat) : result Z :=
  match v with
  | Num q => Ok (Qceiling q)
  | PInf | NInf => Raise OverflowError
  | NaN => Raise ValueError_nan
  end.

(** [get_recent_pattern] (lines 89-120); [a_hours] is the [float] that
    [main] read. *)
Definition get_recent_pattern (data : list row) (a_hours : npfloat)
  : result (list Q * Z * Z) :=
  days ← int_ceil (fdiv a_hours (Num 4));
  let days_needed := Z.max 1 days in
  let min_data_points := 20 in
  let days_needed :=
    if days_needed <? min_data_points then min_data_points else days_needed in
  if len data <? days_needed then
    Raise (ValueError_data days_needed (len data))
  else
    let end_idx := len data - 1 in
    let start_idx := Z.max 0 (end_idx - days_needed + 1) in
    let pattern := slice (close_norm <$> data) start_idx (end_idx + 1) in
    Ok (pattern, start_idx, end_idx).

(** An element of [similarities] (lines 166-175). *)
Record similarity : Type := {
  start_idx : Z;
  end_idx : Z;
  start_date : Z;
  end_date : Z;
  dtw_distance : xcost;
  correlation : npfloat;
  score : npfloat;
  pattern : list Q;
}.

(** [similarities.sort(key=lambda x: x['dtw_distance'])]: [list.sort] is
    stable, and a stable sort is determined by the order of the keys; it is
    written here as the insertion of each element after the elements whose
    key is not greater. *)
Fixpoint insert_by_distance (s : similarity) (sorted : list similarity)
  : list similarity :=
  match sorted with
  | [] => [s]
  | t :: rest =>
      if xltb (dtw_distance s) (dtw_distance t) then s :: t :: rest
      else t :: insert_by_distance s rest
  end.

Definition sort_by_distance (similarities : list similarity) : list similarity :=
  fold_left (fun sorted s => insert_by_distance s sorted) similarities [].

(** The test of lines 187-191 against every used range. *)
Definition overlaps (min_gap_days : Z) (sim : similarity) (used_ranges : list (Z * Z))
  : bool :=
  existsb (fun '(used_start, used_end) =>
             negb ((end_idx sim <? used_start - min_gap_days)
                   || (start_idx sim >? used_end + min_gap_days)))
          used_ranges.

(** The selection loop of lines 184-198. *)
Fixpoint select_patterns (top_n min_gap_days : Z) (similarities : list similarity)
    (filtered_similarities : list similarity) (used_ranges : list (Z * Z))
  : list similarity :=
  match similarities with
  | [] => filtered_similarities
  | sim :: rest =>
      if overlaps min_gap_days sim used_ranges then
        select_patterns top_n min_gap_days rest filtered_similarities used_ranges
      else
        let filtered_similarities := filtered_similarities ++ [sim] in
        let used_ranges := used_ranges ++ [(start_idx sim, end_idx sim)] in
        if len filtered_similarities >=? top_n then filtered_similarities
        else select_patterns top_n min_gap_days rest filtered_similarities used_ranges
  end.

Section Search.

Variable sqrt_pos : Q -> Q.

(** The body of the loop of lines 149-175 for one end index [i]. *)
Definition candidate (data : list row) (recent_pattern : list Q)
    (pattern_length i : Z) : result similarity :=
  let hist_start := i - pattern_length + 1 in
  let hist_end := i + 1 in
  let hist_pattern := slice (close_norm <$> data) hist_start hist_end in
  '(dtw_distance, path) ← calculate_dtw_distance recent_pattern hist_pattern;
  correlation ← Numpy.corrcoef sqrt_pos recent_pattern hist_pattern;
  let score :=
    fmul correlation (fdiv (Num 1) (fadd (Num 1) (of_xcost dtw_distance))) in
  start_date ← iloc (date <$> data) hist_start;
  end_date ← iloc (date <$> data) (hist_end - 1);
  Ok {| start_idx := hist_start;
        end_idx := hist_end - 1;
        start_date := start_date;
        end_date := end_date;
        dtw_distance := dtw_distance;
        correlation := correlation;
        score := score;
        pattern := hist_pattern |}.

(** The loop [for i in range(pattern_length - 1, search_end)]. *)
Fixpoint scan (data : list row) (recent_pattern : list Q) (pattern_length : Z)
    (indices : list Z) (similarities : list similarity)
  : result (list similarity) :=
  match indices with
  | [] => Ok similarities
  | i :: rest =>
      sim ← candidate data recent_pattern pattern_length i;
      scan data recent_pattern pattern_length rest (similarities ++ [sim])
  end.

(** The list [similarities] as line 176 leaves it. *)
Definition scan_history (data : list row) (a_hours : npfloat) (min_gap_days : Z)
  : result (list similarity) :=
  '(recent_pattern, recent_start, recent_end) ← get_recent_pattern data a_hours;
  let pattern_length := len recent_pattern in
  let search_end := recent_start - min_gap_days in
  if search_end <? pattern_length then Raise ValueError_history
  else scan data recent_pattern pattern_length
         (zrange (pattern_length - 1) search_end) [].

(** [find_similar_patterns] (lines 122-200) *)
Definition find_similar_patterns (data : list row) (a_hours : npfloat)
    (top_n min_gap_days : Z)
  : result (list similarity * list Q * Z * Z) :=
  '(recent_pattern, recent_start, recent_end) ← get_recent_pattern data a_hours;
  let pattern_length := len recent_pattern in
  let search_end := recent_start - min_gap_days in
  if search_end <? pattern_length then Raise ValueError_history
  else
    similarities ← scan data recent_pattern pattern_length
                     (zrange (pattern_length - 1) search_end) [];
    let similarities := sort_by_distance similarities in
    let filtered_similarities :=
      select_patterns top_n min_gap_days similarities [] [] in
    Ok (filtered_similarities, recent_pattern, recent_start, recent_end).

End Search.

(** ** Printing the matches and the main program *)

(** [print_results], lines 273-283: the return after [days] trading days of
    the window that ends at [end_idx]; [None] when the guard fails. *)
Definition future_return (data : list row) (end_idx days : Z)
  : result (option npfloat) :=
  if end_idx + days <? len data then
    later ← iloc (close <$> data) (end_idx + days);
    base ← iloc (close <$> data) end_idx;
    Ok (Some (fmul (fsub (fdiv (Num later) (Num base)) (Num 1)) (Num 100)))
  else Ok None.

(** The loop of lines 266-283: the two returns printed for each pattern. *)
Fixpoint print_results (data : list row) (similar_patterns : list similarity)
  : result (list (option npfloat * option npfloat)) :=
  match similar_patterns with
  | [] => Ok []
  | pattern :: rest =>
      future_return_5d ← future_return data (end_idx pattern) 5;
      future_return_20d ← future_return data (end_idx pattern) 20;
      printed ← print_results data rest;
      Ok ((future_return_5d, future_return_20d) :: printed)
  end.

(** [visualize_results] (lines 202-256), as far as the method computes:
    which axis and which colour every curve gets, and the curves. The axes
    that [plt.subplots(n_patterns + 1, 1)] returns are numbered
    [0 .. n_patterns] (lines 209-212 make a list of them also when there are
    one or two); what matplotlib then draws, shows and saves is outside the
    model. On every panel the recent pattern is drawn over its own
    abscissae [x_recent]. *)
Record panel : Type := {
  axis : Z;
  colour : Z;
  xs : list Z;
  ys : list Q;
  overlay_xs : list Z;
  overlay_ys : list Q;
  first_date : Z;
  last_date : Z;
}.

(** [colors] (line 215), as RGB numbers; [blue] is the colour of the recent
    pattern. *)
Definition colors : list Z := [0xFF6B6B; 0x4ECDC4; 0x45B7D1; 0xFFA07A; 0x98D8C8].
Definition blue : Z := 0x0000FF.

(** The loop of lines 232-250, [idx] counting from the pattern reached. *)
Fixpoint draw_patterns (axes : list Z) (x_recent : list Z) (recent_pattern : list Q)
    (idx : Z) (similar_patterns : list similarity) : result (list panel) :=
  match similar_patterns with
  | [] => Ok []
  | pattern_info :: rest =>
      ax ← iloc axes (idx + 1);
      color ← iloc colors (idx mod len colors);
      let x_hist := zrange 0 (len (pattern pattern_info)) in
      panels ← draw_patterns axes x_recent recent_pattern (idx + 1) rest;
      Ok ({| axis := ax; colour := color;
             xs := x_hist; ys := pattern pattern_info;
             overlay_xs := x_recent; overlay_ys := recent_pattern;
             first_date := start_date pattern_info;
             last_date := end_date pattern_info |} :: panels)
  end.

Definition visualize_results (data : list row) (similar_patterns : list similarity)
    (recent_pattern : list Q) (recent_start recent_end : Z)
  : result (list panel) :=
  let n_patterns := len similar_patterns in
  let axes := zrange 0 (n_patterns + 1) in
  ax ← iloc axes 0;
  let x_recent := zrange 0 (len recent_pattern) in
  start_date ← iloc (date <$> data) recent_start;
  end_date ← iloc (date <$> data) recent_end;
  panels ← draw_patterns axes x_recent recent_pattern 0 similar_patterns;
  Ok ({| axis := ax; colour := blue;
         xs := x_recent; ys := recent_pattern;
         overlay_xs := []; overlay_ys := [];
         first_date := start_date; last_date := end_date |} :: panels).


(** ** The dynamic-time-warping distance as the specification defines it *)

(** Cumulative cost at [(i, j)] of the [(len(a)+1) x (len(b)+1)] grid: [0] at
    the origin, infinity on the rest of the boundary, and elsewhere the
    pointwise distance of the elements paired plus the least of the three
    neighbouring cumulative costs. *)
Definition xmin (a b : xcost) : xcost := if xltb b a then b else a.

Definition pointwise (a b : list Q) (i j : nat) : Q :=
  Qabs (nth i a 0%Q - nth j b 0%Q).

Fixpoint cumulative (a b : list Q) (i : nat) {struct i} : nat -> xcost :=
  match i with
  | O => fun j => match j with O => Finite 0 | S _ => Infinity end
  | S i' =>
      fix row (j : nat) {struct j} : xcost :=
        match j with
        | O => Infinity
        | S j' =>
            xadd (xmin (xmin (cumulative a b i' j) (row j')) (cumulative a b i' j'))
                 (pointwise a b i' j')
        end
  end.

Definition dtw_spec (a b : list Q) : xcost :=
  cumulative a b (length a) (length b).

(** ** Sample data used to run the model *)

Definition qs (l : list Z) : list Q := inject_Z <$> l.

(** A rational lower approximation of the square root, to run [corrcoef]. *)
Definition sqrt_floor (q : Q) : Q :=
  (Z.sqrt (Qnum q * Zpos (Qden q) * 1000000) # (Qden q * 1000))%Q.

Definition table_of (closes : list Z) : list (Z * Q) :=
  zip_with (fun d c => (d, inject_Z c)) (seqZ 0 (len closes)) closes.

(** Seventy closing prices: five that vary, twenty that do not, then
    forty-five that vary, the highest price being the last. *)
Definition sample_closes : list Z :=
  [11;10;11;10;11;
   10;10;10;10;10;10;10;10;10;10;10;10;10;10;10;10;10;10;10;10;
   11;10;11;11;10;10;11;11;10;11;11;10;11;10;10;11;11;10;11;10;11;10;11;11;10;
   10;11;10;11;11;10;10;11;11;10;11;11;10;11;10;10;11;11;10;12].

Definition sample_table : list (Z * Q) := table_of sample_closes.

Definition sample_data : list row :=
  Eval vm_compute in
    match fetch_data sample_table with Some data => data | None => [] end.

Definition sample_pattern : list Q :=
  Eval vm_compute in
    match get_recent_pattern sample_data (Num 8) with
    | Ok (pattern, _, _) => pattern
    | Raise _ => []
    end.

Definition matches_of (r : result (list similarity * list Q * Z * Z))
  : list similarity :=
  match r with Ok (matches, _, _, _) => matches | Raise _ => [] end.

Definition sims_of (r : result (list similarity)) : list similarity :=
  match r with Ok sims => sims | Raise _ => [] end.

(** Runs of the search on the sample: gap 0 (31 candidates), gap 25 (6
    candidates, the last on the flat stretch), gap 30 (one candidate). *)
Definition sample_scan_gap0 : list similarity :=
  Eval vm_compute in sims_of (scan_history sqrt_floor sample_data (Num 8) 0).

Definition sample_matches_gap0 : list similarity :=
  Eval vm_compute in matches_of (find_similar_patterns sqrt_floor sample_data (Num 8) 5 0).



Definition sample_matches_top0 : list similarity :=
  Eval vm_compute in matches_of (find_similar_patterns sqrt_floor sample_data (Num 8) 0 30).

(** Sixty closing prices: the same twenty prices three times, so that the
    windows [[0, 19]] and [[20, 39]] both repeat the reference window. *)
Definition tie_shape : list Z :=
  [10;11;12;11;10;10;11;12;12;11;10;11;11;12;10;10;12;11;10;11].

Definition tie_closes : list Z := tie_shape ++ tie_shape ++ tie_shape.

Definition tie_data : list row :=
  Eval vm_compute in
    match fetch_data (table_of tie_closes) with Some data => data | None => [] end.

Definition tie_pattern : list Q :=
  Eval vm_compute in
    match get_recent_pattern tie_data (Num 8) with
    | Ok (pattern, _, _) => pattern
    | Raise _ => []
    end.

Definition tie_scan : list similarity :=
  Eval vm_compute in sims_of (scan_history sqrt_floor tie_data (Num 8) 0).

Definition tie_matches : list similarity :=
  Eval vm_compute in matches_of (find_similar_patterns sqrt_floor tie_data (Num 8) 5 0).

(** * Properties *)

(** ** Order on costs *)

Lemma Qltb_lt (p q : Q) : Qltb p q = true <-> (p < q)%Q.
Proof.
  unfold Qltb. rewrite Qlt_alt. destruct (p ?= q)%Q; split; congruence.
Qed.

Lemma Qltb_ge (p q : Q) : Qltb p q = false <-> (q <= p)%Q.
Proof.
  rewrite <- not_true_iff_false, Qltb_lt. split.
  - apply Qnot_lt_le.
  - apply Qle_not_lt.
Qed.

Lemma xle_refl (a : xcost) : xle a a.
Proof. destruct a; simpl; [apply Qle_refl | exact I]. Qed.

Lemma xle_trans (a b c : xcost) : xle a b -> xle b c -> xle a c.
Proof.
  destruct a, b, c; simpl; try tauto. apply Qle_trans.
Qed.

Lemma xltb_true_le (a b : xcost) : xltb a b = true -> xle a b.
Proof.
  destruct a, b; simpl; try done. rewrite Qltb_lt. apply Qlt_le_weak.
Qed.

Lemma xltb_true_not_ge (a b : xcost) : xltb a b = true -> ~ xle b a.
Proof.
  destruct a, b; simpl; try tauto; try discriminate.
  rewrite Qltb_lt. apply Qlt_not_le.
Qed.

Lemma xltb_false_ge (a b : xcost) : xltb a b = false -> xle b a.
Proof.
  destruct a, b; simpl; try done. by rewrite Qltb_ge.
Qed.

Lemma xle_antisym (a b : xcost) : xle a b -> xle b a -> xeq a b.
Proof.
  destruct a, b; simpl; try tauto. apply Qle_antisym.
Qed.

Lemma xeq_le (a b : xcost) : xeq a b -> xle a b.
Proof.
  destruct a, b; simpl; try tauto. intros ->. apply Qle_refl.
Qed.

(** ** Ranges, lengths and slices *)

Lemma elem_of_zrange (a b k : Z) : k ∈ zrange a b <-> a <= k < b.
Proof. unfold zrange. rewrite elem_of_seqZ. lia. Qed.

Lemma zrange_nil_iff (a b : Z) : zrange a b = [] <-> b <= a.
Proof.
  unfold zrange. split.
  - intros H. apply (f_equal length) in H. rewrite length_seqZ in H. simpl in H. lia.
  - intros H. apply seqZ_nil. lia.
Qed.

Lemma len_nonneg {A : Type} (l : list A) : 0 <= len l.
Proof. unfold len. lia. Qed.

Lemma len_fmap {A B : Type} (f : A -> B) (l : list A) : len (f <$> l) = len l.
Proof. unfold len. by rewrite length_fmap. Qed.

Lemma len_app {A : Type} (l k : list A) : len (l ++ k) = len l + len k.
Proof. unfold len. rewrite length_app. lia. Qed.

Lemma slice_inner {A : Type} (l : list A) (a b : Z) :
  0 <= a -> a <= b -> b <= len l ->
  slice l a b = take (Z.to_nat (b - a)) (drop (Z.to_nat a) l).
Proof.
  intros Ha Hab Hb. unfold slice, clamp_index.
  destruct (Z.ltb_spec a 0), (Z.ltb_spec b 0); try lia.
  by rewrite !Z.min_l by lia.
Qed.

Lemma len_slice {A : Type} (l : list A) (a b : Z) :
  0 <= a -> a <= b -> b <= len l -> len (slice l a b) = b - a.
Proof.
  intros Ha Hab Hb. rewrite slice_inner by done. unfold len in *.
  rewrite length_take, length_drop. lia.
Qed.

Lemma slice_fmap {A B : Type} (f : A -> B) (l : list A) (a b : Z) :
  slice (f <$> l) a b = f <$> slice l a b.
Proof.
  unfold slice. rewrite len_fmap. by rewrite fmap_take, fmap_drop.
Qed.


Lemma getitem_inner {A : Type} (l : list A) (k : Z) :
  0 <= k < len l -> exists v, getitem l k = Some v.
Proof.
  intros Hk. unfold getitem. destruct (Z.leb_spec 0 k); [|lia].
  destruct (nth_error l (Z.to_nat k)) eqn:E; [eauto|].
  apply nth_error_None in E. unfold len in Hk. lia.
Qed.

(** ** The normaliser *)

Lemma fold_min_le (rest : list Q) (v x : Q) :
  In x (v :: rest) -> (fold_left Qmin rest v <= x)%Q.
Proof.
  revert v x. induction rest as [|r rest IH]; intros v x [<-|Hin]; simpl.
  - apply Qle_refl.
  - destruct Hin.
  - eapply Qle_trans; [apply IH; by left|]. apply Q.le_min_l.
  - destruct Hin as [<-|Hin].
    + eapply Qle_trans; [apply IH; by left|]. apply Q.le_min_r.
    + apply IH. by right.
Qed.

Lemma fold_min_in (rest : list Q) (v : Q) : In (fold_left Qmin rest v) (v :: rest).
Proof.
  revert v. induction rest as [|r rest IH]; intros v; simpl; [by left|].
  destruct (IH (Qmin v r)) as [H|H]; [|by right; right].
  rewrite <- H. unfold Qmin, GenericMinMax.gmin.
  destruct (v ?= r)%Q; [by left | by left | by right; left].
Qed.

Lemma fold_max_ge (rest : list Q) (v x : Q) :
  In x (v :: rest) -> (x <= fold_left Qmax rest v)%Q.
Proof.
  revert v x. induction rest as [|r rest IH]; intros v x [<-|Hin]; simpl.
  - apply Qle_refl.
  - destruct Hin.
  - eapply Qle_trans; [|apply IH; by left]. apply Q.le_max_l.
  - destruct Hin as [<-|Hin].
    + eapply Qle_trans; [|apply IH; by left]. apply Q.le_max_r.
    + apply IH. by right.
Qed.

Lemma fold_max_in (rest : list Q) (v : Q) : In (fold_left Qmax rest v) (v :: rest).
Proof.
  revert v. induction rest as [|r rest IH]; intros v; simpl; [by left|].
  destruct (IH (Qmax v r)) as [H|H]; [|by right; right].
  rewrite <- H. unfold Qmax, GenericMinMax.gmax.
  destruct (v ?= r)%Q; [by left | by right; left | by left].
Qed.

Lemma np_min_spec (series : list Q) :
  series <> [] ->
  exists mn, Numpy.np_min series = Ok mn /\ In mn series /\
             forall v, In v series -> (mn <= v)%Q.
Proof.
  destruct series as [|v rest]; [done|]. intros _.
  exists (fold_left Qmin rest v). split; [done|]. split.
  - apply fold_min_in.
  - intros x. apply fold_min_le.
Qed.

Lemma np_max_spec (series : list Q) :
  series <> [] ->
  exists mx, Numpy.np_max series = Ok mx /\ In mx series /\
             forall v, In v series -> (v <= mx)%Q.
Proof.
  destruct series as [|v rest]; [done|]. intros _.
  exists (fold_left Qmax rest v). split; [done|]. split.
  - apply fold_max_in.
  - intros x. apply fold_max_ge.
Qed.

(** All the values of a sequence are equal (as numbers). *)
Definition constant (series : list Q) : Prop :=
  forall u v, In u series -> In v series -> (u == v)%Q.



Definition rescale (mn mx v : Q) : Q := ((v - mn) / (mx - mn))%Q.

Lemma rescale_bounds (mn mx v : Q) :
  (mn < mx)%Q -> (mn <= v)%Q -> (v <= mx)%Q ->
  (0 <= rescale mn mx v)%Q /\ (rescale mn mx v <= 1)%Q.
Proof.
  intros Hlt Hlo Hhi. unfold rescale.
  assert (0 < mx - mn)%Q as Hpos by lra.
  split.
  - apply Qle_shift_div_l; [done|]. lra.
  - apply Qle_shift_div_r; [done|]. lra.
Qed.

Lemma rescale_min (mn mx : Q) : (mn < mx)%Q -> (rescale mn mx mn == 0)%Q.
Proof.
  intros Hlt. unfold rescale. field. lra.
Qed.

Lemma rescale_max (mn mx : Q) : (mn < mx)%Q -> (rescale mn mx mx == 1)%Q.
Proof.
  intros Hlt. unfold rescale. field. lra.
Qed.

Lemma normalize_series_unfold (series : list Q) (mn mx : Q) :
  Numpy.np_min series = Ok mn -> Numpy.np_max series = Ok mx ->
  normalize_series series =
    Ok (if Qeq_bool mx mn then (fun _ => 0%Q) <$> series
        else rescale mn mx <$> series).
Proof.
  intros Hmn Hmx. unfold normalize_series. rewrite Hmn, Hmx. simpl.
  by destruct (Qeq_bool mx mn).
Qed.

(** C8. For a non-empty sequence [normalize_series] returns a sequence of the
    same length: all zeros when all the values are equal, and otherwise
    [(v - min) / (max - min)] elementwise, whose minimum is 0 and whose
    maximum is 1. *)
Theorem normalize_series_contract (series : list Q) :
  series <> [] ->
  exists mn mx out,
    Numpy.np_min series = Ok mn /\ Numpy.np_max series = Ok mx /\
    (forall v, In v series -> (mn <= v)%Q /\ (v <= mx)%Q) /\
    In mn series /\ In mx series /\
    normalize_series series = Ok out /\
    length out = length series /\
    (constant series -> out = (fun _ => 0%Q) <$> series) /\
    (~ constant series ->
       out = (fun v => (v - mn) / (mx - mn))%Q <$> series /\
       exists lo hi, Numpy.np_min out = Ok lo /\ Numpy.np_max out = Ok hi /\
                     (lo == 0)%Q /\ (hi == 1)%Q).
Proof.
  intros Hne.
  destruct (np_min_spec series Hne) as (mn & Hmn & Hmn_in & Hmn_le).
  destruct (np_max_spec series Hne) as (mx & Hmx & Hmx_in & Hmx_ge).
  exists mn, mx. eexists. split; [done|]. split; [done|].
  split; [by intros v Hv; split; [apply Hmn_le | apply Hmx_ge]|].
  split; [done|]. split; [done|].
  split; [by apply normalize_series_unfold|].
  destruct (Qeq_bool mx mn) eqn:Heq.
  - apply Qeq_bool_iff in Heq.
    assert (constant series) as Hconst.
    { intros u v Hu Hv.
      pose proof (Hmn_le u Hu). pose proof (Hmx_ge u Hu).
      pose proof (Hmn_le v Hv). pose proof (Hmx_ge v Hv). lra. }
    split; [by rewrite length_fmap|]. split; [done|]. by intros [].
  - apply Qeq_bool_neq in Heq.
    assert (~ constant series) as Hnc.
    { intros Hc. apply Heq. by apply Hc. }
    assert (mn < mx)%Q as Hlt.
    { pose proof (Hmx_ge mn Hmn_in). apply Qnot_le_lt. intros Hle. apply Heq. lra. }
    split; [by rewrite length_fmap|]. split; [by intros Hc|]. intros _.
    split; [done|].
    assert (rescale mn mx <$> series <> []) as Hne'.
    { destruct series; [done|]. discriminate. }
    destruct (np_min_spec _ Hne') as (lo & Hlo & Hlo_in & Hlo_le).
    destruct (np_max_spec _ Hne') as (hi & Hhi & Hhi_in & Hhi_ge).
    exists lo, hi. split; [done|]. split; [done|].
    apply in_map_iff in Hlo_in as (vl & <- & Hvl).
    apply in_map_iff in Hhi_in as (vh & <- & Hvh).
    split.
    + apply Qle_antisym.
      * rewrite <- (rescale_min mn mx Hlt). apply Hlo_le.
        apply in_map_iff. eauto.
      * apply rescale_bounds; [done|apply Hmn_le|apply Hmx_ge]; done.
    + apply Qle_antisym.
      * apply rescale_bounds; [done|apply Hmn_le|apply Hmx_ge]; done.
      * rewrite <- (rescale_max mn mx Hlt). apply Hhi_ge.
        apply in_map_iff. eauto.
Qed.

Lemma normalize_series_contract_witness :
  exists mn mx out,
    Numpy.np_min (qs [3; 1; 2]) = Ok mn /\ Numpy.np_max (qs [3; 1; 2]) = Ok mx /\
    (forall v, In v (qs [3; 1; 2]) -> (mn <= v)%Q /\ (v <= mx)%Q) /\
    In mn (qs [3; 1; 2]) /\ In mx (qs [3; 1; 2]) /\
    normalize_series (qs [3; 1; 2]) = Ok out /\
    length out = length (qs [3; 1; 2]) /\
    (constant (qs [3; 1; 2]) -> out = (fun _ => 0%Q) <$> qs [3; 1; 2]) /\
    (~ constant (qs [3; 1; 2]) ->
       out = (fun v => (v - mn) / (mx - mn))%Q <$> qs [3; 1; 2] /\
       exists lo hi, Numpy.np_min out = Ok lo /\ Numpy.np_max out = Ok hi /\
                     (lo == 0)%Q /\ (hi == 1)%Q).
Proof.
  apply (normalize_series_contract (qs [3; 1; 2])). discriminate.
Defined.

(** The values of a normalised sequence lie in [0, 1]. *)
Lemma normalize_series_range (series out : list Q) (v : Q) :
  normalize_series series = Ok out -> In v out -> (0 <= v)%Q /\ (v <= 1)%Q.
Proof.
  intros Hout Hv. destruct series as [|s0 rest] eqn:Hs; [done|].
  rewrite <- Hs in *.
  assert (series <> []) as Hne by (by subst).
  destruct (np_min_spec series Hne) as (mn & Hmn & Hmn_in & Hmn_le).
  destruct (np_max_spec series Hne) as (mx & Hmx & Hmx_in & Hmx_ge).
  rewrite (normalize_series_unfold _ _ _ Hmn Hmx) in Hout.
  injection Hout as <-.
  destruct (Qeq_bool mx mn) eqn:Heq.
  - apply in_map_iff in Hv as (u & <- & _). lra.
  - apply Qeq_bool_neq in Heq.
    apply in_map_iff in Hv as (u & <- & Hu).
    apply rescale_bounds; [|by apply Hmn_le|by apply Hmx_ge].
    pose proof (Hmx_ge mn Hmn_in). apply Qnot_le_lt. intros Hle. apply Heq. lra.
Qed.

(** ** The reference window *)

(** On a finite duration [h]: [days = max(ceil(h / 4), 20)] rows are asked
    for. *)
Lemma get_recent_pattern_num (data : list row) (h : Q) :
  get_recent_pattern data (Num h) =
    let days := Z.max (Qceiling (h / 4)) 20 in
    if len data <? days then Raise (ValueError_data days (len data))
    else Ok (slice (close_norm <$> data)
               (Z.max 0 (len data - 1 - days + 1)) (len data - 1 + 1),
             Z.max 0 (len data - 1 - days + 1), len data - 1).
Proof.
  unfold get_recent_pattern, fdiv.
  change (Qeq_bool 4 0) with false. cbv iota. cbn [int_ceil mbind result_bind].
  rewrite (Qceiling_comp _ _ (Qred_correct (h / 4))). cbv zeta.
  replace (if Z.max 1 (Qceiling (h / 4)) <? 20 then 20
           else Z.max 1 (Qceiling (h / 4)))
    with (Z.max (Qceiling (h / 4)) 20); [done|].
  destruct (Z.ltb_spec (Z.max 1 (Qceiling (h / 4))) 20); lia.
Qed.

(** A duration that is not finite is refused by [int] at line 103. *)
Lemma get_recent_pattern_not_finite (data : list row) :
  get_recent_pattern data PInf = Raise OverflowError /\
  get_recent_pattern data NInf = Raise OverflowError /\
  get_recent_pattern data NaN = Raise ValueError_nan.
Proof. done. Qed.

Lemma get_recent_pattern_finite (data : list row) (a_hours : npfloat)
    (r : list Q * Z * Z) :
  get_recent_pattern data a_hours = Ok r -> exists h, a_hours = Num h.
Proof.
  destruct (get_recent_pattern_not_finite data) as (H1 & H2 & H3).
  destruct a_hours as [h| | |]; [by exists h|..]; congruence.
Qed.



(** ** Sorted lists *)

Lemma StronglySorted_sublist {A : Type} (R : relation A) (k l : list A) :
  k `sublist_of` l -> StronglySorted R l -> StronglySorted R k.
Proof.
  induction 1 as [|x k l Hsub IH|x k l Hsub IH]; intros Hl.
  - constructor.
  - apply StronglySorted_cons in Hl as [Hx Hl].
    apply StronglySorted_cons. split; [|by apply IH].
    rewrite Forall_forall in *. intros y Hy. apply Hx.
    by eapply elem_of_sublist.
  - apply StronglySorted_cons in Hl as [_ Hl]. by apply IH.
Qed.

Lemma StronglySorted_lookup {A : Type} (R : relation A) (l : list A)
    (p q : nat) (u v : A) :
  StronglySorted R l -> l !! p = Some u -> l !! q = Some v ->
  (p < q)%nat -> R u v.
Proof.
  intros Hl. revert p q. induction Hl as [|x l Hl IH Hx]; intros p q Hp Hq Hpq.
  - done.
  - destruct q as [|q]; [lia|]. destruct p as [|p]; simpl in *.
    + injection Hp as <-. rewrite Forall_forall in Hx. apply Hx.
      by eapply list_elem_of_lookup_2.
    + eapply IH; eauto. lia.
Qed.

Lemma StronglySorted_impl {A : Type} (R R' : relation A) (l : list A) :
  (forall x y, R x y -> R' x y) -> StronglySorted R l -> StronglySorted R' l.
Proof.
  intros HR. induction 1 as [|x l Hl IH Hx]; constructor; [done|].
  eapply Forall_impl; eauto.
Qed.

(** ** Ranking: the stable sort by distance *)

(** [s] is ranked before [t]: its distance is not greater, and on equal
    distances its window starts earlier. *)
Definition ranked (s t : similarity) : Prop :=
  xle (dtw_distance s) (dtw_distance t) /\
  (xle (dtw_distance t) (dtw_distance s) -> start_idx s < start_idx t).

Definition starts_before (s t : similarity) : Prop := start_idx s < start_idx t.

Lemma elem_of_insert_by_distance (s x : similarity) (sorted : list similarity) :
  x ∈ insert_by_distance s sorted <-> x = s \/ x ∈ sorted.
Proof.
  induction sorted as [|t rest IH]; simpl.
  - set_solver.
  - destruct (xltb (dtw_distance s) (dtw_distance t)); set_solver.
Qed.

Lemma insert_by_distance_ranked (s : similarity) (sorted : list similarity) :
  StronglySorted ranked sorted ->
  Forall (fun t => starts_before t s) sorted ->
  StronglySorted ranked (insert_by_distance s sorted).
Proof.
  induction 1 as [|t rest Hrest IH Ht]; intros Hbefore; simpl.
  - repeat constructor.
  - apply Forall_cons in Hbefore as [Hts Hbefore].
    destruct (xltb (dtw_distance s) (dtw_distance t)) eqn:Hlt.
    + constructor; [by constructor|].
      assert (ranked s t) as Hst.
      { split; [by apply xltb_true_le|].
        intros Hge. by apply xltb_true_not_ge in Hlt. }
      constructor; [done|].
      rewrite Forall_forall in *. intros r Hr.
      destruct (Ht r Hr) as [Htr _]. split.
      * eapply xle_trans; [apply Hst | done].
      * intros Hrs. exfalso. apply (xltb_true_not_ge _ _ Hlt).
        eapply xle_trans; eauto.
    + constructor; [by apply IH|].
      rewrite Forall_forall in *. intros r Hr.
      apply elem_of_insert_by_distance in Hr as [->|Hr]; [|by apply Ht].
      split; [by apply xltb_false_ge|]. by intros _.
Qed.

Lemma sort_by_distance_acc (similarities sorted : list similarity) :
  StronglySorted ranked sorted ->
  StronglySorted starts_before similarities ->
  (forall a b, a ∈ sorted -> b ∈ similarities -> starts_before a b) ->
  StronglySorted ranked
    (fold_left (fun sorted s => insert_by_distance s sorted) similarities sorted).
Proof.
  revert sorted. induction similarities as [|s rest IH]; intros sorted Hs Hl Hcross.
  - done.
  - simpl. apply StronglySorted_cons in Hl as [Hsr Hrest].
    apply IH; [|done|].
    + apply insert_by_distance_ranked; [done|].
      rewrite Forall_forall. intros t Ht. apply Hcross; set_solver.
    + intros a b Ha Hb. apply elem_of_insert_by_distance in Ha as [->|Ha].
      * rewrite Forall_forall in Hsr. by apply Hsr.
      * apply Hcross; set_solver.
Qed.

Lemma sort_by_distance_ranked (similarities : list similarity) :
  StronglySorted starts_before similarities ->
  StronglySorted ranked (sort_by_distance similarities).
Proof.
  intros Hl. apply sort_by_distance_acc; [constructor|done|].
  intros a b Ha. by apply elem_of_nil in Ha.
Qed.

Lemma elem_of_sort_acc (similarities sorted : list similarity) (x : similarity) :
  x ∈ fold_left (fun sorted s => insert_by_distance s sorted) similarities sorted
  <-> x ∈ similarities \/ x ∈ sorted.
Proof.
  revert sorted. induction similarities as [|s rest IH]; intros sorted; simpl.
  - set_solver.
  - rewrite IH, elem_of_insert_by_distance. set_solver.
Qed.

Lemma elem_of_sort_by_distance (similarities : list similarity) (x : similarity) :
  x ∈ sort_by_distance similarities <-> x ∈ similarities.
Proof. unfold sort_by_distance. rewrite elem_of_sort_acc. set_solver. Qed.

(** Without the tie rule: insertion keeps any list sorted by distance. *)
Definition by_distance (s t : similarity) : Prop :=
  xle (dtw_distance s) (dtw_distance t).

Lemma insert_by_distance_sorted (s : similarity) (sorted : list similarity) :
  StronglySorted by_distance sorted ->
  StronglySorted by_distance (insert_by_distance s sorted).
Proof.
  induction 1 as [|t rest Hrest IH Ht]; simpl.
  - repeat constructor.
  - destruct (xltb (dtw_distance s) (dtw_distance t)) eqn:Hlt.
    + constructor; [by constructor|].
      constructor; [by apply xltb_true_le|].
      eapply Forall_impl; [exact Ht|]. intros r Hr.
      eapply xle_trans; [by apply xltb_true_le | done].
    + constructor; [done|].
      rewrite Forall_forall in *. intros r Hr.
      apply elem_of_insert_by_distance in Hr as [->|Hr]; [|by apply Ht].
      by apply xltb_false_ge.
Qed.

Lemma sort_by_distance_sorted (similarities : list similarity) :
  StronglySorted by_distance (sort_by_distance similarities).
Proof.
  unfold sort_by_distance.
  assert (StronglySorted by_distance []) as H by constructor.
  revert H. generalize (@nil similarity).
  induction similarities as [|s rest IH]; intros acc Hacc; simpl; [done|].
  apply IH. by apply insert_by_distance_sorted.
Qed.

(** The sort loses and repeats nothing. *)
Lemma insert_by_distance_perm (s : similarity) (sorted : list similarity) :
  insert_by_distance s sorted ≡ₚ s :: sorted.
Proof.
  induction sorted as [|t rest IH]; simpl; [done|].
  destruct (xltb _ _); [done|]. rewrite IH. apply Permutation_swap.
Qed.

Lemma sort_by_distance_perm (similarities : list similarity) :
  sort_by_distance similarities ≡ₚ similarities.
Proof.
  unfold sort_by_distance.
  assert (forall acc, fold_left (fun sorted s => insert_by_distance s sorted)
                        similarities acc ≡ₚ similarities ++ acc) as H.
  { induction similarities as [|s rest IH]; intros acc; simpl; [done|].
    rewrite IH, insert_by_distance_perm. by rewrite Permutation_middle. }
  by rewrite H, app_nil_r.
Qed.

Lemma ranked_asymmetric (s t : similarity) : ranked s t -> ranked t s -> s = t.
Proof. intros [H1 H2] [H3 H4]. specialize (H2 H3). specialize (H4 H1). lia. Qed.

(** Candidates taken in scan order have one ranking only: any arrangement
    of them in ascending order of distance, equal distances in ascending
    order of start index, is the list that the sort returns. *)
Lemma sort_by_distance_unique (similarities l : list similarity) :
  StronglySorted starts_before similarities ->
  l ≡ₚ similarities -> StronglySorted ranked l ->
  l = sort_by_distance similarities.
Proof.
  intros Hst Hperm Hl.
  apply (StronglySorted_unique_strong ranked); [|done| |].
  - intros x y _ _. apply ranked_asymmetric.
  - by apply sort_by_distance_ranked.
  - by rewrite sort_by_distance_perm.
Qed.

(** ** Selection with overlap suppression *)

(** The separation test of lines 188-189, for a candidate [u] against an
    accepted [v]. *)
Definition separated (min_gap_days : Z) (u v : similarity) : Prop :=
  end_idx u < start_idx v - min_gap_days \/
  start_idx u > end_idx v + min_gap_days.

Definition range_of (s : similarity) : Z * Z := (start_idx s, end_idx s).

Lemma separated_sym (gap : Z) (u v : similarity) :
  separated gap u v -> separated gap v u.
Proof. unfold separated. lia. Qed.

Lemma overlaps_false (gap : Z) (sim : similarity) (accepted : list similarity) :
  overlaps gap sim (range_of <$> accepted) = false <->
  Forall (fun v => separated gap sim v) accepted.
Proof.
  unfold overlaps. induction accepted as [|v rest IH]; simpl.
  - split; [constructor|done].
  - rewrite orb_false_iff, IH, Forall_cons. unfold separated.
    rewrite negb_false_iff, orb_true_iff, Z.ltb_lt, Z.gtb_gt. tauto.
Qed.

Lemma select_patterns_spec (top_n gap : Z) (similarities accepted : list similarity) :
  exists picked,
    select_patterns top_n gap similarities accepted (range_of <$> accepted)
      = accepted ++ picked /\
    picked `sublist_of` similarities /\
    (StronglySorted (fun u v => separated gap v u) accepted ->
     StronglySorted (fun u v => separated gap v u) (accepted ++ picked)) /\
    len (accepted ++ picked) <= Z.max top_n (len accepted + 1) /\
    (len accepted < top_n -> len (accepted ++ picked) <= top_n).
Proof.
  revert accepted. induction similarities as [|sim rest IH]; intros accepted; simpl.
  - exists []. rewrite app_nil_r. repeat split; [done|done|lia|lia].
  - destruct (overlaps gap sim (range_of <$> accepted)) eqn:Hov.
    + destruct (IH accepted) as (picked & -> & Hsub & Hsep & Hlen & Hlen').
      exists picked. repeat split; [by constructor|done..].
    + apply overlaps_false in Hov.
      assert (StronglySorted (fun u v => separated gap v u) accepted ->
              StronglySorted (fun u v => separated gap v u) (accepted ++ [sim]))
        as Hstep.
      { intros Hacc. apply StronglySorted_app. repeat split; [|done|repeat constructor].
        intros u Hu v Hv. apply list_elem_of_singleton in Hv as ->.
        rewrite Forall_forall in Hov. by apply Hov. }
      replace (range_of <$> accepted ++ [sim])
        with ((range_of <$> accepted) ++ [(start_idx sim, end_idx sim)])
        by (by rewrite fmap_app).
      destruct (Z.geb_spec (len (accepted ++ [sim])) top_n) as [Hge|Hlt].
      * exists [sim]. repeat split; [|done|..].
        -- constructor. apply sublist_nil_l.
        -- rewrite len_app in *. unfold len in *. simpl in *. lia.
        -- rewrite len_app in *. unfold len in *. simpl in *. lia.
      * replace ((range_of <$> accepted) ++ [(start_idx sim, end_idx sim)])
          with (range_of <$> (accepted ++ [sim])) by (by rewrite fmap_app).
        destruct (IH (accepted ++ [sim])) as (picked & -> & Hsub & Hsep & Hlen & Hlen').
        exists (sim :: picked).
        assert (accepted ++ sim :: picked = (accepted ++ [sim]) ++ picked) as Heq
          by (by rewrite <- app_assoc).
        rewrite Heq. repeat split; [by constructor|by auto| |].
        -- rewrite len_app in Hlt. unfold len in Hlt. simpl in Hlt.
           specialize (Hlen' ltac:(rewrite len_app; unfold len; simpl; lia)).
           unfold len in *. lia.
        -- intros _. apply Hlen'. rewrite len_app in *. unfold len in *.
           simpl in *. lia.
Qed.

Lemma select_patterns_head (top_n gap : Z) (sim : similarity) (rest : list similarity) :
  exists picked, select_patterns top_n gap (sim :: rest) [] [] = sim :: picked.
Proof.
  simpl.
  destruct (len [sim] >=? top_n); [by exists []|].
  destruct (select_patterns_spec top_n gap rest [sim]) as (picked & Hsel & _).
  exists picked. exact Hsel.
Qed.

(** ** The scan of the history *)

Section ScanFacts.

Variable sqrt_pos : Q -> Q.

Lemma candidate_ok (data : list row) (rp : list Q) (L i : Z) (s : similarity) :
  candidate sqrt_pos data rp L i = Ok s ->
  start_idx s = i - L + 1 /\ end_idx s = i /\
  pattern s = slice (close_norm <$> data) (i - L + 1) (i + 1) /\
  (exists path, calculate_dtw_distance rp (pattern s) = Ok (dtw_distance s, path)) /\
  Numpy.corrcoef sqrt_pos rp (pattern s) = Ok (correlation s) /\
  score s = fmul (correlation s)
              (fdiv (Num 1) (fadd (Num 1) (of_xcost (dtw_distance s)))) /\
  iloc (date <$> data) (i - L + 1) = Ok (start_date s) /\
  iloc (date <$> data) i = Ok (end_date s).
Proof.
  unfold candidate.
  destruct (calculate_dtw_distance _ _) as [[d path]|e] eqn:Hd; [|done].
  destruct (Numpy.corrcoef _ _ _) as [c|e] eqn:Hc; [|done].
  replace (i + 1 - 1) with i by lia.
  destruct (iloc _ (i - L + 1)) as [sd|e] eqn:Hsd; [|done].
  destruct (iloc _ i) as [ed|e] eqn:Hed; [|done].
  simpl. intros [= <-]. simpl. by eauto 10.
Qed.

Lemma calculate_dtw_distance_raise (p1 p2 : list Q) (e : exn) :
  calculate_dtw_distance p1 p2 = Raise e -> e = FastDTWError.
Proof.
  unfold calculate_dtw_distance.
  destruct (FastDTW.fastdtw p1 p2) as [[d path]|]; congruence.
Qed.

Lemma corrcoef_raise (x y : list Q) (e : exn) :
  Numpy.corrcoef sqrt_pos x y = Raise e -> e = ValueError_shape.
Proof.
  unfold Numpy.corrcoef. destruct (negb _); congruence.
Qed.

Lemma iloc_raise {A : Type} (l : list A) (k : Z) (e : exn) :
  iloc l k = Raise e -> e = IndexError.
Proof. unfold iloc. destruct (getitem l k); congruence. Qed.

Lemma candidate_raise (data : list row) (rp : list Q) (L i : Z) (e : exn) :
  candidate sqrt_pos data rp L i = Raise e -> ~ InsufficientHistory e.
Proof.
  unfold candidate.
  destruct (calculate_dtw_distance _ _) as [[d path]|e1] eqn:Hd; simpl.
  2:{ intros [= <-]. apply calculate_dtw_distance_raise in Hd as ->. by intros []. }
  destruct (Numpy.corrcoef _ _ _) as [c|e2] eqn:Hc; simpl.
  2:{ intros [= <-]. apply corrcoef_raise in Hc as ->. by intros []. }
  destruct (iloc _ (i - L + 1)) as [sd|e3] eqn:Hsd; simpl.
  2:{ intros [= <-]. apply iloc_raise in Hsd as ->. by intros []. }
  destruct (iloc _ (i + 1 - 1)) as [ed|e4] eqn:Hed; simpl; [done|].
  intros [= <-]. apply iloc_raise in Hed as ->. by intros [].
Qed.

Lemma scan_ok (data : list row) (rp : list Q) (L : Z) (indices : list Z)
    (acc sims : list similarity) :
  scan sqrt_pos data rp L indices acc = Ok sims ->
  exists new, sims = acc ++ new /\
    Forall2 (fun i s => candidate sqrt_pos data rp L i = Ok s) indices new.
Proof.
  revert acc. induction indices as [|i rest IH]; intros acc; simpl.
  - intros [= <-]. exists []. by rewrite app_nil_r.
  - destruct (candidate sqrt_pos data rp L i) as [s|e] eqn:Hs; [|done]. simpl.
    intros Hscan. apply IH in Hscan as (new & -> & Hnew).
    exists (s :: new). rewrite <- app_assoc. split; [done|]. by constructor.
Qed.

Lemma scan_raise (data : list row) (rp : list Q) (L : Z) (indices : list Z)
    (acc : list similarity) (e : exn) :
  scan sqrt_pos data rp L indices acc = Raise e -> ~ InsufficientHistory e.
Proof.
  revert acc. induction indices as [|i rest IH]; intros acc; simpl; [done|].
  destruct (candidate sqrt_pos data rp L i) as [s|e'] eqn:Hs; simpl.
  - apply IH.
  - intros [= <-]. by eapply candidate_raise.
Qed.

Lemma scan_total (data : list row) (rp : list Q) (L : Z) (indices : list Z)
    (acc : list similarity) :
  (forall i, i ∈ indices -> exists s, candidate sqrt_pos data rp L i = Ok s) ->
  exists sims, scan sqrt_pos data rp L indices acc = Ok sims.
Proof.
  revert acc. induction indices as [|i rest IH]; intros acc Hall; simpl.
  - eauto.
  - destruct (Hall i) as [s ->]; [by left|]. simpl.
    apply IH. intros j Hj. apply Hall. by right.
Qed.

Lemma scan_history_unfold (data : list row) (a_hours : npfloat) (gap : Z)
    (rp : list Q) (rs re : Z) :
  get_recent_pattern data a_hours = Ok (rp, rs, re) ->
  scan_history sqrt_pos data a_hours gap =
    if rs - gap <? len rp then Raise ValueError_history
    else scan sqrt_pos data rp (len rp) (zrange (len rp - 1) (rs - gap)) [].
Proof. intros H. unfold scan_history. by rewrite H. Qed.

Lemma find_unfold (data : list row) (a_hours : npfloat) (top_n gap : Z) :
  find_similar_patterns sqrt_pos data a_hours top_n gap =
    match get_recent_pattern data a_hours with
    | Ok (rp, rs, re) =>
        match scan_history sqrt_pos data a_hours gap with
        | Ok sims =>
            Ok (select_patterns top_n gap (sort_by_distance sims) [] [], rp, rs, re)
        | Raise e => Raise e
        end
    | Raise e => Raise e
    end.
Proof.
  unfold find_similar_patterns, scan_history.
  destruct (get_recent_pattern data a_hours) as [[[rp rs] re]|e]; [|done]. simpl.
  destruct (rs - gap <? len rp); [done|].
  by destruct (scan _ _ _ _ _ _).
Qed.

Lemma find_ok_inv (data : list row) (a_hours : npfloat) (top_n gap : Z)
    (matches : list similarity) (rp : list Q) (rs re : Z) :
  find_similar_patterns sqrt_pos data a_hours top_n gap = Ok (matches, rp, rs, re) ->
  get_recent_pattern data a_hours = Ok (rp, rs, re) /\
  exists sims, scan_history sqrt_pos data a_hours gap = Ok sims /\
    matches = select_patterns top_n gap (sort_by_distance sims) [] [].
Proof.
  rewrite find_unfold.
  destruct (get_recent_pattern data a_hours) as [[[rp' rs'] re']|e]; [|done].
  destruct (scan_history _ _ _ _) as [sims|e]; [|done].
  intros [= <- <- <- <-]. eauto.
Qed.

(** The windows of the scanned candidates, in scan order. *)
Lemma scan_windows (data : list row) (rp : list Q) (L : Z) (indices : list Z)
    (sims : list similarity) :
  Forall2 (fun i s => candidate sqrt_pos data rp L i = Ok s) indices sims ->
  range_of <$> sims = (fun i => (i - L + 1, i)) <$> indices.
Proof.
  induction 1 as [|i s indices sims Hs _ IH]; [done|].
  rewrite !fmap_cons, IH.
  apply candidate_ok in Hs as (Hstart & Hend & _).
  unfold range_of. by rewrite Hstart, Hend.
Qed.

Lemma scan_starts_before (data : list row) (rp : list Q) (L a n : Z)
    (sims : list similarity) :
  Forall2 (fun i s => candidate sqrt_pos data rp L i = Ok s) (seqZ a n) sims ->
  StronglySorted starts_before sims.
Proof.
  intros H. apply scan_windows in H.
  assert (start_idx <$> sims = (fun i => i - L + 1) <$> seqZ a n) as Hst.
  { apply (f_equal (fmap fst)) in H. rewrite <- !list_fmap_compose in H.
    exact H. }
  clear H. revert a n Hst. induction sims as [|s sims IH]; intros a n Hst.
  - constructor.
  - destruct (Z.le_gt_cases n 0) as [Hn|Hn].
    { by rewrite seqZ_nil in Hst. }
    rewrite seqZ_cons in Hst by done. rewrite !fmap_cons in Hst.
    injection Hst as Hs Hst. constructor; [by eapply IH|].
    rewrite Forall_forall. intros t Ht. unfold starts_before.
    assert (start_idx t ∈ start_idx <$> sims) as Hin by (by apply list_elem_of_fmap_2).
    rewrite Hst in Hin. apply list_elem_of_fmap in Hin as (j & -> & Hj).
    apply elem_of_seqZ in Hj. lia.
Qed.

End ScanFacts.

Section SearchFacts.

Variable sqrt_pos : Q -> Q.

Lemma scan_history_ok (data : list row) (a_hours : npfloat) (gap : Z)
    (sims : list similarity) :
  scan_history sqrt_pos data a_hours gap = Ok sims ->
  exists rp rs re,
    get_recent_pattern data a_hours = Ok (rp, rs, re) /\
    len rp <= rs - gap /\
    Forall2 (fun i s => candidate sqrt_pos data rp (len rp) i = Ok s)
      (zrange (len rp - 1) (rs - gap)) sims.
Proof.
  destruct (get_recent_pattern data a_hours) as [[[rp rs] re]|e] eqn:Hrp.
  2:{ unfold scan_history. by rewrite Hrp. }
  rewrite (scan_history_unfold _ _ _ _ _ _ _ Hrp).
  destruct (Z.ltb_spec (rs - gap) (len rp)); [done|].
  intros Hscan. apply scan_ok in Hscan as (new & -> & Hnew).
  exists rp, rs, re. by repeat split.
Qed.

Lemma scan_history_starts_before (data : list row) (a_hours : npfloat) (gap : Z)
    (sims : list similarity) :
  scan_history sqrt_pos data a_hours gap = Ok sims ->
  StronglySorted starts_before sims.
Proof.
  intros H. apply scan_history_ok in H as (rp & rs & re & _ & _ & H).
  by eapply scan_starts_before.
Qed.

Lemma find_matches (data : list row) (a_hours : npfloat) (top_n gap : Z)
    (matches : list similarity) (rp : list Q) (rs re : Z) :
  find_similar_patterns sqrt_pos data a_hours top_n gap = Ok (matches, rp, rs, re) ->
  exists sims,
    scan_history sqrt_pos data a_hours gap = Ok sims /\
    matches = select_patterns top_n gap (sort_by_distance sims) [] [] /\
    matches `sublist_of` sort_by_distance sims /\
    StronglySorted (fun u v => separated gap v u) matches /\
    StronglySorted ranked matches /\
    len matches <= Z.max top_n 1 /\
    (1 <= top_n -> len matches <= top_n).
Proof.
  intros Hfind. apply find_ok_inv in Hfind as (Hrp & sims & Hscan & ->).
  exists sims. split; [done|]. split; [done|].
  destruct (select_patterns_spec top_n gap (sort_by_distance sims) [])
    as (picked & Hsel & Hsub & Hsep & Hlen & Hlen').
  simpl in *. rewrite Hsel.
  split; [done|]. split; [apply Hsep; constructor|].
  split.
  { eapply StronglySorted_sublist; [done|].
    apply sort_by_distance_ranked. by eapply scan_history_starts_before. }
  split; [done|]. intros Htop. apply Hlen'. unfold len. simpl. lia.
Qed.

(** C4. Any two distinct matches returned by [find_similar_patterns] are
    separated by more than [min_gap_days]: one ends before the other
    starts minus the gap, or starts after the other ends plus the gap. *)
Theorem matches_pairwise_separated (data : list row) (a_hours : npfloat)
    (top_n min_gap_days : Z) (matches : list similarity) (rp : list Q)
    (rs re : Z) :
  find_similar_patterns sqrt_pos data a_hours top_n min_gap_days
    = Ok (matches, rp, rs, re) ->
  (forall (p q : nat) (u v : similarity),
     matches !! p = Some u -> matches !! q = Some v -> p <> q ->
     end_idx u < start_idx v - min_gap_days \/
     start_idx u > end_idx v + min_gap_days) /\
  (forall u v : similarity,
     u ∈ matches -> v ∈ matches -> u <> v ->
     end_idx u < start_idx v - min_gap_days \/
     start_idx u > end_idx v + min_gap_days).
Proof.
  intros Hfind.
  apply find_matches in Hfind as (sims & _ & _ & _ & Hsep & _).
  assert (forall (p q : nat) (u v : similarity),
     matches !! p = Some u -> matches !! q = Some v -> p <> q ->
     separated min_gap_days u v) as Hpos.
  { intros p q u v Hp Hq Hpq.
    destruct (Nat.lt_total p q) as [Hlt|[Heq|Hgt]]; [|done|].
    - apply separated_sym.
      by apply (StronglySorted_lookup _ _ _ _ _ _ Hsep Hp Hq).
    - by apply (StronglySorted_lookup _ _ _ _ _ _ Hsep Hq Hp). }
  split; [exact Hpos|].
  intros u v Hu Hv Huv.
  apply list_elem_of_lookup in Hu as [p Hp].
  apply list_elem_of_lookup in Hv as [q Hq].
  apply (Hpos p q u v Hp Hq). intros ->. congruence.
Qed.

Lemma xle_not_ltb (a b : xcost) : xle a b -> xltb b a = false.
Proof.
  intros Hle. destruct (xltb b a) eqn:Hlt; [|done].
  by apply xltb_true_not_ge in Hlt.
Qed.

(** C9. The first match returned is a scanned candidate of least
    [dtw_distance]: no scanned candidate, selected or suppressed, has a
    strictly smaller distance. *)
Theorem first_match_minimal (data : list row) (a_hours : npfloat)
    (top_n min_gap_days : Z) (first : similarity) (others : list similarity)
    (rp : list Q) (rs re : Z) :
  find_similar_patterns sqrt_pos data a_hours top_n min_gap_days
    = Ok (first :: others, rp, rs, re) ->
  exists sims,
    scan_history sqrt_pos data a_hours min_gap_days = Ok sims /\
    first ∈ sims /\
    forall c, c ∈ sims ->
      xle (dtw_distance first) (dtw_distance c) /\
      xltb (dtw_distance c) (dtw_distance first) = false.
Proof.
  intros Hfind.
  apply find_matches in Hfind as (sims & Hscan & Hsel & Hsub & _).
  exists sims. split; [done|].
  pose proof (sort_by_distance_sorted sims) as Hsorted.
  destruct (sort_by_distance sims) as [|s sorted] eqn:Hs.
  { by apply sublist_nil_r in Hsub. }
  destruct (select_patterns_head top_n min_gap_days s sorted) as [picked Hhead].
  rewrite Hhead in Hsel. injection Hsel as -> ->.
  assert (forall c, c ∈ sims -> c ∈ s :: sorted) as Hin.
  { intros c Hc. rewrite <- Hs. by apply elem_of_sort_by_distance. }
  split.
  { apply elem_of_sort_by_distance. rewrite Hs. by left. }
  intros c Hc. apply StronglySorted_cons in Hsorted as [Hmin _].
  assert (xle (dtw_distance s) (dtw_distance c)) as Hle.
  { apply Hin in Hc. apply elem_of_cons in Hc as [->|Hc]; [apply xle_refl|].
    rewrite Forall_forall in Hmin. by apply Hmin. }
  split; [done|]. by apply xle_not_ltb.
Qed.

(** C10. The matches of [find_similar_patterns] are fixed by the scanned
    candidates. The ranking holds every scanned candidate once (it is a
    permutation of the scan), in ascending order of distance with equal
    distances in scan order (ascending start index), and no other
    arrangement of the candidates has that order. The matches are the
    selection made from the ranking: each is a scanned candidate, and they
    come in the same order, equal distances chronologically. *)
Theorem ranking_deterministic_stable (data : list row) (a_hours : npfloat)
    (top_n min_gap_days : Z) (matches : list similarity) (rp : list Q)
    (rs re : Z) :
  find_similar_patterns sqrt_pos data a_hours top_n min_gap_days
    = Ok (matches, rp, rs, re) ->
  exists sims,
    scan_history sqrt_pos data a_hours min_gap_days = Ok sims /\
    Forall2 (fun i s => candidate sqrt_pos data rp (len rp) i = Ok s)
      (zrange (len rp - 1) (rs - min_gap_days)) sims /\
    sort_by_distance sims ≡ₚ sims /\
    (forall (p q : nat) (u v : similarity),
       sort_by_distance sims !! p = Some u ->
       sort_by_distance sims !! q = Some v -> (p < q)%nat ->
       xle (dtw_distance u) (dtw_distance v) /\
       (xeq (dtw_distance u) (dtw_distance v) -> start_idx u < start_idx v)) /\
    (forall l, l ≡ₚ sims -> StronglySorted ranked l -> l = sort_by_distance sims) /\
    matches = select_patterns top_n min_gap_days (sort_by_distance sims) [] [] /\
    matches `sublist_of` sort_by_distance sims /\
    (forall m, m ∈ matches -> m ∈ sims) /\
    (forall (p q : nat) (u v : similarity),
       matches !! p = Some u -> matches !! q = Some v -> (p < q)%nat ->
       xle (dtw_distance u) (dtw_distance v) /\
       (xeq (dtw_distance u) (dtw_distance v) -> start_idx u < start_idx v)).
Proof.
  intros Hfind.
  destruct (find_ok_inv _ _ _ _ _ _ _ _ _ Hfind) as (Hrec & _).
  apply find_matches in Hfind as (sims & Hscan & Hsel & Hsub & _ & Hranked & _).
  pose proof (scan_history_starts_before _ _ _ _ Hscan) as Hst.
  destruct (scan_history_ok _ _ _ _ Hscan) as (rp' & rs' & re' & Hrec' & _ & Hall).
  rewrite Hrec in Hrec'. injection Hrec' as <- <- <-.
  assert (forall (l : list similarity) (p q : nat) (u v : similarity),
            StronglySorted ranked l ->
            l !! p = Some u -> l !! q = Some v -> (p < q)%nat ->
            xle (dtw_distance u) (dtw_distance v) /\
            (xeq (dtw_distance u) (dtw_distance v) -> start_idx u < start_idx v))
    as Hordered.
  { intros l p q u v Hl Hp Hq Hpq.
    destruct (StronglySorted_lookup _ _ _ _ _ _ Hl Hp Hq Hpq) as [Hle Htie].
    split; [done|]. intros Heq. apply Htie.
    destruct (dtw_distance u), (dtw_distance v); simpl in *; try done.
    rewrite Heq. apply Qle_refl. }
  exists sims. split; [done|]. split; [done|].
  split; [apply sort_by_distance_perm|].
  split.
  { intros p q u v. apply Hordered. by apply sort_by_distance_ranked. }
  split.
  { intros l. by apply sort_by_distance_unique. }
  split; [done|]. split; [done|]. split.
  { intros m Hm. apply elem_of_sort_by_distance. by eapply elem_of_sublist. }
  intros p q u v. by apply Hordered.
Qed.

(** X1. For [top_n >= 1] the result has at most [top_n] matches, in ascending
    order of distance; for any [top_n] it has at most [max(top_n, 1)]. *)
Lemma matches_bounded_sorted (data : list row) (a_hours : npfloat)
    (top_n min_gap_days : Z) (matches : list similarity) (rp : list Q)
    (rs re : Z) :
  find_similar_patterns sqrt_pos data a_hours top_n min_gap_days
    = Ok (matches, rp, rs, re) ->
  (1 <= top_n -> len matches <= top_n) /\
  len matches <= Z.max top_n 1 /\
  StronglySorted by_distance matches.
Proof.
  intros Hfind.
  apply find_matches in Hfind as (sims & _ & _ & _ & _ & Hranked & Hlen & Hlen').
  split; [done|]. split; [done|].
  eapply StronglySorted_impl; [|exact Hranked]. by intros x y [].
Qed.

End SearchFacts.

Lemma get_recent_pattern_ok (data : list row) (a_hours : npfloat) (rp : list Q) (rs re : Z) :
  get_recent_pattern data a_hours = Ok (rp, rs, re) ->
  rp = slice (close_norm <$> data) rs (re + 1) /\
  re = len data - 1 /\ rs = len data - len rp /\ 20 <= len rp /\ 0 <= rs.
Proof.
  intros H. destruct (get_recent_pattern_finite _ _ _ H) as [h ->].
  revert H. rewrite get_recent_pattern_num. cbv zeta.
  set (days := Z.max (Qceiling (h / 4)) 20).
  assert (20 <= days) as Hdays by (subst days; lia).
  clearbody days.
  destruct (Z.ltb_spec (len data) days) as [|Hge]; [done|].
  intros [= <- <- <-].
  assert (len (slice (close_norm <$> data)
                 (Z.max 0 (len data - 1 - days + 1)) (len data - 1 + 1)) = days)
    as Hlen.
  { rewrite len_slice; rewrite ?len_fmap; lia. }
  rewrite Hlen. repeat split; lia.
Qed.

Section ScanRange.

Variable sqrt_pos : Q -> Q.

Lemma corrcoef_ok (x y : list Q) :
  len x = len y -> exists c, Numpy.corrcoef sqrt_pos x y = Ok c.
Proof.
  intros Hlen. unfold Numpy.corrcoef. rewrite Hlen, Z.eqb_refl. simpl. eauto.
Qed.

Lemma candidate_total (data : list row) (rp : list Q) (i : Z) :
  1 <= len rp -> len rp - 1 <= i -> i < len data ->
  (exists r, calculate_dtw_distance rp
               (slice (close_norm <$> data) (i - len rp + 1) (i + 1)) = Ok r) ->
  exists s, candidate sqrt_pos data rp (len rp) i = Ok s.
Proof.
  intros Hrp0 Hlo Hhi [[d path] Hd]. unfold candidate. rewrite Hd. simpl.
  destruct (corrcoef_ok rp (slice (close_norm <$> data) (i - len rp + 1) (i + 1)))
    as [c ->].
  { rewrite len_slice; rewrite ?len_fmap; lia. }
  simpl. unfold iloc.
  destruct (getitem_inner (date <$> data) (i - len rp + 1)) as [sd ->].
  { rewrite len_fmap. lia. }
  destruct (getitem_inner (date <$> data) (i + 1 - 1)) as [ed ->].
  { rewrite len_fmap. lia. }
  simpl. eauto.
Qed.

End ScanRange.

(** ** numpy's correlation on a sequence without variance *)





(** [v] is the finite value [c]. *)
Definition is_val (c : Q) (v : npfloat) : Prop :=
  exists q, v = Num q /\ (q == c)%Q.


















Section Degenerate.

Variable sqrt_pos : Q -> Q.






End Degenerate.

(** ** The patterns compared *)

Lemma normalize_series_length (series out : list Q) :
  normalize_series series = Ok out -> length out = length series.
Proof.
  intros H. destruct series as [|v rest] eqn:Hs; [done|]. rewrite <- Hs in *.
  assert (series <> []) as Hne by (by subst).
  destruct (np_min_spec series Hne) as (mn & Hmn & _).
  destruct (np_max_spec series Hne) as (mx & Hmx & _).
  rewrite (normalize_series_unfold _ _ _ Hmn Hmx) in H. injection H as <-.
  destruct (Qeq_bool mx mn); by rewrite length_fmap.
Qed.

Lemma zip_rows (table : list (Z * Q)) (normed : list Q) :
  length normed = length table ->
  let data := zip_with (fun dc n => {| date := fst dc; close := snd dc;
                                       close_norm := n |}) table normed in
  close_norm <$> data = normed /\ close <$> data = snd <$> table /\
  date <$> data = fst <$> table.
Proof.
  revert normed. induction table as [|dc table IH]; intros [|n normed] Hlen;
    simpl in Hlen; try done.
  destruct (IH normed) as (H1 & H2 & H3); [lia|].
  cbv zeta. simpl zip_with. rewrite !fmap_cons. cbn [date close close_norm].
  by rewrite H1, H2, H3.
Qed.

Lemma fetch_data_ok (table : list (Z * Q)) (data : list row) :
  fetch_data table = Some data ->
  exists normed,
    normalize_series (snd <$> table) = Ok normed /\
    close_norm <$> data = normed /\ close <$> data = snd <$> table /\
    date <$> data = fst <$> table.
Proof.
  unfold fetch_data.
  destruct (normalize_series (snd <$> table)) as [normed|e] eqn:Hn; [|done].
  intros [= <-]. exists normed. split; [done|].
  apply zip_rows. apply normalize_series_length in Hn.
  by rewrite length_fmap in Hn.
Qed.

Definition constantb (l : list Q) : bool :=
  match l with
  | [] => true
  | c :: rest => forallb (Qeq_bool c) rest
  end.

Lemma constantb_constant (l : list Q) : constantb l = true -> constant l.
Proof.
  destruct l as [|c rest]; [by intros _ u v []|]. simpl. intros H.
  assert (forall u, In u (c :: rest) -> (c == u)%Q) as Hall.
  { intros u [<-|Hu]; [reflexivity|].
    rewrite forallb_forall in H. by apply Qeq_bool_eq, H. }
  intros u v Hu Hv. by rewrite <- (Hall u Hu), <- (Hall v Hv).
Qed.


Section Patterns.

Variable sqrt_pos : Q -> Q.

Lemma corrcoef_ok_len (x y : list Q) (c : npfloat) :
  Numpy.corrcoef sqrt_pos x y = Ok c -> len x = len y.
Proof.
  unfold Numpy.corrcoef. destruct (Z.eqb_spec (len x) (len y)); done.
Qed.


End Patterns.

(** ** Runs on the sample *)


Lemma sample_recent : get_recent_pattern sample_data (Num 8) = Ok (sample_pattern, 50, 69).
Proof. vm_compute. reflexivity. Qed.

(** A scan whose candidates all exist collects them in order. *)
Lemma scan_candidates (sqrt_pos : Q -> Q) (data : list row) (rp : list Q) (L : Z)
    (indices : list Z) (sims acc : list similarity) :
  Forall2 (fun i s => candidate sqrt_pos data rp L i = Ok s) indices sims ->
  scan sqrt_pos data rp L indices acc = Ok (acc ++ sims).
Proof.
  intros H. revert acc. induction H as [|i s indices sims Hs _ IH]; intros acc.
  - by rewrite app_nil_r.
  - cbn [scan]. rewrite Hs. cbn. rewrite IH. by rewrite <- app_assoc.
Qed.

(** The 31 candidates before the reference window, one evaluation each. *)
Lemma sample_candidates :
  Forall2 (fun i s => candidate sqrt_floor sample_data sample_pattern 20 i = Ok s)
    (zrange 19 50) sample_scan_gap0.
Proof.
  change (zrange 19 50) with
    [19; 20; 21; 22; 23; 24; 25; 26; 27; 28; 29; 30; 31; 32; 33; 34; 35; 36; 37;
     38; 39; 40; 41; 42; 43; 44; 45; 46; 47; 48; 49].
  unfold sample_scan_gap0.
  repeat (constructor; [vm_compute; reflexivity|]). constructor.
Qed.

Lemma sample_scan (n : nat) (gap : Z) :
  (50 - gap <? 20) = false ->
  zrange 19 (50 - gap) = take n (zrange 19 50) ->
  scan_history sqrt_floor sample_data (Num 8) gap = Ok (take n sample_scan_gap0).
Proof.
  intros Hlt Hr. rewrite (scan_history_unfold _ _ _ _ _ _ _ sample_recent).
  change (len sample_pattern) with 20. rewrite Hlt.
  change (20 - 1) with 19. rewrite Hr.
  rewrite (scan_candidates _ _ _ _ _ (take n sample_scan_gap0)); [done|].
  apply Forall2_take, sample_candidates.
Qed.

Lemma sample_run_gap0 :
  find_similar_patterns sqrt_floor sample_data (Num 8) 5 0
    = Ok (sample_matches_gap0, sample_pattern, 50, 69).
Proof.
  rewrite find_unfold, sample_recent, (sample_scan 31 0) by reflexivity.
  vm_compute. reflexivity.
Qed.



Lemma sample_run_top0 :
  find_similar_patterns sqrt_floor sample_data (Num 8) 0 30
    = Ok (sample_matches_top0, sample_pattern, 50, 69).
Proof.
  rewrite find_unfold, sample_recent, (sample_scan 1 30) by reflexivity.
  vm_compute. reflexivity.
Qed.

Lemma tie_recent : get_recent_pattern tie_data (Num 8) = Ok (tie_pattern, 40, 59).
Proof. vm_compute. reflexivity. Qed.

(** The 21 candidates of the second sample, one evaluation each. *)
Lemma tie_candidates :
  Forall2 (fun i s => candidate sqrt_floor tie_data tie_pattern 20 i = Ok s)
    (zrange 19 40) tie_scan.
Proof.
  change (zrange 19 40) with
    [19; 20; 21; 22; 23; 24; 25; 26; 27; 28; 29; 30; 31; 32; 33; 34; 35; 36; 37;
     38; 39].
  unfold tie_scan.
  repeat (constructor; [vm_compute; reflexivity|]). constructor.
Qed.

Lemma tie_run :
  find_similar_patterns sqrt_floor tie_data (Num 8) 5 0
    = Ok (tie_matches, tie_pattern, 40, 59).
Proof.
  rewrite find_unfold, tie_recent, (scan_history_unfold _ _ _ _ _ _ _ tie_recent).
  change (len tie_pattern) with 20. change (40 - 0 <? 20) with false.
  change (20 - 1) with 19. change (40 - 0) with 40. cbv iota.
  rewrite (scan_candidates _ _ _ _ _ tie_scan) by exact tie_candidates.
  vm_compute. reflexivity.
Qed.




Lemma matches_pairwise_separated_witness :
  exists matches,
    find_similar_patterns sqrt_floor sample_data (Num 8) 5 0
      = Ok (matches, sample_pattern, 50, 69) /\
    (range_of <$> matches = [(26, 45); (0, 19)]) /\
    (forall (p q : nat) (u v : similarity),
       matches !! p = Some u -> matches !! q = Some v -> p <> q ->
       end_idx u < start_idx v - 0 \/ start_idx u > end_idx v + 0).
Proof.
  exists sample_matches_gap0. split; [exact sample_run_gap0|].
  split; [vm_compute; reflexivity|].
  exact (proj1 (matches_pairwise_separated sqrt_floor sample_data (Num 8) 5 0
                  sample_matches_gap0 sample_pattern 50 69 sample_run_gap0)).
Defined.

Lemma first_match_minimal_witness :
  exists first others sims,
    find_similar_patterns sqrt_floor sample_data (Num 8) 5 0
      = Ok (first :: others, sample_pattern, 50, 69) /\
    scan_history sqrt_floor sample_data (Num 8) 0 = Ok sims /\
    first ∈ sims /\
    forall c, c ∈ sims ->
      xle (dtw_distance first) (dtw_distance c) /\
      xltb (dtw_distance c) (dtw_distance first) = false.
Proof.
  eexists _, _.
  assert (find_similar_patterns sqrt_floor sample_data (Num 8) 5 0
            = Ok (_ :: _, sample_pattern, 50, 69)) as Hrun
    by exact sample_run_gap0.
  destruct (first_match_minimal sqrt_floor sample_data (Num 8) 5 0 _ _
              sample_pattern 50 69 Hrun) as (sims & Hscan & Hin & Hmin).
  exists sims. split; [exact Hrun|]. split; [exact Hscan|]. split; [exact Hin|].
  exact Hmin.
Defined.

(** C5, the failing input: with [top_n = 0] the search returns one match. *)
Lemma top_n_zero_returns_one_match :
  find_similar_patterns sqrt_floor sample_data (Num 8) 0 30
    = Ok (sample_matches_top0, sample_pattern, 50, 69) /\
  length sample_matches_top0 = 1%nat /\
  ~ len sample_matches_top0 <= 0.
Proof.
  split; [exact sample_run_top0|]. split; [vm_compute; reflexivity|].
  vm_compute. intros H. apply H. reflexivity.
Qed.

(** ** The cost table of [__dtw] against the recurrence *)

Definition is_finite (c : xcost) : Prop := exists q, c = Finite q.

Lemma xadd_mono (a b : xcost) (d : Q) : xle a b -> xle (xadd a d) (xadd b d).
Proof. destruct a, b; simpl; try done. intros H. lra. Qed.

Lemma xmin_le_l (a b : xcost) : xle (xmin a b) a.
Proof.
  unfold xmin. destruct (xltb b a) eqn:E; [by apply xltb_true_le|apply xle_refl].
Qed.

Lemma xmin_le_r (a b : xcost) : xle (xmin a b) b.
Proof.
  unfold xmin. destruct (xltb b a) eqn:E; [apply xle_refl|by apply xltb_false_ge].
Qed.

Lemma xmin_cases (a b : xcost) : xmin a b = a \/ xmin a b = b.
Proof. unfold xmin. destruct (xltb b a); auto. Qed.

Lemma xle_infinity (a : xcost) : xle a Infinity.
Proof. by destruct a. Qed.

Lemma xle_finite (a : xcost) (q : Q) : xle a (Finite q) -> is_finite a.
Proof. destruct a; [by eexists|done]. Qed.

Lemma xadd_finite (a : xcost) (d : Q) : is_finite (xadd a d) <-> is_finite a.
Proof.
  destruct a as [p|]; simpl; split; intros [q Hq]; try done; by eexists.
Qed.

Lemma min_entry_cases (e1 e2 e3 : FastDTW.entry) :
  FastDTW.min_entry e1 e2 e3 = e1 \/ FastDTW.min_entry e1 e2 e3 = e2 \/
  FastDTW.min_entry e1 e2 e3 = e3.
Proof.
  unfold FastDTW.min_entry.
  destruct (xltb e2.1.1 e1.1.1); destruct (xltb e3.1.1 _); auto.
Qed.

Lemma min_entry_le (e1 e2 e3 : FastDTW.entry) :
  let e := FastDTW.min_entry e1 e2 e3 in
  xle e.1.1 e1.1.1 /\ xle e.1.1 e2.1.1 /\ xle e.1.1 e3.1.1.
Proof.
  unfold FastDTW.min_entry.
  destruct (xltb e2.1.1 e1.1.1) eqn:E21; destruct (xltb e3.1.1 _) eqn:E3; simpl.
  - apply xltb_true_le in E21, E3. repeat split; eauto using xle_trans, xle_refl.
  - apply xltb_true_le in E21. apply xltb_false_ge in E3.
    repeat split; eauto using xle_trans, xle_refl.
  - apply xltb_false_ge in E21. apply xltb_true_le in E3.
    repeat split; eauto using xle_trans, xle_refl.
  - apply xltb_false_ge in E21, E3. repeat split; eauto using xle_trans, xle_refl.
Qed.

Section Recurrence.

Variables a b : list Q.

(** The recurrence at integer coordinates. *)
Definition cum (c : FastDTW.cell) : xcost :=
  cumulative a b (Z.to_nat c.1) (Z.to_nat c.2).

Lemma cumulative_step (i j : nat) :
  cumulative a b (S i) (S j) =
    xadd (xmin (xmin (cumulative a b i (S j)) (cumulative a b (S i) j))
               (cumulative a b i j))
         (pointwise a b i j).
Proof. reflexivity. Qed.

Lemma cum_origin : cum (0, 0) = Finite 0.
Proof. reflexivity. Qed.

Lemma cum_top (j : Z) : 1 <= j -> cum (0, j) = Infinity.
Proof.
  intros Hj. unfold cum. simpl. destruct (Z.to_nat j) eqn:E; [lia|done].
Qed.

Lemma cum_left (i : Z) : 1 <= i -> cum (i, 0) = Infinity.
Proof.
  intros Hi. unfold cum. simpl. destruct (Z.to_nat i) eqn:E; [lia|done].
Qed.

Lemma cum_step (i j : Z) :
  1 <= i -> 1 <= j ->
  cum (i, j) =
    xadd (xmin (xmin (cum (i - 1, j)) (cum (i, j - 1))) (cum (i - 1, j - 1)))
         (pointwise a b (Z.to_nat (i - 1)) (Z.to_nat (j - 1))).
Proof.
  intros Hi Hj. unfold cum. simpl.
  replace (Z.to_nat i) with (S (Z.to_nat (i - 1))) by lia.
  replace (Z.to_nat j) with (S (Z.to_nat (j - 1))) by lia.
  by rewrite cumulative_step.
Qed.

Lemma cumulative_finite (i j : nat) : is_finite (cumulative a b (S i) (S j)).
Proof.
  revert j. induction i as [|i IHi]; intros j.
  - induction j as [|j IHj]; rewrite cumulative_step, xadd_finite.
    + destruct (xmin_cases (xmin (cumulative a b 0 1) (cumulative a b 1 0))
                  (cumulative a b 0 0)) as [E|E].
      * simpl. by eexists.
      * rewrite E. by eexists.
    + destruct IHj as [q Hq]. rewrite Hq. simpl. by eexists.
  - induction j as [|j IHj]; rewrite cumulative_step, xadd_finite.
    + destruct (IHi 0%nat) as [q Hq]. rewrite Hq.
      change (cumulative a b (S (S i)) 0) with Infinity.
      change (cumulative a b (S i) 0) with Infinity. simpl. by eexists.
    + destruct IHj as [q Hq]. destruct (IHi j) as [q' Hq'].
      destruct (IHi (S j)) as [q'' Hq'']. rewrite Hq, Hq', Hq''.
      unfold xmin. simpl. destruct (Qltb q q''); destruct (Qltb q' _); by eexists.
Qed.

Lemma cum_finite (i j : Z) : 1 <= i -> 1 <= j -> is_finite (cum (i, j)).
Proof.
  intros Hi Hj. unfold cum. simpl.
  replace (Z.to_nat i) with (S (Z.to_nat (i - 1))) by lia.
  replace (Z.to_nat j) with (S (Z.to_nat (j - 1))) by lia.
  apply cumulative_finite.
Qed.

End Recurrence.

(** ** One step of the table *)

Definition pred_of (c p : FastDTW.cell) : Prop :=
  p = (c.1 - 1, c.2) \/ p = (c.1, c.2 - 1) \/ p = (c.1 - 1, c.2 - 1).

Lemma getitem_nth (x : list Q) (k : Z) (v : Q) :
  0 <= k -> getitem x k = Some v -> nth (Z.to_nat k) x 0%Q = v /\ k < len x.
Proof.
  intros Hk. unfold getitem. destruct (Z.leb_spec 0 k) as [_|]; [|lia].
  intros Hv. split; [by apply nth_error_nth|].
  assert (nth_error x (Z.to_nat k) <> None) as Hn by congruence.
  apply nth_error_Some in Hn. unfold len. lia.
Qed.

Lemma cost_at_insert (D : FastDTW.table) (c c' : FastDTW.cell) (e : FastDTW.entry) :
  FastDTW.cost_at (<[c := e]> D) c' =
    if decide (c = c') then e.1.1 else FastDTW.cost_at D c'.
Proof.
  unfold FastDTW.cost_at in *. rewrite lookup_insert.
  case_decide; [by destruct e as [[v pi] pj]|done].
Qed.

Lemma cost_at_finite (D : FastDTW.table) (c : FastDTW.cell) :
  is_finite (FastDTW.cost_at D c) ->
  exists v pi pj, D !! c = Some (v, pi, pj) /\ is_finite v.
Proof.
  unfold FastDTW.cost_at. destruct (D !! c) as [[[v pi] pj]|]; [eauto|].
  by intros [q Hq].
Qed.

Section Table.

Variables x y : list Q.

(** The entry written at [(i, j)]. *)
Definition written (D : FastDTW.table) (i j : Z) (dt : Q) : FastDTW.entry :=
  FastDTW.min_entry
    (xadd (FastDTW.cost_at D (i - 1, j)) dt, i - 1, j)
    (xadd (FastDTW.cost_at D (i, j - 1)) dt, i, j - 1)
    (xadd (FastDTW.cost_at D (i - 1, j - 1)) dt, i - 1, j - 1).

Lemma dtw_cell_inv (D D' : FastDTW.table) (i j : Z) :
  1 <= i -> 1 <= j ->
  FastDTW.dtw_cell x y D (i, j) = Some D' ->
  i <= len x /\ j <= len y /\
  D' = <[(i, j) := written D i j (pointwise x y (Z.to_nat (i - 1)) (Z.to_nat (j - 1)))]> D.
Proof.
  intros Hi Hj. unfold FastDTW.dtw_cell.
  destruct (getitem x (i - 1)) as [xi|] eqn:Hx; [|done].
  destruct (getitem y (j - 1)) as [yj|] eqn:Hy; [|done].
  apply getitem_nth in Hx as [Hx Hlx]; [|lia].
  apply getitem_nth in Hy as [Hy Hly]; [|lia].
  intros [= <-]. split; [lia|]. split; [lia|].
  unfold written, pointwise, FastDTW.difference. by rewrite Hx, Hy.
Qed.

Lemma dtw_cell_total (D : FastDTW.table) (i j : Z) :
  1 <= i <= len x -> 1 <= j <= len y ->
  exists D', FastDTW.dtw_cell x y D (i, j) = Some D'.
Proof.
  intros Hi Hj. unfold FastDTW.dtw_cell.
  destruct (getitem_inner x (i - 1)) as [xi ->]; [lia|].
  destruct (getitem_inner y (j - 1)) as [yj ->]; [lia|]. eauto.
Qed.

Lemma written_pred (D : FastDTW.table) (i j : Z) (dt : Q) :
  exists p, pred_of (i, j) p /\
    written D i j dt = (xadd (FastDTW.cost_at D p) dt, p.1, p.2).
Proof.
  unfold written, pred_of. simpl.
  destruct (min_entry_cases
              (xadd (FastDTW.cost_at D (i - 1, j)) dt, i - 1, j)
              (xadd (FastDTW.cost_at D (i, j - 1)) dt, i, j - 1)
              (xadd (FastDTW.cost_at D (i - 1, j - 1)) dt, i - 1, j - 1))
    as [-> | [-> | ->]]; eauto 10.
Qed.

Lemma written_le (D : FastDTW.table) (i j : Z) (dt : Q) (p : FastDTW.cell) :
  pred_of (i, j) p ->
  xle (written D i j dt).1.1 (xadd (FastDTW.cost_at D p) dt).
Proof.
  unfold written. intros Hp.
  pose proof (min_entry_le
              (xadd (FastDTW.cost_at D (i - 1, j)) dt, i - 1, j)
              (xadd (FastDTW.cost_at D (i, j - 1)) dt, i, j - 1)
              (xadd (FastDTW.cost_at D (i - 1, j - 1)) dt, i - 1, j - 1)) as H.
  simpl in H. destruct H as (H1 & H2 & H3).
  destruct Hp as [-> | [-> | ->]]; done.
Qed.

(** The recurrence is below each of its three candidates and is one of them. *)
Lemma cum_le_pred (i j : Z) (p : FastDTW.cell) :
  1 <= i -> 1 <= j -> pred_of (i, j) p ->
  xle (cum x y (i, j))
      (xadd (cum x y p) (pointwise x y (Z.to_nat (i - 1)) (Z.to_nat (j - 1)))).
Proof.
  intros Hi Hj Hp. rewrite cum_step by done. apply xadd_mono.
  simpl in Hp. destruct Hp as [-> | [-> | ->]].
  - eapply xle_trans; apply xmin_le_l.
  - eapply xle_trans; [apply xmin_le_l|apply xmin_le_r].
  - apply xmin_le_r.
Qed.

Lemma cum_is_pred (i j : Z) :
  1 <= i -> 1 <= j ->
  exists p, pred_of (i, j) p /\
    cum x y (i, j) =
      xadd (cum x y p) (pointwise x y (Z.to_nat (i - 1)) (Z.to_nat (j - 1))).
Proof.
  intros Hi Hj. rewrite cum_step by done. unfold pred_of. simpl.
  destruct (xmin_cases (xmin (cum x y (i - 1, j)) (cum x y (i, j - 1)))
              (cum x y (i - 1, j - 1))) as [-> | ->]; [|eauto 10].
  destruct (xmin_cases (cum x y (i - 1, j)) (cum x y (i, j - 1))) as [-> | ->];
    eauto 10.
Qed.

(** *** Every entry is at least the recurrence *)

Definition lower (D : FastDTW.table) : Prop :=
  forall c, xle (cum x y c) (FastDTW.cost_at D c).

Lemma lower_origin : lower {[ (0, 0) := (Finite 0, 0, 0) ]}.
Proof.
  intros c. unfold FastDTW.cost_at in *.
  destruct (decide (c = (0, 0))) as [->|Hc].
  - rewrite lookup_singleton_eq. apply xle_refl.
  - rewrite lookup_singleton_ne by done. apply xle_infinity.
Qed.

Lemma dtw_cell_lower (D D' : FastDTW.table) (i j : Z) :
  1 <= i -> 1 <= j -> lower D ->
  FastDTW.dtw_cell x y D (i, j) = Some D' -> lower D'.
Proof.
  intros Hi Hj HD Hcell. apply dtw_cell_inv in Hcell as (_ & _ & ->); [|done..].
  intros c. rewrite cost_at_insert. case_decide as Hc; [subst c|apply HD].
  destruct (written_pred D i j (pointwise x y (Z.to_nat (i - 1)) (Z.to_nat (j - 1))))
    as (p & Hp & ->). simpl.
  eapply xle_trans; [by apply cum_le_pred|]. apply xadd_mono, HD.
Qed.

Lemma dtw_fill_lower (window : list FastDTW.cell) (D D' : FastDTW.table) :
  Forall (fun c => 1 <= c.1 /\ 1 <= c.2) window -> lower D ->
  FastDTW.dtw_fill x y window D = Some D' -> lower D'.
Proof.
  intros Hw. revert D.
  induction Hw as [|[i j] w [Hi Hj] Hw IH]; intros D HD; cbn [FastDTW.dtw_fill].
  - by intros [= <-].
  - destruct (FastDTW.dtw_cell x y D (i, j)) as [D1|] eqn:Hcell; [|done].
    simpl in Hi, Hj. apply IH. exact (dtw_cell_lower D D1 i j Hi Hj HD Hcell).
Qed.

End Table.

Section FullTable.

Variables x y : list Q.

Definition in_grid (c : FastDTW.cell) : Prop :=
  1 <= c.1 <= len x /\ 1 <= c.2 <= len y.

Lemma dtw_cell_lookup (D D' : FastDTW.table) (i j : Z) (c : FastDTW.cell) :
  1 <= i -> 1 <= j -> FastDTW.dtw_cell x y D (i, j) = Some D' ->
  c <> (i, j) -> D' !! c = D !! c.
Proof.
  intros Hi Hj Hcell Hc. apply dtw_cell_inv in Hcell as (_ & _ & ->); [|done..].
  by rewrite lookup_insert_ne.
Qed.

Lemma dtw_cell_cost_at (D D' : FastDTW.table) (i j : Z) (c : FastDTW.cell) :
  1 <= i -> 1 <= j -> FastDTW.dtw_cell x y D (i, j) = Some D' ->
  c <> (i, j) -> FastDTW.cost_at D' c = FastDTW.cost_at D c.
Proof.
  intros Hi Hj Hcell Hc. unfold FastDTW.cost_at.
  by rewrite (dtw_cell_lookup D D' i j c).
Qed.

Lemma dtw_fill_total (window : list FastDTW.cell) (D : FastDTW.table) :
  Forall in_grid window -> exists D', FastDTW.dtw_fill x y window D = Some D'.
Proof.
  intros Hw. revert D.
  induction Hw as [|[i j] w [Hi Hj] Hw IH]; intros D; cbn [FastDTW.dtw_fill].
  - eauto.
  - simpl in Hi, Hj. destruct (dtw_cell_total x y D i j Hi Hj) as [D1 ->]. apply IH.
Qed.

(** *** On a window that holds the predecessors of its cells before them,
        every entry is at most the recurrence *)

Lemma dtw_fill_upper (window : list FastDTW.cell) :
  forall (filled : list FastDTW.cell) (D D' : FastDTW.table),
  Forall (fun c => 1 <= c.1 /\ 1 <= c.2) window ->
  NoDup (filled ++ window) ->
  (forall c, c ∈ filled -> xle (FastDTW.cost_at D c) (cum x y c)) ->
  (forall pre c post, window = pre ++ c :: post ->
     forall p, pred_of c p ->
       p ∈ filled \/ p ∈ pre \/ cum x y p = Infinity) ->
  FastDTW.dtw_fill x y window D = Some D' ->
  forall c, c ∈ filled ++ window -> xle (FastDTW.cost_at D' c) (cum x y c).
Proof.
  induction window as [|[i j] w IH]; intros filled D D' Hw Hnd Hup Hpred;
    cbn [FastDTW.dtw_fill].
  - intros [= <-] c Hc. rewrite app_nil_r in Hc. by apply Hup.
  - apply Forall_cons in Hw as [[Hi Hj] Hw]. simpl in Hi, Hj.
    destruct (FastDTW.dtw_cell x y D (i, j)) as [D1|] eqn:Hcell; [|done].
    intros Hfill c Hc.
    rewrite cons_middle, app_assoc in Hnd, Hc.
    apply (IH (filled ++ [(i, j)]) D1 D'); [done|done| | |done|done].
    + intros c' Hc'. apply elem_of_app in Hc' as [Hc'|Hc'].
      * rewrite (dtw_cell_cost_at D D1 i j c'); [by apply Hup|done..|].
        intros ->. apply NoDup_app in Hnd as [Hnd _].
        apply NoDup_app in Hnd as (_ & Hnd & _). apply (Hnd _ Hc'). by left.
      * apply list_elem_of_singleton in Hc' as ->.
        pose proof Hcell as Hinv.
        apply dtw_cell_inv in Hinv as (_ & _ & ->); [|done..].
        rewrite cost_at_insert. case_decide; [|done].
        destruct (cum_is_pred x y i j Hi Hj) as (p & Hp & ->).
        destruct (Hpred [] (i, j) w eq_refl p Hp) as [Hin|[Hin|Hinf]].
        -- eapply xle_trans; [by apply written_le|]. by apply xadd_mono, Hup.
        -- by apply elem_of_nil in Hin.
        -- rewrite Hinf. apply xle_infinity.
    + intros pre c' post -> p Hp.
      destruct (Hpred ((i, j) :: pre) c' post eq_refl p Hp) as [Hin|[Hin|Hinf]].
      * left. apply elem_of_app. by left.
      * apply elem_of_cons in Hin as [->|Hin]; [|by right; left].
        left. apply elem_of_app. right. by left.
      * by right; right.
Qed.

(** *** Pointers *)

Definition ptr_ok (D : FastDTW.table) : Prop :=
  forall c v pi pj, D !! c = Some (v, pi, pj) ->
    c = (0, 0) \/
    (1 <= c.1 /\ 1 <= c.2 /\ pred_of c (pi, pj) /\
     (is_finite v -> is_finite (FastDTW.cost_at D (pi, pj)))).

Lemma ptr_ok_origin : ptr_ok {[ (0, 0) := (Finite 0, 0, 0) ]}.
Proof.
  intros c v pi pj H.
  apply lookup_singleton_Some in H as [<- _]. by left.
Qed.

Lemma pred_of_ne (c p : FastDTW.cell) : pred_of c p -> p <> c.
Proof.
  destruct c as [i j]. unfold pred_of. simpl.
  intros [-> | [-> | ->]] [=]; lia.
Qed.

Lemma dtw_cell_ptr (D D' : FastDTW.table) (i j : Z) :
  1 <= i -> 1 <= j -> D !! (i, j) = None -> ptr_ok D ->
  FastDTW.dtw_cell x y D (i, j) = Some D' -> ptr_ok D'.
Proof.
  intros Hi Hj Hnone HD Hcell c v pi pj Hc.
  destruct (decide (c = (i, j))) as [->|Hne].
  - right. pose proof Hcell as Hinv.
    apply dtw_cell_inv in Hinv as (_ & _ & ->); [|done..].
    rewrite lookup_insert_eq in Hc.
    destruct (written_pred D i j (pointwise x y (Z.to_nat (i - 1)) (Z.to_nat (j - 1))))
      as ([p1 p2] & Hp & Hw).
    rewrite Hw in Hc. simpl in Hc. injection Hc as <- <- <-.
    split; [done|]. split; [done|]. split; [done|].
    rewrite xadd_finite.
    rewrite (dtw_cell_cost_at D _ i j (p1, p2) Hi Hj Hcell); [done|].
    by apply (pred_of_ne (i, j)).
  - rewrite (dtw_cell_lookup D D' i j c Hi Hj Hcell Hne) in Hc.
    destruct (HD c v pi pj Hc) as [->|(H1 & H2 & Hp & Hfin)]; [by left|right].
    split; [done|]. split; [done|]. split; [done|].
    intros Hv. specialize (Hfin Hv).
    destruct (decide ((pi, pj) = (i, j))) as [Heq|Hne'].
    + rewrite Heq in Hfin. unfold FastDTW.cost_at in Hfin. rewrite Hnone in Hfin.
      by destruct Hfin.
    + by rewrite (dtw_cell_cost_at D D' i j (pi, pj) Hi Hj Hcell).
Qed.

Lemma dtw_fill_ptr (window : list FastDTW.cell) (D D' : FastDTW.table) :
  Forall (fun c => 1 <= c.1 /\ 1 <= c.2) window -> NoDup window ->
  (forall c, c ∈ window -> D !! c = None) -> ptr_ok D ->
  FastDTW.dtw_fill x y window D = Some D' -> ptr_ok D'.
Proof.
  intros Hw. revert D.
  induction Hw as [|[i j] w [Hi Hj] Hw IH]; intros D Hnd Hnone HD;
    cbn [FastDTW.dtw_fill].
  - by intros [= <-].
  - simpl in Hi, Hj. apply NoDup_cons in Hnd as [Hnotin Hnd].
    destruct (FastDTW.dtw_cell x y D (i, j)) as [D1|] eqn:Hcell; [|done].
    apply IH; [done| |].
    + intros c Hc. rewrite (dtw_cell_lookup D D1 i j c Hi Hj Hcell).
      * apply Hnone. by right.
      * intros ->. done.
    + apply (dtw_cell_ptr D D1 i j); [done..| |done|done]. apply Hnone. by left.
Qed.

(** The loop that reads the path back ends, and without [IndexError], from
    any cell of finite cost. *)
Lemma backtrack_total (D : FastDTW.table) :
  ptr_ok D ->
  forall (fuel : nat) (i j : Z) (path : list FastDTW.cell),
    is_finite (FastDTW.cost_at D (i, j)) -> 0 <= i -> 0 <= j ->
    (Z.to_nat (i + j) <= fuel)%nat ->
    exists path', FastDTW.backtrack fuel D i j path = Some path'.
Proof.
  intros HD fuel. induction fuel as [|fuel IH]; intros i j path Hfin Hi Hj Hfuel.
  - assert (i = 0 /\ j = 0) as [-> ->] by lia. simpl. eauto.
  - cbn [FastDTW.backtrack].
    destruct ((i =? j) && (j =? 0)) eqn:Hzero; [eauto|].
    apply cost_at_finite in Hfin as (v & pi & pj & Hlook & Hv).
    rewrite Hlook.
    destruct (HD _ _ _ _ Hlook) as [[= -> ->]|(H1 & H2 & Hp & Hfin)]; [done|].
    simpl in H1, H2. apply IH; [by apply Hfin|..];
      unfold pred_of in Hp; simpl in Hp;
      destruct Hp as [[= -> ->] | [[= -> ->] | [= -> ->]]]; lia.
Qed.

End FullTable.

(** ** The full window *)

Definition lexlt (c d : FastDTW.cell) : Prop :=
  c.1 < d.1 \/ (c.1 = d.1 /\ c.2 < d.2).

Definition shift (c : FastDTW.cell) : FastDTW.cell := (c.1 + 1, c.2 + 1).

Lemma seqZ_sorted (n : nat) (a : Z) : StronglySorted Z.lt (seqZ a (Z.of_nat n)).
Proof.
  revert a. induction n as [|n IH]; intros a.
  - constructor.
  - rewrite seqZ_cons by lia. constructor.
    + replace (Z.pred (Z.of_nat (S n))) with (Z.of_nat n) by lia. apply IH.
    + rewrite Forall_forall. intros k Hk. apply elem_of_seqZ in Hk. lia.
Qed.

Lemma zrange_sorted (a b : Z) : StronglySorted Z.lt (zrange a b).
Proof.
  unfold zrange. destruct (Z.le_gt_cases (b - a) 0) as [H|H].
  - rewrite seqZ_nil by done. constructor.
  - rewrite <- (Z2Nat.id (b - a)) by lia. apply seqZ_sorted.
Qed.

Lemma StronglySorted_NoDup {A : Type} (R : relation A) (l : list A) :
  (forall a, ~ R a a) -> StronglySorted R l -> NoDup l.
Proof.
  intros Hirr. induction 1 as [|a l Hl IH Ha]; constructor; [|done].
  intros Hin. rewrite Forall_forall in Ha. by apply (Hirr a), Ha.
Qed.

Lemma elem_of_full_window (n m : Z) (c : FastDTW.cell) :
  c ∈ FastDTW.full_window n m <-> 0 <= c.1 < n /\ 0 <= c.2 < m.
Proof.
  unfold FastDTW.full_window. rewrite list_elem_of_bind. split.
  - intros (i & Hc & Hi). apply list_elem_of_fmap in Hc as (j & -> & Hj).
    apply elem_of_zrange in Hi, Hj. simpl. lia.
  - intros [H1 H2]. exists c.1. split.
    + apply list_elem_of_fmap. exists c.2. split; [by destruct c|].
      apply elem_of_zrange. lia.
    + apply elem_of_zrange. lia.
Qed.

Lemma rows_sorted (m : Z) (rows : list Z) :
  StronglySorted Z.lt rows ->
  StronglySorted lexlt (rows ≫= fun i => (fun j => (i, j)) <$> zrange 0 m).
Proof.
  induction 1 as [|i rows Hrows IH Hi].
  - constructor.
  - rewrite bind_cons. apply StronglySorted_app_2; [|..|done].
    + intros c d Hc Hd. apply list_elem_of_fmap in Hc as (j & -> & _).
      apply list_elem_of_bind in Hd as (i' & Hd & Hi').
      apply list_elem_of_fmap in Hd as (j' & -> & _).
      rewrite Forall_forall in Hi. left. simpl. by apply Hi.
    + eapply StronglySorted_fmap; [|apply zrange_sorted].
      intros j j' Hj. right. simpl. lia.
Qed.

Lemma full_window_sorted (n m : Z) :
  StronglySorted lexlt (shift <$> FastDTW.full_window n m).
Proof.
  eapply StronglySorted_fmap; [|apply rows_sorted, zrange_sorted].
  intros c d. unfold lexlt, shift. simpl. lia.
Qed.

Lemma elem_of_shifted (n m : Z) (c : FastDTW.cell) :
  c ∈ shift <$> FastDTW.full_window n m <-> 1 <= c.1 <= n /\ 1 <= c.2 <= m.
Proof.
  rewrite list_elem_of_fmap. split.
  - intros (d & -> & Hd). apply elem_of_full_window in Hd. unfold shift. simpl. lia.
  - intros [H1 H2]. exists (c.1 - 1, c.2 - 1). split.
    + unfold shift. simpl. destruct c. simpl. f_equal; lia.
    + apply elem_of_full_window. simpl. lia.
Qed.

Section Exact.

Variables x y : list Q.

Lemma full_window_preds (pre post : list FastDTW.cell) (c p : FastDTW.cell) :
  shift <$> FastDTW.full_window (len x) (len y) = pre ++ c :: post ->
  pred_of c p ->
  p ∈ [(0, 0)] \/ p ∈ pre \/ cum x y p = Infinity.
Proof.
  intros Hw Hp.
  assert (c ∈ shift <$> FastDTW.full_window (len x) (len y)) as Hc.
  { rewrite Hw. apply elem_of_app. right. by left. }
  apply elem_of_shifted in Hc as [Hc1 Hc2].
  pose proof (full_window_sorted (len x) (len y)) as Hsorted.
  rewrite Hw in Hsorted. apply StronglySorted_app_1_r in Hsorted.
  apply StronglySorted_cons in Hsorted as [Hpost _].
  destruct p as [p1 p2]. destruct c as [i j]. simpl in *.
  assert ((p1 = i - 1 \/ p1 = i) /\ (p2 = j - 1 \/ p2 = j) /\ p1 + p2 < i + j)
    as (Hp1 & Hp2 & Hlt).
  { unfold pred_of in Hp. simpl in Hp.
    destruct Hp as [[= -> ->] | [[= -> ->] | [= -> ->]]]; lia. }
  destruct (decide (p1 = 0)) as [->|H1]; destruct (decide (p2 = 0)) as [->|H2].
  - left. by left.
  - right; right. apply cum_top. lia.
  - right; right. apply cum_left. lia.
  - right; left.
    assert ((p1, p2) ∈ shift <$> FastDTW.full_window (len x) (len y)) as Hin.
    { apply elem_of_shifted. simpl. lia. }
    rewrite Hw in Hin. apply elem_of_app in Hin as [Hin|Hin]; [done|].
    apply elem_of_cons in Hin as [[= -> ->]|Hin]; [lia|].
    rewrite Forall_forall in Hpost. apply Hpost in Hin.
    unfold lexlt in Hin. simpl in Hin. lia.
Qed.

(** The full table of [dtw]: its terminal cost is the recurrence, and the
    path is read back without error. *)
Lemma dtw_exact :
  x <> [] -> y <> [] ->
  exists d path, FastDTW.dtw x y = Some (d, path) /\ xeq d (dtw_spec x y).
Proof.
  intros Hx Hy.
  assert (1 <= len x) as Hn by (destruct x; [done|unfold len; simpl; lia]).
  assert (1 <= len y) as Hm by (destruct y; [done|unfold len; simpl; lia]).
  unfold FastDTW.dtw, FastDTW.dtw_window.
  change (fun c : FastDTW.cell => (c.1 + 1, c.2 + 1)) with shift.
  set (W := shift <$> FastDTW.full_window (len x) (len y)).
  assert (Forall (in_grid x y) W) as Hgrid.
  { rewrite Forall_forall. intros c Hc. by apply elem_of_shifted in Hc. }
  assert (Forall (fun c : FastDTW.cell => 1 <= c.1 /\ 1 <= c.2) W) as Hge.
  { eapply Forall_impl; [exact Hgrid|]. intros c [H1 H2]. lia. }
  assert (NoDup W) as Hnd.
  { eapply (StronglySorted_NoDup lexlt); [|apply full_window_sorted].
    intros c. unfold lexlt. lia. }
  assert ((0, 0) ∉ W) as Horigin.
  { intros Hc. apply elem_of_shifted in Hc. simpl in Hc. lia. }
  destruct (dtw_fill_total x y W {[ (0, 0) := (Finite 0, 0, 0) ]} Hgrid) as [D HD].
  rewrite HD.
  pose proof (dtw_fill_lower x y W _ D Hge (lower_origin x y) HD (len x, len y))
    as Hlower.
  assert (xle (FastDTW.cost_at D (len x, len y)) (cum x y (len x, len y))) as Hupper.
  { apply (dtw_fill_upper x y W [(0, 0)] {[ (0, 0) := (Finite 0, 0, 0) ]} D Hge);
      [| | |done|].
    - apply NoDup_cons. split; [done|]. exact Hnd.
    - intros c Hc. apply list_elem_of_singleton in Hc as ->.
      unfold FastDTW.cost_at. rewrite lookup_singleton_eq. apply xle_refl.
    - intros pre c post Hw p Hp. by eapply full_window_preds.
    - apply elem_of_app. right. apply elem_of_shifted. simpl. lia. }
  assert (ptr_ok D) as Hptr.
  { apply (dtw_fill_ptr x y W {[ (0, 0) := (Finite 0, 0, 0) ]} D Hge Hnd);
      [|apply ptr_ok_origin|done].
    intros c Hc. apply lookup_singleton_ne. by intros <-. }
  destruct (cum_finite x y (len x) (len y) Hn Hm) as [q Hq].
  destruct (backtrack_total D Hptr (Z.to_nat (len x + len y)) (len x) (len y) [])
    as [path ->]; [|lia|lia|lia|].
  { eapply xle_finite. rewrite <- Hq. exact Hupper. }
  eexists _, _. split; [done|].
  apply xle_antisym.
  - unfold dtw_spec. unfold cum in Hupper. simpl in Hupper.
    unfold len in Hupper at 3 4. by rewrite !Nat2Z.id in Hupper.
  - unfold dtw_spec. unfold cum in Hlower. simpl in Hlower.
    unfold len in Hlower at 1 2. by rewrite !Nat2Z.id in Hlower.
Qed.

(** Whatever the window, a distance that [__dtw] returns is at least the
    recurrence. *)
Lemma dtw_window_lower (window : option (list FastDTW.cell)) (d : xcost)
    (path : list FastDTW.cell) :
  (forall w, window = Some w -> Forall (fun c => 0 <= c.1 /\ 0 <= c.2) w) ->
  FastDTW.dtw_window x y window = Some (d, path) ->
  xle (dtw_spec x y) d.
Proof.
  intros Hw. unfold FastDTW.dtw_window.
  change (fun c : FastDTW.cell => (c.1 + 1, c.2 + 1)) with shift.
  set (W := shift <$> _).
  assert (Forall (fun c : FastDTW.cell => 1 <= c.1 /\ 1 <= c.2) W) as Hge.
  { subst W. rewrite Forall_fmap. destruct window as [w|].
    - eapply Forall_impl; [by apply Hw|]. intros c [H1 H2]. unfold shift. simpl. lia.
    - rewrite Forall_forall. intros c Hc. apply elem_of_full_window in Hc.
      unfold shift. simpl. lia. }
  destruct (FastDTW.dtw_fill x y W _) as [D|] eqn:HD; [|done].
  destruct (FastDTW.backtrack _ _ _ _ _) as [p|]; [|done].
  intros [= <- <-].
  pose proof (dtw_fill_lower x y W _ D Hge (lower_origin x y) HD (len x, len y))
    as Hlower.
  unfold dtw_spec. unfold cum in Hlower. simpl in Hlower.
  unfold len in Hlower at 1 2. by rewrite !Nat2Z.id in Hlower.
Qed.

End Exact.

(** ** The window of [__expand_window] has no negative index *)

Definition nonneg (c : FastDTW.cell) : Prop := 0 <= c.1 /\ 0 <= c.2.

Lemma scan_row_nonneg (window_ : gset FastDTW.cell) (i : Z) (js : list Z) :
  forall (new_start_j : option Z) (window : list FastDTW.cell),
  0 <= i -> Forall (fun j => 0 <= j) js ->
  (forall s, new_start_j = Some s -> 0 <= s) -> Forall nonneg window ->
  (forall s, (FastDTW.scan_row window_ i js new_start_j window).1 = Some s -> 0 <= s) /\
  Forall nonneg (FastDTW.scan_row window_ i js new_start_j window).2.
Proof.
  induction js as [|j js IH]; intros ns window Hi Hjs Hns Hw; simpl; [done|].
  apply Forall_cons in Hjs as [Hj Hjs].
  destruct (bool_decide _).
  - apply IH; [done|done| |].
    + destruct ns as [s|]; intros s' [= <-]; [by apply Hns|done].
    + apply Forall_app. split; [done|]. by repeat constructor.
  - destruct ns as [s|]; [done|]. by apply IH.
Qed.

Lemma scan_rows_nonneg (window_ : gset FastDTW.cell) (len_y : Z) (rows : list Z) :
  forall (start_j : option Z) (window out : list FastDTW.cell),
  Forall (fun i => 0 <= i) rows ->
  (forall s, start_j = Some s -> 0 <= s) -> Forall nonneg window ->
  FastDTW.scan_rows window_ len_y rows start_j window = Some out ->
  Forall nonneg out.
Proof.
  induction rows as [|i rows IH]; intros start_j window out Hrows Hs Hw; simpl.
  - by intros [= <-].
  - apply Forall_cons in Hrows as [Hi Hrows].
    destruct start_j as [s|]; [|done].
    destruct (FastDTW.scan_row window_ i (zrange s len_y) None window)
      as [ns window'] eqn:Hrow.
    destruct (scan_row_nonneg window_ i (zrange s len_y) None window) as [H1 H2];
      [done| |done|done|].
    { rewrite Forall_forall. intros j Hj. apply elem_of_zrange in Hj.
      specialize (Hs s eq_refl). lia. }
    rewrite Hrow in H1, H2. simpl in H1, H2. by apply IH.
Qed.

Lemma expand_window_nonneg (path : list FastDTW.cell) (len_x len_y radius : Z)
    (window : list FastDTW.cell) :
  FastDTW.expand_window path len_x len_y radius = Some window ->
  Forall nonneg window.
Proof.
  unfold FastDTW.expand_window. apply scan_rows_nonneg.
  - rewrite Forall_forall. intros i Hi. apply elem_of_zrange in Hi. lia.
  - by intros s [= <-].
  - constructor.
Qed.

Lemma fastdtw_rec_lower (fuel : nat) (x y : list Q) (radius : Z) (d : xcost)
    (path : list FastDTW.cell) :
  FastDTW.fastdtw_rec fuel x y radius = Some (d, path) -> xle (dtw_spec x y) d.
Proof.
  destruct fuel as [|fuel]; cbn [FastDTW.fastdtw_rec];
    destruct (_ || _).
  - by apply dtw_window_lower.
  - done.
  - by apply dtw_window_lower.
  - destruct (FastDTW.fastdtw_rec fuel _ _ _) as [[d' path']|]; [|done].
    destruct (FastDTW.expand_window _ _ _ _) as [w|] eqn:Hw; [|done].
    apply dtw_window_lower. intros w' [= <-]. by apply expand_window_nonneg in Hw.
Qed.

Lemma fastdtw_short (x y : list Q) :
  (length x < 3 \/ length y < 3)%nat -> FastDTW.fastdtw x y = FastDTW.dtw x y.
Proof.
  intros H. unfold FastDTW.fastdtw.
  destruct (length x) eqn:E; cbn [FastDTW.fastdtw_rec];
    destruct (_ || _) eqn:Hshort; try done.
  - apply orb_false_iff in Hshort as [H1 H2].
    apply Z.ltb_ge in H1. unfold len in H1. lia.
  - apply orb_false_iff in Hshort as [H1 H2].
    apply Z.ltb_ge in H1, H2. unfold len in H1, H2. lia.
Qed.

(** C1 (as the code has it). [calculate_dtw_distance] returns the distance of
    [fastdtw] (radius 1): the recurrence evaluated over a window of cells.
    A distance it returns is never below the dynamic-time-warping distance
    of the full recurrence, and the two are equal when one of the sequences
    has fewer than three elements, where [fastdtw] fills the whole grid. *)
Theorem fastdtw_distance_bounds (a b : list Q) :
  (forall d path,
     calculate_dtw_distance a b = Ok (d, path) -> xle (dtw_spec a b) d) /\
  (a <> [] -> b <> [] -> (length a < 3 \/ length b < 3)%nat ->
   exists d path,
     calculate_dtw_distance a b = Ok (d, path) /\ xeq d (dtw_spec a b)).
Proof.
  unfold calculate_dtw_distance. split.
  - intros d path.
    destruct (FastDTW.fastdtw a b) as [[d' path']|] eqn:Hf; [|done].
    intros [= <- <-]. by eapply fastdtw_rec_lower.
  - intros Ha Hb Hshort. rewrite (fastdtw_short a b Hshort).
    destruct (dtw_exact a b Ha Hb) as (d & path & -> & Hd). eauto.
Qed.

(** C1, counterexample. On [0,0,0,0,0,1] and [0,1,1,1,0,0] the recurrence
    gives 2 and [calculate_dtw_distance] returns 4. *)
Lemma fastdtw_not_the_recurrence :
  exists path,
    calculate_dtw_distance (qs [0; 0; 0; 0; 0; 1]) (qs [0; 1; 1; 1; 0; 0])
      = Ok (Finite 4, path) /\
    dtw_spec (qs [0; 0; 0; 0; 0; 1]) (qs [0; 1; 1; 1; 0; 0]) = Finite 2 /\
    ~ xeq (Finite 4) (Finite 2).
Proof.
  eexists. split; [vm_compute; reflexivity|]. split; [vm_compute; reflexivity|].
  simpl. intros H. discriminate H.
Qed.

(** * Further properties of the matcher *)

(** ** [fastdtw] always returns *)

(** Cells of the table that a chain of predecessors inside [S] links to the
    origin. *)
Inductive reach (S : FastDTW.cell -> Prop) : FastDTW.cell -> Prop :=
| reach_origin : reach S (0, 0)
| reach_step (c p : FastDTW.cell) : S c -> pred_of c p -> reach S p -> reach S c.

(** A path read backwards: every cell is followed by one of its
    predecessors. *)
Fixpoint linked (l : list FastDTW.cell) : Prop :=
  match l with
  | c :: (p :: _) as rest => pred_of c p /\ linked rest
  | _ => True
  end.

(** A warping path of an [n x m] grid: from [(0, 0)] to [(n - 1, m - 1)] by
    steps to the right, down or both. *)
Definition warping (n m : Z) (path : list FastDTW.cell) : Prop :=
  linked (rev path) /\ head (rev path) = Some (n - 1, m - 1) /\
  last (rev path) = Some (0, 0).

Lemma pred_of_lexlt (c p : FastDTW.cell) : pred_of c p -> lexlt p c.
Proof.
  destruct c as [i j]. unfold pred_of, lexlt. simpl.
  intros [-> | [-> | ->]]; simpl; lia.
Qed.

Lemma reach_inv (S : FastDTW.cell -> Prop) (c : FastDTW.cell) :
  reach S c -> c = (0, 0) \/ S c.
Proof. destruct 1; auto. Qed.

Section Window.

Variables x y : list Q.

Lemma dtw_fill_finite (window : list FastDTW.cell) :
  forall (filled : list FastDTW.cell) (D D' : FastDTW.table),
  Forall (fun c => 1 <= c.1 /\ 1 <= c.2) (filled ++ window) ->
  StronglySorted lexlt (filled ++ window) ->
  (forall c, c = (0, 0) \/ c ∈ filled ->
     reach (fun c => c ∈ filled ++ window) c -> is_finite (FastDTW.cost_at D c)) ->
  FastDTW.dtw_fill x y window D = Some D' ->
  forall c, reach (fun c => c ∈ filled ++ window) c ->
    is_finite (FastDTW.cost_at D' c).
Proof.
  induction window as [|[i j] w IH]; intros filled D D' Hge Hsorted Hinv;
    cbn [FastDTW.dtw_fill].
  - intros [= <-] c Hc. apply Hinv; [|done].
    apply reach_inv in Hc. by rewrite app_nil_r in Hc.
  - assert (1 <= i /\ 1 <= j) as [Hi Hj].
    { rewrite Forall_forall in Hge. apply (Hge (i, j)). set_solver. }
    destruct (FastDTW.dtw_cell x y D (i, j)) as [D1|] eqn:Hcell; [|done].
    intros Hfill c Hc.
    rewrite cons_middle, app_assoc in Hge, Hsorted, Hc.
    apply (IH (filled ++ [(i, j)]) D1 D'); [done|done| |done|done].
    clear c Hc. intros c Hc Hreach.
    rewrite <- app_assoc in Hreach, Hsorted. simpl in Hreach, Hsorted.
    assert (forall p, p ∈ filled ++ (i, j) :: w -> lexlt p (i, j) -> p ∈ filled)
      as Hbefore.
    { intros p Hp Hlt. apply elem_of_app in Hp as [Hp|Hp]; [done|].
      apply StronglySorted_app_1_r in Hsorted.
      apply StronglySorted_cons in Hsorted as [Hall _].
      apply elem_of_cons in Hp as [->|Hp].
      - unfold lexlt in Hlt. simpl in Hlt. lia.
      - rewrite Forall_forall in Hall. apply Hall in Hp.
        unfold lexlt in Hp, Hlt. simpl in Hp, Hlt. lia. }
    assert (c = (i, j) \/ (c <> (i, j) /\ (c = (0, 0) \/ c ∈ filled))) as [->|[Hne Hc']].
    { destruct Hc as [->|Hc]; [right; split; [intros [=]; lia|by left]|].
      apply elem_of_app in Hc as [Hc|Hc].
      - destruct (decide (c = (i, j))) as [->|Hne]; [by left|].
        right. split; [done|by right].
      - apply list_elem_of_singleton in Hc. by left. }
    + pose proof Hcell as Hinv'.
      apply dtw_cell_inv in Hinv' as (_ & _ & ->); [|done..].
      rewrite cost_at_insert. case_decide; [|done].
      inversion Hreach as [|c' p HS Hp Hrp]; subst; [lia|].
      assert (is_finite (FastDTW.cost_at D p)) as [q Hq].
      { apply Hinv; [|done]. destruct (reach_inv _ _ Hrp) as [->|Hin]; [by left|].
        right. apply Hbefore; [done|]. by apply pred_of_lexlt. }
      eapply xle_finite. eapply xle_trans; [by apply written_le|].
      rewrite Hq. simpl. apply Qle_refl.
    + rewrite (dtw_cell_cost_at x y D D1 i j c Hi Hj Hcell Hne). by apply Hinv.
Qed.

Lemma backtrack_linked (D : FastDTW.table) :
  ptr_ok D ->
  forall (fuel : nat) (i j : Z) (path path' : list FastDTW.cell),
    (i, j) <> (0, 0) ->
    FastDTW.backtrack fuel D i j path = Some path' ->
    exists visited,
      path' = path ++ visited /\ linked visited /\
      head visited = Some (i - 1, j - 1) /\ last visited = Some (0, 0).
Proof.
  intros HD fuel. induction fuel as [|fuel IH]; intros i j path path' Hne;
    cbn [FastDTW.backtrack].
  - destruct ((i =? j) && (j =? 0)) eqn:Hz; [|done].
    apply andb_true_iff in Hz as [H1 H2]. exfalso. apply Hne. f_equal; lia.
  - destruct ((i =? j) && (j =? 0)) eqn:Hz.
    { apply andb_true_iff in Hz as [H1 H2]. exfalso. apply Hne. f_equal; lia. }
    destruct (D !! (i, j)) as [[[v pi] pj]|] eqn:Hlook; [|done].
    destruct (HD _ _ _ _ Hlook) as [Heq|(H1 & H2 & Hp & _)]; [done|].
    simpl in H1, H2.
    destruct (decide ((pi, pj) = (0, 0))) as [[= -> ->]|Hne'].
    + assert (i = 1 /\ j = 1) as [-> ->].
      { unfold pred_of in Hp. simpl in Hp.
        destruct Hp as [[=] | [[=] | [=]]]; lia. }
      destruct fuel; cbn [FastDTW.backtrack]; simpl; intros [= <-];
        exists [(0, 0)]; done.
    + intros Hb. destruct (IH pi pj _ _ Hne' Hb) as (visited & -> & Hl & Hh & Hlast).
      exists ((i - 1, j - 1) :: visited). split; [by rewrite <- app_assoc|].
      split; [|split; [done|]].
      * destruct visited as [|c rest]; [done|]. simpl in Hh. injection Hh as ->.
        split; [|done]. unfold pred_of in *. simpl in *.
        destruct Hp as [[= -> ->] | [[= -> ->] | [= -> ->]]];
          [left|right; left|right; right]; f_equal; lia.
      * destruct visited; [done|]. by rewrite last_cons, Hlast.
Qed.

(** [__dtw] on a window that is sorted, lies in the grid and links the last
    cell to the first returns a finite distance and a warping path. *)
Lemma dtw_window_total (w : list FastDTW.cell) :
  1 <= len x -> 1 <= len y ->
  StronglySorted lexlt w ->
  Forall (fun c => 0 <= c.1 < len x /\ 0 <= c.2 < len y) w ->
  reach (fun c => c ∈ shift <$> w) (len x, len y) ->
  exists d path,
    FastDTW.dtw_window x y (Some w) = Some (d, path) /\
    is_finite d /\ warping (len x) (len y) path.
Proof.
  intros Hn Hm Hsorted Hgrid Hreach.
  unfold FastDTW.dtw_window.
  change (fun c : FastDTW.cell => (c.1 + 1, c.2 + 1)) with shift.
  set (W := shift <$> w) in *.
  assert (Forall (in_grid x y) W) as HgridW.
  { subst W. rewrite Forall_fmap. eapply Forall_impl; [exact Hgrid|].
    intros c [H1 H2]. unfold in_grid, shift. simpl. lia. }
  assert (Forall (fun c : FastDTW.cell => 1 <= c.1 /\ 1 <= c.2) W) as Hge.
  { eapply Forall_impl; [exact HgridW|]. intros c [H1 H2]. lia. }
  assert (StronglySorted lexlt W) as HsortedW.
  { subst W. eapply StronglySorted_fmap; [|exact Hsorted].
    intros c d. unfold lexlt, shift. simpl. lia. }
  assert (NoDup W) as Hnd.
  { eapply (StronglySorted_NoDup lexlt); [|exact HsortedW].
    intros c. unfold lexlt. lia. }
  destruct (dtw_fill_total x y W {[ (0, 0) := (Finite 0, 0, 0) ]} HgridW) as [D HD].
  rewrite HD.
  assert (ptr_ok D) as Hptr.
  { apply (dtw_fill_ptr x y W {[ (0, 0) := (Finite 0, 0, 0) ]} D Hge Hnd);
      [|apply ptr_ok_origin|done].
    intros c Hc. apply lookup_singleton_ne. intros <-.
    rewrite Forall_forall in Hge. apply Hge in Hc. simpl in Hc. lia. }
  assert (is_finite (FastDTW.cost_at D (len x, len y))) as Hfin.
  { apply (dtw_fill_finite W [] {[ (0, 0) := (Finite 0, 0, 0) ]} D); [done..| |done|done].
    intros c [->|Hc] _; [|by apply elem_of_nil in Hc].
    unfold FastDTW.cost_at. rewrite lookup_singleton_eq. by eexists. }
  destruct (backtrack_total D Hptr (Z.to_nat (len x + len y)) (len x) (len y) [])
    as [path Hpath]; [done|lia|lia|lia|].
  rewrite Hpath. eexists _, _. split; [done|]. split; [done|].
  assert ((len x, len y) <> (0, 0)) as Hne by (intros [=]; lia).
  destruct (backtrack_linked D Hptr _ _ _ _ _ Hne Hpath)
    as (visited & -> & Hl & Hh & Hlast).
  unfold warping. simpl. by rewrite rev_involutive.
Qed.

End Window.

(** *** The rows of a warping path *)

(** A warping path to [(A, B)] covers, in every row [r] of [0 .. A], the
    columns of an interval [lo r .. hi r]; the interval of a row starts where
    the one before ends, or one column later. *)
Record profile (A B : Z) (lo hi : Z -> Z) : Prop := {
  profile_rows : 0 <= A;
  profile_first : lo 0 = 0;
  profile_last : hi A = B;
  profile_row : forall r, 0 <= r <= A -> lo r <= hi r;
  profile_next : forall r, 0 <= r < A -> hi r <= lo (r + 1) <= hi r + 1;
}.

Lemma linked_profile (back : list FastDTW.cell) :
  forall a b,
  linked back -> head back = Some (a, b) -> last back = Some (0, 0) ->
  exists lo hi,
    profile a b lo hi /\
    (forall c, c ∈ back <-> 0 <= c.1 <= a /\ lo c.1 <= c.2 <= hi c.1).
Proof.
  induction back as [|c back IH]; intros a b Hl Hh Hlast; [done|].
  simpl in Hh. injection Hh as ->.
  destruct back as [|p rest].
  - simpl in Hlast. injection Hlast as [= -> ->].
    exists (fun _ => 0), (fun _ => 0). split; [by constructor; intros; lia|].
    intros [c1 c2]. rewrite list_elem_of_singleton. simpl. split.
    + intros [= -> ->]. lia.
    + intros H. f_equal; lia.
  - destruct Hl as [Hp Hl]. rewrite last_cons_cons in Hlast.
    destruct p as [pa pb].
    destruct (IH pa pb Hl eq_refl Hlast) as (lo & hi & Hprof & Hmem).
    destruct Hprof as [H0 Hfirst Hlst Hrow Hnext].
    unfold pred_of in Hp. simpl in Hp.
    destruct Hp as [[= -> ->] | [[= -> ->] | [= -> ->]]].
    + (* a step down: a new row that starts in the same column *)
      exists (fun r => if decide (r = a) then b else lo r),
             (fun r => if decide (r = a) then b else hi r).
      split.
      * constructor; [lia|..].
        -- case_decide; [lia|done].
        -- by rewrite decide_True.
        -- intros r Hr. repeat case_decide; try lia. apply Hrow. lia.
        -- intros r Hr. repeat case_decide; try lia.
           ++ assert (r = a - 1) as -> by lia. lia.
           ++ apply Hnext. lia.
      * intros [c1 c2]. rewrite elem_of_cons, Hmem. simpl.
        case_decide as Hc1.
        -- subst c1. split; [intros [[= ->]|?]; lia|].
           intros H. left. f_equal. lia.
        -- split; [intros [[= -> ->]|?]; lia|]. intros H. right. lia.
    + (* a step to the right: the row grows by one column *)
      exists lo, (fun r => if decide (r = a) then b else hi r).
      split.
      * constructor; [lia|done|..].
        -- by rewrite decide_True.
        -- intros r Hr. case_decide; [subst r; specialize (Hrow a); lia|by apply Hrow].
        -- intros r Hr. repeat case_decide; try lia. by apply Hnext.
      * intros [c1 c2]. rewrite elem_of_cons, Hmem. simpl.
        case_decide as Hc1.
        -- subst c1. specialize (Hrow a). split.
           ++ intros [[= ->]|?]; lia.
           ++ intros H. destruct (decide (c2 = b)) as [->|]; [by left|right; lia].
        -- split; [intros [[= -> ->]|?]; lia|]. intros H. right. lia.
    + (* a diagonal step: a new row that starts one column later *)
      exists (fun r => if decide (r = a) then b else lo r),
             (fun r => if decide (r = a) then b else hi r).
      split.
      * constructor; [lia|..].
        -- case_decide; [lia|done].
        -- by rewrite decide_True.
        -- intros r Hr. repeat case_decide; try lia. apply Hrow. lia.
        -- intros r Hr. repeat case_decide; try lia.
           ++ assert (r = a - 1) as -> by lia. lia.
           ++ apply Hnext. lia.
      * intros [c1 c2]. rewrite elem_of_cons, Hmem. simpl.
        case_decide as Hc1.
        -- subst c1. split; [intros [[= ->]|?]; lia|].
           intros H. left. f_equal. lia.
        -- split; [intros [[= -> ->]|?]; lia|]. intros H. right. lia.
Qed.

Section Profile.

Variables (A B : Z) (lo hi : Z -> Z).
Hypothesis Hprof : profile A B lo hi.

Lemma profile_lo_mono (r k : Z) : 0 <= r -> 0 <= k -> r + k <= A -> lo r <= lo (r + k).
Proof.
  destruct Hprof as [H0 Hfirst Hlst Hrow Hnext].
  intros Hr Hk. revert k Hk. apply (natlike_ind (fun k => r + k <= A -> lo r <= lo (r + k))).
  - intros _. by rewrite Z.add_0_r.
  - intros k Hk IH Hle. specialize (Hnext (r + k)). specialize (Hrow (r + k)).
    replace (r + Z.succ k) with (r + k + 1) by lia. lia.
Qed.

Lemma profile_hi_mono (r k : Z) : 0 <= r -> 0 <= k -> r + k <= A -> hi r <= hi (r + k).
Proof.
  destruct Hprof as [H0 Hfirst Hlst Hrow Hnext].
  intros Hr Hk. revert k Hk. apply (natlike_ind (fun k => r + k <= A -> hi r <= hi (r + k))).
  - intros _. by rewrite Z.add_0_r.
  - intros k Hk IH Hle. specialize (Hnext (r + k)). specialize (Hrow (r + k + 1)).
    replace (r + Z.succ k) with (r + k + 1) by lia. lia.
Qed.

Lemma profile_lo_le (r r' : Z) : 0 <= r <= r' -> r' <= A -> lo r <= lo r'.
Proof.
  intros Hr Hr'. replace r' with (r + (r' - r)) by lia. apply profile_lo_mono; lia.
Qed.

Lemma profile_hi_le (r r' : Z) : 0 <= r <= r' -> r' <= A -> hi r <= hi r'.
Proof.
  intros Hr Hr'. replace r' with (r + (r' - r)) by lia. apply profile_hi_mono; lia.
Qed.

Lemma profile_bounds (r : Z) : 0 <= r <= A -> 0 <= lo r /\ lo r <= hi r /\ hi r <= B.
Proof.
  intros Hr. destruct Hprof as [H0 Hfirst Hlst Hrow Hnext].
  pose proof (profile_lo_le 0 r ltac:(lia) ltac:(lia)).
  pose proof (profile_hi_le r A ltac:(lia) ltac:(lia)).
  specialize (Hrow r). lia.
Qed.

(** Between the rows [r1] and [r2] the intervals, each widened by one
    column on both sides, leave no gap. *)
Lemma profile_cover (r1 k b : Z) :
  0 <= r1 -> 0 <= k -> r1 + k <= A ->
  lo r1 - 1 <= b <= hi (r1 + k) + 1 ->
  exists r, r1 <= r <= r1 + k /\ lo r - 1 <= b <= hi r + 1.
Proof.
  destruct Hprof as [H0 Hfirst Hlst Hrow Hnext].
  intros Hr1 Hk. revert k Hk.
  apply (natlike_ind (fun k => r1 + k <= A -> lo r1 - 1 <= b <= hi (r1 + k) + 1 ->
           exists r, r1 <= r <= r1 + k /\ lo r - 1 <= b <= hi r + 1)).
  - intros _ Hb. exists r1. rewrite Z.add_0_r in Hb. lia.
  - intros k Hk IH Hle Hb.
    replace (r1 + Z.succ k) with (r1 + k + 1) in * by lia.
    destruct (decide (b <= hi (r1 + k) + 1)) as [Hle'|Hgt].
    + destruct IH as (r & Hr & Hbr); [lia|lia|]. exists r. lia.
    + exists (r1 + k + 1). specialize (Hnext (r1 + k)). lia.
Qed.

End Profile.

(** *** The cells of the projected window *)

Lemma half_bounds (i : Z) : 2 * (i / 2) <= i <= 2 * (i / 2) + 1.
Proof. Z.div_mod_to_equations. lia. Qed.

Lemma half_unique (i a : Z) : 2 * a <= i <= 2 * a + 1 -> i / 2 = a.
Proof. intros H. Z.div_mod_to_equations. lia. Qed.

Lemma elem_of_around (c p : FastDTW.cell) :
  c ∈ FastDTW.around 1 p <->
  -1 <= c.1 - p.1 <= 1 /\ -1 <= c.2 - p.2 <= 1.
Proof.
  unfold FastDTW.around. rewrite list_elem_of_bind. split.
  - intros (a & Hc & Ha). apply list_elem_of_bind in Hc as (b & Hc & Hb).
    apply list_elem_of_singleton in Hc as ->.
    apply elem_of_zrange in Ha, Hb. simpl. lia.
  - intros [H1 H2]. exists (c.1 - p.1). split; [|apply elem_of_zrange; lia].
    apply list_elem_of_bind. exists (c.2 - p.2). split; [|apply elem_of_zrange; lia].
    apply list_elem_of_singleton. destruct c as [c1 c2]. simpl. f_equal; lia.
Qed.

Lemma elem_of_expand_path (path : list FastDTW.cell) (c : FastDTW.cell) :
  c ∈ FastDTW.expand_path path 1 <->
  exists p, p ∈ path /\ -1 <= c.1 - p.1 <= 1 /\ -1 <= c.2 - p.2 <= 1.
Proof.
  unfold FastDTW.expand_path.
  rewrite elem_of_union, !elem_of_list_to_set, list_elem_of_bind. split.
  - intros [Hc|(p & Hc & Hp)].
    + exists c. split; [done|lia].
    + exists p. split; [done|]. by apply elem_of_around.
  - intros (p & Hp & Hc). right. exists p. split; [|done]. by apply elem_of_around.
Qed.

Lemma elem_of_refine (c p : FastDTW.cell) :
  c ∈ FastDTW.refine p <-> p = (c.1 / 2, c.2 / 2).
Proof.
  destruct p as [a b]. destruct c as [i j]. unfold FastDTW.refine. simpl.
  pose proof (half_bounds i). pose proof (half_bounds j).
  rewrite !elem_of_cons, elem_of_nil. split.
  - intros [[= -> ->]|[[= -> ->]|[[= -> ->]|[[= -> ->]|[]]]]];
      f_equal; symmetry; apply half_unique; lia.
  - intros [= -> ->].
    destruct (decide (i = 2 * (i / 2))) as [Hi|Hi];
      destruct (decide (j = 2 * (j / 2))) as [Hj|Hj].
    + left. f_equal; lia.
    + right; left. f_equal; lia.
    + right; right; left. f_equal; lia.
    + right; right; right; left. f_equal; lia.
Qed.

Lemma elem_of_refine_set (S : gset FastDTW.cell) (c : FastDTW.cell) :
  c ∈ FastDTW.refine_set S <-> (c.1 / 2, c.2 / 2) ∈ S.
Proof.
  unfold FastDTW.refine_set. rewrite elem_of_list_to_set, list_elem_of_bind. split.
  - intros (p & Hc & Hp). apply elem_of_refine in Hc as ->. by apply elem_of_elements.
  - intros H. exists (c.1 / 2, c.2 / 2). split; [by apply elem_of_refine|].
    by apply elem_of_elements.
Qed.

Section Rows.

Variables (A B : Z) (lo hi : Z -> Z) (path : list FastDTW.cell).
Hypothesis Hprof : profile A B lo hi.
Hypothesis Hpath : forall c, c ∈ path <-> 0 <= c.1 <= A /\ lo c.1 <= c.2 <= hi c.1.

(** The columns of the coarse row [a] within one cell of the path. *)
Definition near_lo (a : Z) : Z := lo (Z.max 0 (a - 1)) - 1.
Definition near_hi (a : Z) : Z := hi (Z.min A (a + 1)) + 1.

Lemma near_row (a b : Z) :
  0 <= a <= A + 1 ->
  (a, b) ∈ FastDTW.expand_path path 1 <-> near_lo a <= b <= near_hi a.
Proof.
  intros Ha. pose proof Hprof as [H0 _ _ _ _].
  rewrite elem_of_expand_path. unfold near_lo, near_hi. split.
  - intros ([pa pb] & Hp & H1 & H2). apply Hpath in Hp. simpl in *.
    pose proof (profile_lo_le A B lo hi Hprof (Z.max 0 (a - 1)) pa ltac:(lia) ltac:(lia)).
    pose proof (profile_hi_le A B lo hi Hprof pa (Z.min A (a + 1)) ltac:(lia) ltac:(lia)).
    lia.
  - intros Hb.
    destruct (profile_cover A B lo hi Hprof (Z.max 0 (a - 1))
                (Z.min A (a + 1) - Z.max 0 (a - 1)) b) as (r & Hr & Hbr);
      [lia|lia|lia| |].
    { replace (Z.max 0 (a - 1) + (Z.min A (a + 1) - Z.max 0 (a - 1)))
        with (Z.min A (a + 1)) by lia. lia. }
    pose proof (profile_bounds A B lo hi Hprof r ltac:(lia)) as (Hlo & Hrow & Hhi).
    exists (r, Z.max (lo r) (Z.min b (hi r))). split.
    + apply Hpath. simpl. lia.
    + simpl. lia.
Qed.

(** The columns of the row [i] of the window, inside a grid of [m]
    columns. *)
Definition row_lo (i : Z) : Z := Z.max 0 (2 * near_lo (i / 2)).
Definition row_hi (m i : Z) : Z := Z.min (m - 1) (2 * near_hi (i / 2) + 1).

Lemma window_row (m i j : Z) :
  0 <= i -> i / 2 <= A + 1 -> 0 <= j < m ->
  (i, j) ∈ FastDTW.refine_set (FastDTW.expand_path path 1)
    <-> row_lo i <= j <= row_hi m i.
Proof.
  intros Hi Ha Hj. rewrite elem_of_refine_set. simpl.
  pose proof (half_bounds i). pose proof (half_bounds j).
  rewrite near_row by lia. unfold row_lo, row_hi. lia.
Qed.

End Rows.

(** *** The scan of [__expand_window] *)

Lemma zrange_split (a b c : Z) : a <= b <= c -> zrange a c = zrange a b ++ zrange b c.
Proof.
  intros H. unfold zrange. replace (c - a) with ((b - a) + (c - b)) by lia.
  rewrite seqZ_app by lia. do 2 f_equal. lia.
Qed.

Lemma zrange_cons (a b : Z) : a < b -> zrange a b = a :: zrange (a + 1) b.
Proof.
  intros H. unfold zrange. rewrite seqZ_cons by lia. do 2 f_equal; lia.
Qed.

Lemma zrange_empty (a b : Z) : b <= a -> zrange a b = [].
Proof. intros H. by apply zrange_nil_iff. Qed.

Section ScanRow.

Variables (window_ : gset FastDTW.cell) (i : Z).

Lemma scan_row_skip (js rest : list Z) (window : list FastDTW.cell) :
  Forall (fun j => (i, j) ∉ window_) js ->
  FastDTW.scan_row window_ i (js ++ rest) None window
    = FastDTW.scan_row window_ i rest None window.
Proof.
  induction 1 as [|j js Hj _ IH]; [done|]. simpl.
  by rewrite bool_decide_eq_false_2.
Qed.

Lemma scan_row_take (js rest : list Z) (s : Z) (window : list FastDTW.cell) :
  Forall (fun j => (i, j) ∈ window_) js ->
  FastDTW.scan_row window_ i (js ++ rest) (Some s) window
    = FastDTW.scan_row window_ i rest (Some s)
        (window ++ ((fun j => (i, j)) <$> js)).
Proof.
  intros H. revert window. induction H as [|j js Hj _ IH]; intros window; simpl.
  - by rewrite app_nil_r.
  - rewrite bool_decide_eq_true_2 by done. rewrite IH. by rewrite <- app_assoc.
Qed.

Lemma scan_row_stop (rest : list Z) (s : Z) (window : list FastDTW.cell) :
  (forall j rest', rest = j :: rest' -> (i, j) ∉ window_) ->
  FastDTW.scan_row window_ i rest (Some s) window = (Some s, window).
Proof.
  destruct rest as [|j rest']; [done|]. intros H. simpl.
  by rewrite bool_decide_eq_false_2 by (by eapply H).
Qed.

(** On a row whose cells in the window are the columns [L .. R], a scan
    that starts at or before [L] collects exactly those. *)
Lemma scan_row_interval (m s L R : Z) (window : list FastDTW.cell) :
  0 <= s <= L -> L <= R < m ->
  (forall j, 0 <= j < m -> (i, j) ∈ window_ <-> L <= j <= R) ->
  FastDTW.scan_row window_ i (zrange s m) None window
    = (Some L, window ++ ((fun j => (i, j)) <$> zrange L (R + 1))).
Proof.
  intros Hs HR Hmem.
  rewrite (zrange_split s L m) by lia.
  rewrite scan_row_skip.
  2:{ apply Forall_forall. intros j Hj. apply elem_of_zrange in Hj.
      rewrite Hmem by lia. lia. }
  rewrite (zrange_cons L m) by lia. cbn [FastDTW.scan_row].
  rewrite bool_decide_eq_true_2 by (apply Hmem; lia).
  rewrite (zrange_split (L + 1) (R + 1) m) by lia.
  rewrite scan_row_take.
  2:{ apply Forall_forall. intros j Hj. apply elem_of_zrange in Hj.
      apply Hmem; lia. }
  rewrite scan_row_stop.
  2:{ intros j rest' Hrest.
      assert (j ∈ zrange (R + 1) m) as Hj by (rewrite Hrest; left).
      apply elem_of_zrange in Hj. rewrite Hmem by lia. lia. }
  rewrite <- app_assoc. simpl. rewrite (zrange_cons L (R + 1)) by lia. done.
Qed.

End ScanRow.

(** The rows of the window, each with its interval of columns. *)
Definition rows_of (L R : Z -> Z) (rows : list Z) : list FastDTW.cell :=
  i ← rows; (fun j => (i, j)) <$> zrange (L i) (R i + 1).

Lemma scan_rows_interval (window_ : gset FastDTW.cell) (m : Z) (L R : Z -> Z) (k : nat) :
  forall (i0 s : Z) (window : list FastDTW.cell),
  (forall i, i0 <= i < i0 + Z.of_nat k ->
     0 <= L i /\ L i <= R i < m /\ L i <= L (i + 1) /\
     forall j, 0 <= j < m -> (i, j) ∈ window_ <-> L i <= j <= R i) ->
  0 <= s <= L i0 ->
  FastDTW.scan_rows window_ m (seqZ i0 (Z.of_nat k)) (Some s) window
    = Some (window ++ rows_of L R (seqZ i0 (Z.of_nat k))).
Proof.
  induction k as [|k IH]; intros i0 s window Hrows Hs.
  - simpl. by rewrite app_nil_r.
  - rewrite seqZ_cons by lia. cbn [FastDTW.scan_rows].
    destruct (Hrows i0) as (H0 & HR & Hmono & Hmem); [lia|].
    rewrite (scan_row_interval window_ i0 m s (L i0) (R i0)) by done.
    replace (Z.pred (Z.of_nat (S k))) with (Z.of_nat k) by lia.
    rewrite IH.
    + unfold rows_of. rewrite bind_cons. by rewrite <- app_assoc.
    + intros i Hi. apply Hrows. lia.
    + replace (Z.succ i0) with (i0 + 1) by lia. lia.
Qed.

Lemma elem_of_rows_of (L R : Z -> Z) (rows : list Z) (c : FastDTW.cell) :
  c ∈ rows_of L R rows <-> c.1 ∈ rows /\ L c.1 <= c.2 <= R c.1.
Proof.
  unfold rows_of. rewrite list_elem_of_bind. split.
  - intros (i & Hc & Hi). apply list_elem_of_fmap in Hc as (j & -> & Hj).
    apply elem_of_zrange in Hj. simpl. split; [done|lia].
  - intros [H1 H2]. exists c.1. split; [|done].
    apply list_elem_of_fmap. exists c.2. split; [by destruct c|].
    apply elem_of_zrange. lia.
Qed.

Lemma rows_of_sorted (L R : Z -> Z) (rows : list Z) :
  StronglySorted Z.lt rows -> StronglySorted lexlt (rows_of L R rows).
Proof.
  unfold rows_of. induction 1 as [|i rows Hrows IH Hi].
  - constructor.
  - rewrite bind_cons. apply StronglySorted_app_2; [|..|done].
    + intros c d Hc Hd. apply list_elem_of_fmap in Hc as (j & -> & _).
      apply list_elem_of_bind in Hd as (i' & Hd & Hi').
      apply list_elem_of_fmap in Hd as (j' & -> & _).
      rewrite Forall_forall in Hi. left. simpl. by apply Hi.
    + eapply StronglySorted_fmap; [|apply zrange_sorted].
      intros j j' Hj. right. simpl. lia.
Qed.

(** The rows link the last cell to the first when the first row starts at
    column 0 and every row starts within, or just after, the row above. *)
Lemma rows_of_reach (L R : Z -> Z) (n : Z) :
  L 0 = 0 ->
  (forall i, 0 <= i < n -> L i <= R i) ->
  (forall i, 0 <= i -> i + 1 < n -> L i <= L (i + 1) <= R i + 1) ->
  forall i j, 0 <= i < n -> L i <= j <= R i ->
    reach (fun c => c ∈ shift <$> rows_of L R (zrange 0 n)) (i + 1, j + 1).
Proof.
  intros HL0 Hrow Hnext.
  assert (forall i j, 0 <= i < n -> L i <= j <= R i ->
            (i + 1, j + 1) ∈ shift <$> rows_of L R (zrange 0 n)) as Hin.
  { intros i j Hi Hj. apply list_elem_of_fmap. exists (i, j). split; [done|].
    apply elem_of_rows_of. simpl. split; [apply elem_of_zrange; lia|lia]. }
  intros i j [Hi0 Hi1]. revert j Hi1. pattern i. apply natlike_ind; [| |done].
  - (* the first row *)
    intros j Hn [Hj1 Hj2]. rewrite HL0 in Hj1. revert Hj2. pattern j.
    apply natlike_ind; [| |done].
    + intros H. apply (reach_step _ (0 + 1, 0 + 1) (0, 0)).
      * apply Hin; lia.
      * right; right. done.
      * constructor.
    + intros j' Hj' IH Hle. apply (reach_step _ _ (0 + 1, j' + 1)).
      * apply Hin; lia.
      * right; left. simpl. f_equal; lia.
      * apply IH. lia.
  - (* a row below *)
    intros r Hr IH j Hn [Hj1 Hj2].
    assert (forall k, 0 <= k -> L (Z.succ r) + k <= R (Z.succ r) ->
              reach (fun c => c ∈ shift <$> rows_of L R (zrange 0 n))
                (Z.succ r + 1, L (Z.succ r) + k + 1)) as Hk.
    { intros k Hk0. pattern k. apply natlike_ind; [| |done].
      - intros Hle. rewrite Z.add_0_r.
        specialize (Hnext r Hr ltac:(lia)). replace (r + 1) with (Z.succ r) in Hnext by lia.
        specialize (Hrow r ltac:(lia)).
        destruct (decide (L (Z.succ r) <= R r)) as [Hin'|Hout].
        + apply (reach_step _ _ (r + 1, L (Z.succ r) + 1)).
          * apply Hin; lia.
          * left. simpl. f_equal; lia.
          * apply IH; lia.
        + apply (reach_step _ _ (r + 1, (L (Z.succ r) - 1) + 1)).
          * apply Hin; lia.
          * right; right. simpl. f_equal; lia.
          * apply IH; lia.
      - intros k' Hk' IHk Hle.
        apply (reach_step _ _ (Z.succ r + 1, L (Z.succ r) + k' + 1)).
        + apply Hin; lia.
        + right; left. simpl. f_equal; lia.
        + apply IHk. lia. }
    replace j with (L (Z.succ r) + (j - L (Z.succ r))) by lia. apply Hk; lia.
Qed.

Lemma reach_mono (S S' : FastDTW.cell -> Prop) (c : FastDTW.cell) :
  (forall d, S d -> S' d) -> reach S c -> reach S' c.
Proof.
  intros HS. induction 1 as [|c p Hc Hp _ IH]; [constructor|].
  eapply reach_step; eauto.
Qed.

Lemma profile_lo_hi (A B : Z) (lo hi : Z -> Z) (r1 r2 : Z) :
  profile A B lo hi -> 0 <= r1 <= r2 -> r2 <= A -> lo r1 <= hi r2.
Proof.
  intros Hprof H1 H2.
  pose proof (profile_bounds A B lo hi Hprof r1 ltac:(lia)).
  pose proof (profile_hi_le A B lo hi Hprof r1 r2 ltac:(lia) ltac:(lia)). lia.
Qed.

(** *** The window projected from a warping path of the halved grid *)

Section Expand.

Variables (n m : Z) (lo hi : Z -> Z).
Hypothesis Hn : 3 <= n.
Hypothesis Hm : 3 <= m.
Hypothesis Hprof : profile (n / 2 - 1) (m / 2 - 1) lo hi.

Let L := row_lo lo.
Let R := row_hi (n / 2 - 1) hi m.

Lemma row_facts (i : Z) :
  0 <= i < n ->
  0 <= L i /\ L i <= R i /\ R i < m /\ L i <= L (i + 1) /\
  (i + 1 < n -> L (i + 1) <= R i + 1).
Proof.
  intros Hi. subst L R. unfold row_lo, row_hi, near_lo, near_hi.
  pose proof (half_bounds i) as Ha. pose proof (half_bounds (i + 1)) as Ha'.
  pose proof (half_bounds n) as Hn'. pose proof (half_bounds m) as Hm'.
  set (a := i / 2) in *. set (a' := (i + 1) / 2) in *.
  set (A := n / 2 - 1) in *. set (B := m / 2 - 1) in *.
  assert (0 <= a /\ a <= a' /\ a' <= a + 1 /\ a' <= A + 1) as (Ha0 & Haa & Haa' & HaA)
    by lia.
  pose proof (profile_bounds A B lo hi Hprof (Z.max 0 (a - 1)) ltac:(lia)).
  pose proof (profile_bounds A B lo hi Hprof (Z.max 0 (a' - 1)) ltac:(lia)).
  pose proof (profile_bounds A B lo hi Hprof (Z.min A (a + 1)) ltac:(lia)).
  pose proof (profile_lo_le A B lo hi Hprof (Z.max 0 (a - 1)) (Z.max 0 (a' - 1))
                ltac:(lia) ltac:(lia)).
  pose proof (profile_lo_hi A B lo hi (Z.max 0 (a - 1)) (Z.min A (a + 1)) Hprof
                ltac:(lia) ltac:(lia)).
  pose proof (profile_lo_hi A B lo hi (Z.max 0 (a' - 1)) (Z.min A (a + 1)) Hprof
                ltac:(lia) ltac:(lia)).
  lia.
Qed.

Lemma row_first : L 0 = 0.
Proof.
  subst L. unfold row_lo, near_lo. change (0 / 2) with 0.
  destruct Hprof as [_ Hfirst _ _ _].
  replace (Z.max 0 (0 - 1)) with 0 by lia. rewrite Hfirst. lia.
Qed.

Lemma row_last : R (n - 1) = m - 1.
Proof.
  subst R. unfold row_hi, near_hi.
  pose proof (half_bounds (n - 1)) as Ha. pose proof (half_bounds n) as Hn'.
  pose proof (half_bounds m) as Hm'.
  destruct Hprof as [_ _ Hlast _ _].
  replace (Z.min (n / 2 - 1) ((n - 1) / 2 + 1)) with (n / 2 - 1) by lia.
  rewrite Hlast. lia.
Qed.

Lemma expand_window_total (path : list FastDTW.cell) :
  (forall c, c ∈ path <-> 0 <= c.1 <= n / 2 - 1 /\ lo c.1 <= c.2 <= hi c.1) ->
  exists w,
    FastDTW.expand_window path n m 1 = Some w /\
    StronglySorted lexlt w /\
    Forall (fun c => 0 <= c.1 < n /\ 0 <= c.2 < m) w /\
    reach (fun c => c ∈ shift <$> w) (n, m).
Proof.
  intros Hpath. exists (rows_of L R (zrange 0 n)). split; [|split; [|split]].
  - unfold FastDTW.expand_window, zrange.
    replace (n - 0) with (Z.of_nat (Z.to_nat n)) by lia.
    rewrite (scan_rows_interval _ m L R); [done| |rewrite row_first; lia].
    intros i Hi. destruct (row_facts i) as (H0 & HLR & HR & Hmono & _); [lia|].
    split; [done|]. split; [done|]. split; [done|].
    intros j Hj.
    apply (window_row (n / 2 - 1) (m / 2 - 1) lo hi path Hprof Hpath m i j); [lia| |done].
    pose proof (half_bounds i). pose proof (half_bounds n). lia.
  - apply rows_of_sorted, zrange_sorted.
  - apply Forall_forall. intros c Hc. apply elem_of_rows_of in Hc as [Hc1 Hc2].
    apply elem_of_zrange in Hc1.
    destruct (row_facts c.1) as (H0 & HLR & HR & _); lia.
  - assert (reach (fun c => c ∈ shift <$> rows_of L R (zrange 0 n))
              (n - 1 + 1, m - 1 + 1)) as Hgoal;
      [|by replace (n - 1 + 1) with n in Hgoal by lia;
           replace (m - 1 + 1) with m in Hgoal by lia].
    apply rows_of_reach.
    + apply row_first.
    + intros i Hi. by destruct (row_facts i) as (_ & H & _).
    + intros i Hi Hi'. destruct (row_facts i) as (_ & _ & _ & H1 & H2); [lia|].
      split; [done|by apply H2].
    + lia.
    + pose proof row_last as Hlast.
      destruct (row_facts (n - 1)) as (_ & H & _); [lia|]. lia.
Qed.

End Expand.

Lemma len_reduce_by_half (x : list Q) : len (FastDTW.reduce_by_half x) = len x / 2.
Proof.
  assert (forall k (x : list Q), (length x <= k)%nat ->
            len (FastDTW.reduce_by_half x) = len x / 2) as H.
  { induction k as [|k IH]; intros [|a [|b rest]] Hk; try done; simpl in Hk; [lia|].
    cbn [FastDTW.reduce_by_half]. unfold len in *. cbn [length].
    specialize (IH rest ltac:(lia)).
    rewrite !Nat2Z.inj_succ, IH.
    symmetry. apply half_unique. pose proof (half_bounds (Z.of_nat (length rest))). lia. }
  by apply (H (length x)).
Qed.

(** *** The recursion *)

Lemma fastdtw_rec_total (fuel : nat) :
  forall x y : list Q,
  1 <= len x -> 1 <= len y -> (length x <= fuel)%nat ->
  exists d path,
    FastDTW.fastdtw_rec fuel x y 1 = Some (d, path) /\
    is_finite d /\ warping (len x) (len y) path.
Proof.
  assert (forall x y : list Q, 1 <= len x -> 1 <= len y ->
            exists d path, FastDTW.dtw x y = Some (d, path) /\
              is_finite d /\ warping (len x) (len y) path) as Hfull.
  { intros x y Hx Hy.
    change (FastDTW.dtw x y)
      with (FastDTW.dtw_window x y (Some (FastDTW.full_window (len x) (len y)))).
    apply dtw_window_total; [done|done|..].
    - apply rows_sorted, zrange_sorted.
    - apply Forall_forall. intros c Hc. by apply elem_of_full_window in Hc.
    - eapply (reach_mono (fun c => c ∈ shift <$>
                rows_of (fun _ => 0) (fun _ => len y - 1) (zrange 0 (len x)))).
      + intros d Hd. apply list_elem_of_fmap in Hd as (c & -> & Hc).
        apply list_elem_of_fmap. exists c. split; [done|].
        apply elem_of_rows_of in Hc as [Hc1 Hc2]. apply elem_of_zrange in Hc1.
        apply elem_of_full_window. lia.
      + assert (reach (fun c => c ∈ shift <$>
                  rows_of (fun _ => 0) (fun _ => len y - 1) (zrange 0 (len x)))
                  (len x - 1 + 1, len y - 1 + 1)) as Hgoal;
          [|by replace (len x - 1 + 1) with (len x) in Hgoal by lia;
               replace (len y - 1 + 1) with (len y) in Hgoal by lia].
        apply rows_of_reach; lia. }
  induction fuel as [|fuel IH]; intros x y Hx Hy Hfuel; cbn [FastDTW.fastdtw_rec].
  - destruct ((len x <? 1 + 2) || (len y <? 1 + 2)); [by apply Hfull|].
    unfold len in Hx. lia.
  - destruct ((len x <? 1 + 2) || (len y <? 1 + 2)) eqn:Hsmall; [by apply Hfull|].
    apply orb_false_iff in Hsmall as [H1 H2].
    apply Z.ltb_ge in H1, H2.
    pose proof (len_reduce_by_half x) as Hlx.
    pose proof (len_reduce_by_half y) as Hly.
    pose proof (half_bounds (len x)). pose proof (half_bounds (len y)).
    destruct (IH (FastDTW.reduce_by_half x) (FastDTW.reduce_by_half y))
      as (d' & path & -> & _ & Hwarp); [lia|lia| |].
    { unfold len in *. lia. }
    destruct Hwarp as (Hl & Hh & Hlast). rewrite Hlx, Hly in Hh.
    destruct (linked_profile (rev path) _ _ Hl Hh Hlast) as (lo & hi & Hprof & Hmem).
    destruct (expand_window_total (len x) (len y) lo hi ltac:(lia) ltac:(lia) Hprof path)
      as (w & -> & Hsorted & Hgrid & Hreach).
    { intros c. rewrite <- Hmem, !list_elem_of_In. apply in_rev. }
    apply dtw_window_total; [lia|lia|done|done|done].
Qed.

Lemma fastdtw_total (x y : list Q) :
  x <> [] -> y <> [] ->
  exists d path,
    FastDTW.fastdtw x y = Some (d, path) /\
    is_finite d /\ warping (len x) (len y) path.
Proof.
  intros Hx Hy. apply fastdtw_rec_total; [| |done].
  - destruct x; [done|]. unfold len. simpl. lia.
  - destruct y; [done|]. unfold len. simpl. lia.
Qed.

(** ** Where the matches lie, and what is printed for them *)

Section MatchFacts.

Variable sqrt_pos : Q -> Q.

(** Every returned match is the candidate of an end index of the scan. *)
Lemma find_match_candidate (data : list row) (a_hours : npfloat) (top_n gap : Z)
    (matches : list similarity) (rp : list Q) (rs re : Z) (m : similarity) :
  find_similar_patterns sqrt_pos data a_hours top_n gap = Ok (matches, rp, rs, re) ->
  m ∈ matches ->
  exists i, len rp - 1 <= i < rs - gap /\
    candidate sqrt_pos data rp (len rp) i = Ok m.
Proof.
  intros Hfind Hm.
  destruct (find_ok_inv _ _ _ _ _ _ _ _ _ Hfind) as (Hrec & _).
  destruct (find_matches _ _ _ _ _ _ _ _ _ Hfind) as (sims & Hscan & _ & Hsub & _).
  destruct (scan_history_ok _ _ _ _ _ Hscan) as (rp' & rs' & re' & Hrec' & _ & Hall).
  rewrite Hrec in Hrec'. injection Hrec' as <- <- <-.
  assert (Hin : m ∈ sims).
  { apply elem_of_sort_by_distance. eapply elem_of_sublist; eauto. }
  apply list_elem_of_lookup in Hin as [k Hk].
  destruct (Forall2_lookup_r _ _ _ _ _ Hall Hk) as (i & Hi & Hc).
  exists i. split; [|exact Hc].
  apply elem_of_zrange. by eapply list_elem_of_lookup_2.
Qed.

(** X2. Every match returned by [find_similar_patterns] is a window of the
    length of the reference pattern that starts at a row of the history and
    ends before row [recent_start - min_gap_days]; its pattern has the
    length of the reference pattern and its two dates are those of its first
    and last rows. *)
Lemma matches_before_reference (data : list row) (a_hours : npfloat) (top_n min_gap_days : Z)
    (matches : list similarity) (rp : list Q) (rs re : Z) (m : similarity) :
  find_similar_patterns sqrt_pos data a_hours top_n min_gap_days
    = Ok (matches, rp, rs, re) ->
  m ∈ matches ->
  0 <= start_idx m /\
  end_idx m = start_idx m + len rp - 1 /\
  end_idx m < rs - min_gap_days /\
  len (pattern m) = len rp /\
  iloc (date <$> data) (start_idx m) = Ok (start_date m) /\
  iloc (date <$> data) (end_idx m) = Ok (end_date m).
Proof.
  intros Hfind Hm.
  destruct (find_match_candidate _ _ _ _ _ _ _ _ _ Hfind Hm) as (i & Hi & Hc).
  destruct (candidate_ok _ _ _ _ _ _ Hc)
    as (Hs & He & _ & _ & Hcorr & _ & Hd1 & Hd2).
  apply corrcoef_ok_len in Hcorr.
  rewrite Hs, He. repeat split; try lia; try done.
Qed.

(** The return over [days] days as a rational, for a non-zero base price. *)
Definition return_pct (base later : Q) : Q := ((later / base - 1) * 100)%Q.

(** What [print_results] shows after one pattern that ends at [e]: both
    returns, computed from the closing prices at [e], [e + 5] and [e + 20]. *)
Definition both_returns (data : list row) (e : Z)
    (out : option npfloat * option npfloat) : Prop :=
  exists base later5 later20 r5 r20,
    out = (Some r5, Some r20) /\
    getitem (close <$> data) e = Some base /\
    getitem (close <$> data) (e + 5) = Some later5 /\
    getitem (close <$> data) (e + 20) = Some later20 /\
    (~ (base == 0)%Q ->
     is_val (return_pct base later5) r5 /\ is_val (return_pct base later20) r20).

Lemma future_return_inner (data : list row) (e days : Z) :
  0 <= e -> 0 <= days -> e + days < len data ->
  exists base later r,
    getitem (close <$> data) e = Some base /\
    getitem (close <$> data) (e + days) = Some later /\
    future_return data e days = Ok (Some r) /\
    (~ (base == 0)%Q -> is_val (return_pct base later) r).
Proof.
  intros He Hd Hlt. unfold future_return.
  assert (Hlen : len (close <$> data) = len data).
  { unfold len. by rewrite length_fmap. }
  destruct (getitem_inner (close <$> data) e) as [base Hb]; [lia|].
  destruct (getitem_inner (close <$> data) (e + days)) as [later Hl]; [lia|].
  exists base, later.
  destruct (Z.ltb_spec (e + days) (len data)); [|lia].
  unfold iloc. rewrite Hl, Hb. cbn.
  eexists. split; [done|]. split; [done|]. split; [reflexivity|].
  intros Hnz. unfold fdiv.
  destruct (Qeq_bool base 0) eqn:E; [by apply Qeq_bool_iff in E|].
  unfold fsub, fadd, fmul, is_val. cbn. eexists. split; [reflexivity|].
  unfold return_pct. rewrite Qred_correct.
  apply Qmult_comp; [|reflexivity]. rewrite Qred_correct.
  apply Qplus_comp; [|reflexivity]. apply Qred_correct.
Qed.

Lemma print_results_in_range (data : list row) (matches : list similarity) :
  Forall (fun m => 0 <= end_idx m /\ end_idx m + 20 < len data) matches ->
  exists printed,
    print_results data matches = Ok printed /\
    Forall2 (fun m out => both_returns data (end_idx m) out) matches printed.
Proof.
  induction 1 as [|m rest [H0 H20] _ IH].
  - exists []. split; [done|constructor].
  - destruct IH as (printed & Hp & HF).
    destruct (future_return_inner data (end_idx m) 5)
      as (base & l5 & r5 & Hb & Hl5 & H5 & Hv5); [lia..|].
    destruct (future_return_inner data (end_idx m) 20)
      as (base' & l20 & r20 & Hb' & Hl20 & H20' & Hv20); [lia..|].
    rewrite Hb in Hb'. injection Hb' as <-.
    exists ((Some r5, Some r20) :: printed). split.
    + cbn [print_results]. rewrite H5, H20', Hp. done.
    + constructor; [|done]. exists base, l5, l20, r5, r20.
      do 4 (split; [done|]). intros Hnz. split; auto.
Qed.

(** With a gap that is not negative, 20 rows at least follow every match. *)
Lemma matches_in_range (data : list row) (a_hours : npfloat) (top_n min_gap_days : Z)
    (matches : list similarity) (rp : list Q) (rs re : Z) :
  find_similar_patterns sqrt_pos data a_hours top_n min_gap_days
    = Ok (matches, rp, rs, re) ->
  0 <= min_gap_days ->
  Forall (fun m => 0 <= end_idx m /\ end_idx m + 20 < len data) matches.
Proof.
  intros Hfind Hgap.
  destruct (find_ok_inv _ _ _ _ _ _ _ _ _ Hfind) as (Hrec & _).
  destruct (get_recent_pattern_ok _ _ _ _ _ Hrec) as (_ & _ & Hrs & HL & _).
  apply Forall_forall. intros m Hm.
  destruct (find_match_candidate _ _ _ _ _ _ _ _ _ Hfind Hm) as (i & Hi & Hc).
  destruct (candidate_ok _ _ _ _ _ _ Hc) as (_ & He & _). lia.
Qed.

(** X8. After a search with a gap that is not negative, [print_results]
    raises nothing and shows for every match both the 5-day and the 20-day
    return: the two guards of lines 275 and 280 always hold, the rows read
    exist, and for a base price other than zero the values are
    [(later / base - 1) * 100]. *)
Lemma print_results_complete (data : list row) (a_hours : npfloat) (top_n min_gap_days : Z)
    (matches : list similarity) (rp : list Q) (rs re : Z) :
  find_similar_patterns sqrt_pos data a_hours top_n min_gap_days
    = Ok (matches, rp, rs, re) ->
  0 <= min_gap_days ->
  exists printed,
    print_results data matches = Ok printed /\
    Forall2 (fun m out => both_returns data (end_idx m) out) matches printed.
Proof.
  intros Hfind Hgap. apply print_results_in_range. by eapply matches_in_range.
Qed.

End MatchFacts.

(** ** Selection is greedy: a candidate is left out only for a reason *)

Lemma overlaps_true (gap : Z) (sim : similarity) (accepted : list similarity) :
  overlaps gap sim (range_of <$> accepted) = true ->
  exists v, v ∈ accepted /\ ~ separated gap sim v.
Proof.
  unfold overlaps. induction accepted as [|v rest IH]; simpl; [done|].
  rewrite orb_true_iff. intros [Hv|Hrest].
  - exists v. split; [left|]. unfold separated.
    rewrite negb_true_iff, orb_false_iff, Z.ltb_ge, Z.gtb_ltb, Z.ltb_ge in Hv. lia.
  - destruct (IH Hrest) as (u & Hu & Hsep). exists u. split; [by right|done].
Qed.

Lemma select_patterns_accepted (top_n gap : Z) (similarities accepted : list similarity)
    (v : similarity) :
  v ∈ accepted ->
  v ∈ select_patterns top_n gap similarities accepted (range_of <$> accepted).
Proof.
  intros Hv. destruct (select_patterns_spec top_n gap similarities accepted)
    as (picked & -> & _). set_solver.
Qed.

Lemma select_patterns_maximal (top_n gap : Z) (similarities accepted : list similarity) :
  len (select_patterns top_n gap similarities accepted (range_of <$> accepted)) < top_n ->
  forall s, s ∈ similarities ->
    exists m,
      m ∈ select_patterns top_n gap similarities accepted (range_of <$> accepted) /\
      (m = s \/ ~ separated gap s m).
Proof.
  revert accepted. induction similarities as [|sim rest IH]; intros accepted Hlen s Hs.
  { by apply elem_of_nil in Hs. }
  cbn [select_patterns] in *.
  destruct (overlaps gap sim (range_of <$> accepted)) eqn:Hov.
  - apply elem_of_cons in Hs as [->|Hs]; [|by apply IH].
    destruct (overlaps_true _ _ _ Hov) as (v & Hv & Hsep).
    exists v. split; [by apply select_patterns_accepted|by right].
  - cbv zeta in *.
    replace ((range_of <$> accepted) ++ [(start_idx sim, end_idx sim)])
      with (range_of <$> (accepted ++ [sim])) in * by (by rewrite fmap_app).
    destruct (Z.geb_spec (len (accepted ++ [sim])) top_n) as [Hge|Hlt]; [lia|].
    apply elem_of_cons in Hs as [->|Hs]; [|by apply IH].
    exists sim. split; [|by left].
    apply select_patterns_accepted. set_solver.
Qed.

Section Greedy.

Variable sqrt_pos : Q -> Q.

Lemma scan_history_candidates (data : list row) (a_hours : npfloat) (gap : Z)
    (sims : list similarity) (rp : list Q) (rs re : Z) (i : Z) :
  get_recent_pattern data a_hours = Ok (rp, rs, re) ->
  scan_history sqrt_pos data a_hours gap = Ok sims ->
  len rp - 1 <= i < rs - gap ->
  exists s, s ∈ sims /\ candidate sqrt_pos data rp (len rp) i = Ok s.
Proof.
  intros Hrec Hscan Hi.
  destruct (scan_history_ok _ _ _ _ _ Hscan) as (rp' & rs' & re' & Hrec' & _ & Hall).
  rewrite Hrec in Hrec'. injection Hrec' as <- <- <-.
  apply elem_of_zrange in Hi. apply list_elem_of_lookup in Hi as [k Hk].
  destruct (Forall2_lookup_l _ _ _ _ _ Hall Hk) as (s & Hs & Hc).
  exists s. split; [by eapply list_elem_of_lookup_2|done].
Qed.

(** X4. The selection is greedy to the end: when fewer than [top_n] matches
    are returned, every window of the scan is either one of the matches or
    within [min_gap_days] of one of them. *)
Lemma matches_maximal (data : list row) (a_hours : npfloat) (top_n min_gap_days : Z)
    (matches : list similarity) (rp : list Q) (rs re : Z) (i : Z) :
  find_similar_patterns sqrt_pos data a_hours top_n min_gap_days
    = Ok (matches, rp, rs, re) ->
  len matches < top_n ->
  len rp - 1 <= i < rs - min_gap_days ->
  exists s m,
    candidate sqrt_pos data rp (len rp) i = Ok s /\ m ∈ matches /\
    (m = s \/
     (start_idx m - min_gap_days <= end_idx s /\
      start_idx s <= end_idx m + min_gap_days)).
Proof.
  intros Hfind Hlen Hi.
  destruct (find_ok_inv _ _ _ _ _ _ _ _ _ Hfind) as (Hrec & sims & Hscan & ->).
  destruct (scan_history_candidates _ _ _ _ _ _ _ _ Hrec Hscan Hi) as (s & Hs & Hc).
  apply elem_of_sort_by_distance in Hs.
  destruct (select_patterns_maximal top_n min_gap_days (sort_by_distance sims) []
              Hlen s Hs) as (m & Hm & Hor).
  exists s, m. split; [done|]. split; [done|].
  destruct Hor as [->|Hsep]; [by left|right]. unfold separated in Hsep. lia.
Qed.

(** X3. A search that succeeds returns at least one match, whatever [top_n]
    is: the branch [n_patterns == 0] of [visualize_results] is never taken
    after it. *)
Lemma matches_nonempty (data : list row) (a_hours : npfloat) (top_n min_gap_days : Z)
    (matches : list similarity) (rp : list Q) (rs re : Z) :
  find_similar_patterns sqrt_pos data a_hours top_n min_gap_days
    = Ok (matches, rp, rs, re) ->
  exists first others, matches = first :: others.
Proof.
  intros Hfind.
  destruct (find_ok_inv _ _ _ _ _ _ _ _ _ Hfind) as (Hrec & sims & Hscan & ->).
  destruct (scan_history_ok _ _ _ _ _ Hscan) as (rp' & rs' & re' & Hrec' & Hle & _).
  rewrite Hrec in Hrec'. injection Hrec' as <- <- <-.
  destruct (scan_history_candidates _ _ _ _ _ _ _ (len rp - 1) Hrec Hscan)
    as (s & Hs & _); [lia|].
  apply elem_of_sort_by_distance in Hs.
  destruct (sort_by_distance sims) as [|first rest]; [by apply elem_of_nil in Hs|].
  destruct (select_patterns_head top_n min_gap_days first rest) as (picked & ->).
  by exists first, picked.
Qed.

End Greedy.

(** ** The ranking reads the distance and the window only *)

(** Two candidates that differ at most in [correlation] and [score]. *)
Definition same_window (s t : similarity) : Prop :=
  start_idx s = start_idx t /\ end_idx s = end_idx t /\
  start_date s = start_date t /\ end_date s = end_date t /\
  dtw_distance s = dtw_distance t /\ pattern s = pattern t.

Lemma insert_by_distance_same (s t : similarity) (l l' : list similarity) :
  same_window s t -> Forall2 same_window l l' ->
  Forall2 same_window (insert_by_distance s l) (insert_by_distance t l').
Proof.
  intros Hst Hl. induction Hl as [|u v l l' Huv Hl IH]; simpl.
  - by constructor.
  - assert (dtw_distance s = dtw_distance t) as -> by apply Hst.
    assert (dtw_distance u = dtw_distance v) as -> by apply Huv.
    destruct (xltb _ _); repeat (constructor; try done).
Qed.

Lemma sort_by_distance_same (l l' : list similarity) :
  Forall2 same_window l l' ->
  Forall2 same_window (sort_by_distance l) (sort_by_distance l').
Proof.
  unfold sort_by_distance. intros Hl.
  assert (Forall2 same_window [] []) as Hacc by constructor.
  revert Hacc. generalize (@nil similarity) at 1 3. generalize (@nil similarity).
  induction Hl as [|s t l l' Hst Hl IH]; intros acc' acc Hacc; simpl; [done|].
  apply IH. by apply insert_by_distance_same.
Qed.

Lemma select_patterns_same (top_n gap : Z) (l l' acc acc' : list similarity)
    (used : list (Z * Z)) :
  Forall2 same_window l l' -> Forall2 same_window acc acc' ->
  Forall2 same_window (select_patterns top_n gap l acc used)
                      (select_patterns top_n gap l' acc' used).
Proof.
  intros Hl. revert acc acc' used.
  induction Hl as [|s t l l' Hst Hl IH]; intros acc acc' used Hacc; simpl; [done|].
  assert (overlaps gap s used = overlaps gap t used) as ->.
  { unfold overlaps. destruct Hst as (-> & -> & _). done. }
  destruct (overlaps gap t used); [by apply IH|].
  assert (Forall2 same_window (acc ++ [s]) (acc' ++ [t])) as Hacc'.
  { apply Forall2_app; [done|by constructor]. }
  assert (len (acc ++ [s]) = len (acc' ++ [t])) as ->.
  { unfold len. by rewrite (Forall2_length _ _ _ Hacc'). }
  destruct Hst as (-> & -> & _).
  destruct (_ >=? _); [done|by apply IH].
Qed.

Lemma candidate_same (sqrt1 sqrt2 : Q -> Q) (data : list row) (rp : list Q) (L i : Z)
    (s : similarity) :
  candidate sqrt1 data rp L i = Ok s ->
  exists t, candidate sqrt2 data rp L i = Ok t /\ same_window s t.
Proof.
  unfold candidate.
  destruct (calculate_dtw_distance _ _) as [[d path]|e] eqn:Hd; [|done].
  destruct (Numpy.corrcoef sqrt1 _ _) as [c|e] eqn:Hc; [|done].
  apply corrcoef_ok_len in Hc.
  destruct (corrcoef_ok sqrt2 _ _ Hc) as [c' ->].
  destruct (iloc _ (i - L + 1)) as [sd|e] eqn:Hsd; [|done].
  destruct (iloc _ (i + 1 - 1)) as [ed|e] eqn:Hed; [|done].
  simpl. intros [= <-]. eexists. split; [reflexivity|]. by repeat split.
Qed.

Lemma scan_same (sqrt1 sqrt2 : Q -> Q) (data : list row) (rp : list Q) (L : Z)
    (indices : list Z) (acc acc' sims : list similarity) :
  Forall2 same_window acc acc' ->
  scan sqrt1 data rp L indices acc = Ok sims ->
  exists sims', scan sqrt2 data rp L indices acc' = Ok sims' /\
                Forall2 same_window sims sims'.
Proof.
  revert acc acc'. induction indices as [|i rest IH]; intros acc acc' Hacc; simpl.
  - intros [= <-]. by exists acc'.
  - destruct (candidate sqrt1 data rp L i) as [s|e] eqn:Hs; [|done]. simpl.
    destruct (candidate_same sqrt1 sqrt2 _ _ _ _ _ Hs) as (t & -> & Hst). simpl.
    apply IH. apply Forall2_app; [done|by constructor].
Qed.

(** X5. Which windows are returned, and in which order, does not depend on
    the correlations or the scores: with another square root (the only
    parameter of the correlation) the search returns the same windows, dates,
    distances and patterns. *)
Lemma matches_ignore_correlation (sqrt1 sqrt2 : Q -> Q) (data : list row)
    (a_hours : npfloat) (top_n min_gap_days : Z) (matches : list similarity)
    (rp : list Q) (rs re : Z) :
  find_similar_patterns sqrt1 data a_hours top_n min_gap_days
    = Ok (matches, rp, rs, re) ->
  exists matches',
    find_similar_patterns sqrt2 data a_hours top_n min_gap_days
      = Ok (matches', rp, rs, re) /\
    Forall2 same_window matches matches'.
Proof.
  intros Hfind.
  destruct (find_ok_inv _ _ _ _ _ _ _ _ _ Hfind) as (Hrec & sims & Hscan & ->).
  rewrite find_unfold, Hrec.
  rewrite (scan_history_unfold _ _ _ _ _ _ _ Hrec) in Hscan.
  rewrite (scan_history_unfold _ _ _ _ _ _ _ Hrec).
  destruct (rs - min_gap_days <? len rp); [done|].
  destruct (scan_same sqrt1 sqrt2 _ _ _ _ [] [] _ ltac:(constructor) Hscan)
    as (sims' & -> & Hsims).
  eexists. split; [reflexivity|].
  apply select_patterns_same; [|constructor]. by apply sort_by_distance_same.
Qed.

(** ** Normalising twice *)

Lemma Forall2_In_l {A B : Type} (R : A -> B -> Prop) (l : list A) (k : list B) (x : A) :
  Forall2 R l k -> In x l -> exists y, In y k /\ R x y.
Proof.
  induction 1 as [|u v l k Huv _ IH]; intros Hin; [done|].
  destruct Hin as [<-|Hin].
  - exists v. split; [by left|done].
  - destruct (IH Hin) as (y & Hy & HR). exists y. split; [by right|done].
Qed.

Lemma Forall2_In_r {A B : Type} (R : A -> B -> Prop) (l : list A) (k : list B) (y : B) :
  Forall2 R l k -> In y k -> exists x, In x l /\ R x y.
Proof.
  induction 1 as [|u v l k Huv _ IH]; intros Hin; [done|].
  destruct Hin as [<-|Hin].
  - exists u. split; [by left|done].
  - destruct (IH Hin) as (x & Hx & HR). exists x. split; [by right|done].
Qed.

Lemma normalize_series_affine (a b : Q) (series series' out : list Q) :
  (0 < a)%Q ->
  Forall2 (fun v w => (w == a * v + b)%Q) series series' ->
  normalize_series series = Ok out ->
  exists out', normalize_series series' = Ok out' /\ Forall2 Qeq out out'.
Proof.
  intros Ha Hrel Hout.
  assert (series <> []) as Hne by (by intros ->).
  assert (series' <> []) as Hne'.
  { intros ->. apply Forall2_nil_inv_r in Hrel. done. }
  destruct (np_min_spec _ Hne) as (mn & Hmn & Hmn_in & Hmn_le).
  destruct (np_max_spec _ Hne) as (mx & Hmx & Hmx_in & Hmx_ge).
  destruct (np_min_spec _ Hne') as (mn' & Hmn' & Hmn_in' & Hmn_le').
  destruct (np_max_spec _ Hne') as (mx' & Hmx' & Hmx_in' & Hmx_ge').
  assert (mn' == a * mn + b)%Q as Emn.
  { apply Qle_antisym.
    - destruct (Forall2_In_l _ _ _ _ Hrel Hmn_in) as (w & Hw & Ew).
      rewrite <- Ew. by apply Hmn_le'.
    - destruct (Forall2_In_r _ _ _ _ Hrel Hmn_in') as (u & Hu & Eu).
      rewrite Eu. specialize (Hmn_le u Hu). nra. }
  assert (mx' == a * mx + b)%Q as Emx.
  { apply Qle_antisym.
    - destruct (Forall2_In_r _ _ _ _ Hrel Hmx_in') as (u & Hu & Eu).
      rewrite Eu. specialize (Hmx_ge u Hu). nra.
    - destruct (Forall2_In_l _ _ _ _ Hrel Hmx_in) as (w & Hw & Ew).
      rewrite <- Ew. by apply Hmx_ge'. }
  rewrite (normalize_series_unfold _ _ _ Hmn Hmx) in Hout. injection Hout as <-.
  rewrite (normalize_series_unfold _ _ _ Hmn' Hmx').
  eexists. split; [reflexivity|].
  destruct (Qeq_bool mx mn) eqn:E; destruct (Qeq_bool mx' mn') eqn:E'.
  - apply Forall2_fmap. eapply Forall2_impl; [exact Hrel|]. by intros.
  - apply Qeq_bool_iff in E. apply Qeq_bool_neq in E'.
    exfalso. apply E'. rewrite Emx, Emn, E. reflexivity.
  - apply Qeq_bool_neq in E. apply Qeq_bool_iff in E'.
    exfalso. apply E. rewrite Emx, Emn in E'.
    assert (a * (mx - mn) == 0)%Q as Hz by lra.
    apply Qmult_integral in Hz as [Hz|Hz]; lra.
  - apply Qeq_bool_neq in E. apply Forall2_fmap.
    eapply Forall2_impl; [exact Hrel|]. intros v w Ew. cbn.
    unfold rescale. rewrite Ew, Emx, Emn. field.
    split; intros Hz; apply E; try lra.
    all: assert (a * (mx - mn) == 0)%Q as Hz' by lra.
    all: apply Qmult_integral in Hz' as [Hz'|Hz']; lra.
Qed.

(** X12. Normalising a normalised series changes nothing. *)
Lemma normalize_series_idempotent (series out : list Q) :
  normalize_series series = Ok out ->
  exists out', normalize_series out = Ok out' /\ Forall2 Qeq out out'.
Proof.
  intros Hout.
  assert (series <> []) as Hne by (by intros ->).
  destruct (np_min_spec _ Hne) as (mn & Hmn & Hmn_in & Hmn_le).
  destruct (np_max_spec _ Hne) as (mx & Hmx & Hmx_in & Hmx_ge).
  pose proof Hout as Hout'.
  rewrite (normalize_series_unfold _ _ _ Hmn Hmx) in Hout'. injection Hout' as Hout'.
  destruct (Qeq_bool mx mn) eqn:E.
  - (* a constant series is sent to zeros, and zeros to zeros *)
    destruct (normalize_series_affine 1 0 out out out) as (out' & H1 & H2);
      [lra| |  |by exists out'].
    + apply Forall_Forall2_diag, Forall_forall. intros. lra.
    + assert (out <> []) as Hne'.
      { rewrite <- Hout'. by destruct series. }
      destruct (np_min_spec _ Hne') as (lo & Hlo & Hlo_in & _).
      destruct (np_max_spec _ Hne') as (hi & Hhi & Hhi_in & _).
      rewrite (normalize_series_unfold _ _ _ Hlo Hhi).
      assert (forall v, In v out -> v = 0%Q) as Hz.
      { intros v Hv. rewrite <- Hout' in Hv. apply in_map_iff in Hv as (? & <- & _).
        done. }
      rewrite (Hz _ Hlo_in), (Hz _ Hhi_in). cbn. f_equal.
      rewrite <- Hout'. rewrite <- list_fmap_compose. done.
  - apply Qeq_bool_neq in E.
    assert (mn < mx)%Q as Hlt.
    { specialize (Hmn_le mx Hmx_in). apply Qle_lteq in Hmn_le as [?|Heq]; [done|].
      exfalso. apply E. by symmetry. }
    apply (normalize_series_affine (1 / (mx - mn)) (- mn / (mx - mn)) series out out).
    + apply Qlt_shift_div_l; lra.
    + rewrite <- Hout'. apply Forall2_fmap_r, Forall_Forall2_diag, Forall_forall.
      intros v _. unfold rescale, compose. cbv beta. field. lra.
    + done.
Qed.

(** ** [fetch_data] *)

Lemma fetch_data_some (table : list (Z * Q)) :
  table <> [] -> exists data, fetch_data table = Some data.
Proof.
  intros Hne.
  assert (snd <$> table <> []) as Hne' by (by destruct table).
  destruct (np_min_spec _ Hne') as (mn & Hmn & _).
  destruct (np_max_spec _ Hne') as (mx & Hmx & _).
  unfold fetch_data. rewrite (normalize_series_unfold _ _ _ Hmn Hmx). eauto.
Qed.

Lemma fetch_data_len (table : list (Z * Q)) (data : list row) :
  fetch_data table = Some data -> len data = len table.
Proof.
  intros Hf. destruct (fetch_data_ok _ _ Hf) as (_ & _ & _ & _ & Hd).
  unfold len. apply (f_equal length) in Hd. rewrite !length_fmap in Hd.
  by rewrite Hd.
Qed.

(** X10. [fetch_data] fails exactly on an empty table. On any other table it
    keeps every row with its date and closing price, and the normalised
    closing price it adds lies in [0, 1]. *)
Lemma fetch_data_total (table : list (Z * Q)) :
  (table = [] -> fetch_data table = None) /\
  (table <> [] ->
   exists data,
     fetch_data table = Some data /\
     len data = len table /\
     date <$> data = fst <$> table /\
     close <$> data = snd <$> table /\
     forall r, r ∈ data -> (0 <= close_norm r)%Q /\ (close_norm r <= 1)%Q).
Proof.
  split; [by intros ->|]. intros Hne.
  destruct (fetch_data_some _ Hne) as [data Hf].
  exists data. split; [done|]. split; [by apply fetch_data_len|].
  destruct (fetch_data_ok _ _ Hf) as (normed & Hn & Hcn & Hc & Hd).
  split; [done|]. split; [done|].
  intros r Hr. apply (normalize_series_range _ _ _ Hn).
  rewrite <- Hcn. apply in_map. by apply list_elem_of_In.
Qed.

(** ** Distances are not negative, scores are damped correlations *)

Lemma xmin_nonneg (a b : xcost) :
  xle (Finite 0) a -> xle (Finite 0) b -> xle (Finite 0) (xmin a b).
Proof. intros Ha Hb. by destruct (xmin_cases a b) as [-> | ->]. Qed.

Lemma pointwise_nonneg (a b : list Q) (i j : nat) : (0 <= pointwise a b i j)%Q.
Proof. unfold pointwise. apply Qabs_nonneg. Qed.

Lemma cumulative_nonneg (a b : list Q) (i j : nat) :
  xle (Finite 0) (cumulative a b i j).
Proof.
  revert j. induction i as [|i IHi]; intros j.
  - destruct j; simpl; [lra|done].
  - induction j as [|j IHj]; [done|].
    rewrite cumulative_step.
    pose proof (xmin_nonneg _ _ (xmin_nonneg _ _ (IHi (S j)) IHj) (IHi j)) as H.
    pose proof (pointwise_nonneg a b i j).
    destruct (xmin _ _); simpl in *; [lra|done].
Qed.

Lemma calculate_dtw_distance_nonneg (p1 p2 : list Q) (d : xcost)
    (path : list FastDTW.cell) :
  calculate_dtw_distance p1 p2 = Ok (d, path) -> xle (Finite 0) d.
Proof.
  unfold calculate_dtw_distance, FastDTW.fastdtw.
  destruct (FastDTW.fastdtw_rec _ _ _ _) as [[d' path']|] eqn:E; [|done].
  intros [= <- <-]. eapply xle_trans; [|by eapply fastdtw_rec_lower].
  apply cumulative_nonneg.
Qed.

Lemma clip_range (c : npfloat) :
  clip c = NaN \/ exists q, clip c = Num q /\ (-1 <= q)%Q /\ (q <= 1)%Q.
Proof.
  unfold clip. destruct c as [q| | |]; [right|right|right|by left].
  - eexists. split; [done|]. split.
    + apply Q.min_glb; [apply Q.le_max_r|lra].
    + apply Q.le_min_r.
  - eexists. split; [done|]. lra.
  - eexists. split; [done|]. lra.
Qed.

(** The weight [1 / (1 + d)] that multiplies the correlation. *)
Lemma score_weight (d : xcost) :
  xle (Finite 0) d ->
  exists w, fdiv (Num 1) (fadd (Num 1) (of_xcost d)) = Num w /\
    (0 <= w)%Q /\ (w <= 1)%Q /\
    (forall q, d = Finite q -> (w == 1 / (1 + q))%Q).
Proof.
  destruct d as [q|]; simpl; intros Hq.
  - unfold fadd, fdiv.
    assert (Qred (1 + q) == 1 + q)%Q as Hr by apply Qred_correct.
    destruct (Qeq_bool (Qred (1 + q)) 0) eqn:E.
    { apply Qeq_bool_iff in E. lra. }
    eexists. split; [done|]. rewrite Qred_correct, Hr.
    split; [|split].
    + apply Qle_shift_div_l; lra.
    + apply Qle_shift_div_r; lra.
    + intros q' [= <-]. by rewrite Qred_correct, Hr.
  - exists 0%Q. split; [done|]. split; [lra|]. split; [lra|done].
Qed.

Section Scores.

Variable sqrt_pos : Q -> Q.

Lemma corrcoef_range (x y : list Q) (c : npfloat) :
  Numpy.corrcoef sqrt_pos x y = Ok c ->
  c = NaN \/ exists q, c = Num q /\ (-1 <= q)%Q /\ (q <= 1)%Q.
Proof.
  unfold Numpy.corrcoef. destruct (negb _); [done|]. intros [= <-].
  apply clip_range.
Qed.

(** On two sequences that are not empty the distance is a number. *)
Lemma calculate_dtw_distance_returns (p1 p2 : list Q) :
  p1 <> [] -> p2 <> [] ->
  exists q path, calculate_dtw_distance p1 p2 = Ok (Finite q, path) /\ (0 <= q)%Q.
Proof.
  intros H1 H2.
  destruct (fastdtw_total p1 p2 H1 H2) as (d & path & Hf & [q ->] & _).
  exists q, path.
  assert (calculate_dtw_distance p1 p2 = Ok (Finite q, path)) as Hc.
  { unfold calculate_dtw_distance. by rewrite Hf. }
  split; [done|]. exact (calculate_dtw_distance_nonneg _ _ _ _ Hc).
Qed.

(** X15. On two sequences that are not empty [calculate_dtw_distance] always
    returns: [fastdtw] raises nothing, the distance is finite and not
    negative, and the path is a warping path from [(0, 0)] to
    [(len(a) - 1, len(b) - 1)]. *)
Lemma calculate_dtw_distance_total (p1 p2 : list Q) :
  p1 <> [] -> p2 <> [] ->
  exists q path,
    calculate_dtw_distance p1 p2 = Ok (Finite q, path) /\ (0 <= q)%Q /\
    warping (len p1) (len p2) path.
Proof.
  intros H1 H2.
  destruct (fastdtw_total p1 p2 H1 H2) as (d & path & Hf & [q ->] & Hw).
  exists q, path.
  assert (calculate_dtw_distance p1 p2 = Ok (Finite q, path)) as Hc.
  { unfold calculate_dtw_distance. by rewrite Hf. }
  split; [done|]. split; [|done].
  exact (calculate_dtw_distance_nonneg _ _ _ _ Hc).
Qed.

Lemma candidate_score (data : list row) (rp : list Q) (L i : Z) (s : similarity) :
  rp <> [] ->
  candidate sqrt_pos data rp L i = Ok s ->
  exists q, dtw_distance s = Finite q /\ (0 <= q)%Q /\
  ((correlation s = NaN /\ score s = NaN) \/
   exists c v, correlation s = Num c /\ score s = Num v /\
     (-1 <= c)%Q /\ (c <= 1)%Q /\ (v == c / (1 + q))%Q /\
     (Qabs v <= Qabs c)%Q /\ (0 <= v * c)%Q).
Proof.
  intros Hrp Hc.
  destruct (candidate_ok _ _ _ _ _ _ Hc) as (_ & _ & _ & [path Hd] & Hcorr & Hscore & _).
  assert (pattern s <> []) as Hpat.
  { apply corrcoef_ok_len in Hcorr. intros Hnil. rewrite Hnil in Hcorr.
    destruct rp; [done|]. unfold len in Hcorr. simpl in Hcorr. lia. }
  destruct (calculate_dtw_distance_returns rp (pattern s) Hrp Hpat)
    as (q & path' & Hd' & Hq).
  rewrite Hd in Hd'. injection Hd' as Hdist _.
  exists q. split; [done|]. split; [done|].
  assert (xle (Finite 0) (dtw_distance s)) as Hnn by (by rewrite Hdist).
  destruct (score_weight _ Hnn) as (w & Hw & Hw0 & Hw1 & Hwq).
  rewrite Hw in Hscore. specialize (Hwq q Hdist).
  destruct (corrcoef_range _ _ _ Hcorr) as [Hnan|(c & Hq' & Hlo & Hhi)].
  - left. split; [done|]. rewrite Hscore, Hnan. done.
  - right. rewrite Hq' in Hscore. unfold fmul in Hscore.
    exists c, (Qred (c * w)). split; [done|]. split; [done|].
    split; [done|]. split; [done|]. rewrite !Qred_correct. split; [|split].
    + rewrite Hwq. field. lra.
    + rewrite Qabs_Qmult, (Qabs_pos w) by done.
      pose proof (Qabs_nonneg c). nra.
    + assert (0 <= c * c)%Q by nra. nra.
Qed.

(** X6. The distance of a match is finite and not negative. Its correlation
    is [nan] or lies in [-1, 1]; the score is [nan] exactly when the
    correlation is, and otherwise it is [correlation / (1 + distance)]: of
    the same sign as the correlation and not larger in magnitude. *)
Lemma match_score_bounds (data : list row) (a_hours : npfloat) (top_n min_gap_days : Z)
    (matches : list similarity) (rp : list Q) (rs re : Z) (m : similarity) :
  find_similar_patterns sqrt_pos data a_hours top_n min_gap_days
    = Ok (matches, rp, rs, re) ->
  m ∈ matches ->
  exists q, dtw_distance m = Finite q /\ (0 <= q)%Q /\
  ((correlation m = NaN /\ score m = NaN) \/
   exists c v, correlation m = Num c /\ score m = Num v /\
     (-1 <= c)%Q /\ (c <= 1)%Q /\ (v == c / (1 + q))%Q /\
     (Qabs v <= Qabs c)%Q /\ (0 <= v * c)%Q).
Proof.
  intros Hfind Hm.
  destruct (find_ok_inv _ _ _ _ _ _ _ _ _ Hfind) as (Hrec & _).
  destruct (get_recent_pattern_ok _ _ _ _ _ Hrec) as (_ & _ & _ & HL & _).
  destruct (find_match_candidate _ _ _ _ _ _ _ _ _ _ Hfind Hm) as (i & _ & Hc).
  eapply candidate_score; [|exact Hc].
  intros ->. unfold len in HL. simpl in HL. lia.
Qed.

End Scores.

(** ** How much history a search needs *)

Section History.

Variable sqrt_pos : Q -> Q.

(** A window that lies in the history always gives a candidate. *)
Lemma candidate_in_range (data : list row) (rp : list Q) (i : Z) :
  1 <= len rp -> len rp - 1 <= i -> i < len data ->
  exists s, candidate sqrt_pos data rp (len rp) i = Ok s.
Proof.
  intros Hrp Hlo Hhi. apply candidate_total; [done..|].
  destruct (calculate_dtw_distance_returns rp
              (slice (close_norm <$> data) (i - len rp + 1) (i + 1)))
    as (q & path & Hd & _).
  - intros ->. unfold len in Hrp. simpl in Hrp. lia.
  - intros Hnil.
    assert (len (slice (close_norm <$> data) (i - len rp + 1) (i + 1)) = len rp) as Hlen.
    { rewrite len_slice; rewrite ?len_fmap; lia. }
    rewrite Hnil in Hlen. unfold len in Hlen at 1. simpl in Hlen. lia.
  - eauto.
Qed.

(** The scan of a range that lies in the history returns, and its result
    holds the candidate of each index of the range, in the order of the
    range. *)
Lemma scan_history_returns (data : list row) (a_hours : npfloat) (min_gap_days : Z)
    (rp : list Q) (rs re : Z) :
  get_recent_pattern data a_hours = Ok (rp, rs, re) ->
  0 <= min_gap_days -> len rp <= rs - min_gap_days ->
  exists sims,
    scan_history sqrt_pos data a_hours min_gap_days = Ok sims /\
    Forall2 (fun i s => candidate sqrt_pos data rp (len rp) i = Ok s /\
                        range_of s = (i - len rp + 1, i))
      (zrange (len rp - 1) (rs - min_gap_days)) sims.
Proof.
  intros Hrec Hgap Hne.
  destruct (get_recent_pattern_ok _ _ _ _ _ Hrec) as (_ & _ & Hrs & HL & H0).
  destruct (scan_total sqrt_pos data rp (len rp)
              (zrange (len rp - 1) (rs - min_gap_days)) []) as [sims Hsims].
  { intros i Hi. apply elem_of_zrange in Hi. apply candidate_in_range; lia. }
  exists sims. split.
  { rewrite (scan_history_unfold _ _ _ _ _ _ _ Hrec).
    by destruct (Z.ltb_spec (rs - min_gap_days) (len rp)); [lia|]. }
  apply scan_ok in Hsims as (new & -> & Hnew). simpl.
  eapply Forall2_impl; [exact Hnew|]. intros i s Hc. split; [done|].
  apply candidate_ok in Hc as (Hs & He & _). unfold range_of. by rewrite Hs, He.
Qed.


(** C6. Given the reference window, [find_similar_patterns] scans exactly
    the end indices [i] of [range(pattern_length - 1, recent_start -
    min_gap_days)], each paired with the window [[i - pattern_length + 1,
    i]], and raises the insufficient-history error exactly when that range
    is empty. A search that returns has scanned the whole range: its matches
    are selected from the ranking of the candidates of these indices, one
    candidate for each index, in the order of the range. When the range is
    not empty and the gap is not negative the search does return. *)
Theorem scan_range_exact (data : list row) (a_hours : npfloat) (top_n min_gap_days : Z)
    (rp : list Q) (rs re : Z) :
  get_recent_pattern data a_hours = Ok (rp, rs, re) ->
  let L := len rp in
  let indices := zrange (L - 1) (rs - min_gap_days) in
  let scanned (sims : list similarity) :=
    Forall2 (fun i s => candidate sqrt_pos data rp L i = Ok s /\
                        range_of s = (i - L + 1, i)) indices sims in
  (forall i, i ∈ indices <-> L - 1 <= i < rs - min_gap_days) /\
  ((exists e, find_similar_patterns sqrt_pos data a_hours top_n min_gap_days
                = Raise e /\ InsufficientHistory e) <-> indices = []) /\
  (find_similar_patterns sqrt_pos data a_hours top_n min_gap_days
     = Raise ValueError_history <-> indices = []) /\
  (forall matches rp' rs' re',
     find_similar_patterns sqrt_pos data a_hours top_n min_gap_days
       = Ok (matches, rp', rs', re') ->
     indices <> [] /\
     exists sims,
       scanned sims /\
       scan_history sqrt_pos data a_hours min_gap_days = Ok sims /\
       matches = select_patterns top_n min_gap_days (sort_by_distance sims) [] []) /\
  (0 <= min_gap_days -> indices <> [] ->
   exists sims,
     scanned sims /\
     scan_history sqrt_pos data a_hours min_gap_days = Ok sims /\
     find_similar_patterns sqrt_pos data a_hours top_n min_gap_days
       = Ok (select_patterns top_n min_gap_days (sort_by_distance sims) [] [],
             rp, rs, re)).
Proof.
  intros Hrp L indices scanned.
  pose proof (scan_history_unfold sqrt_pos _ _ min_gap_days _ _ _ Hrp) as Hscan.
  pose proof (find_unfold sqrt_pos data a_hours top_n min_gap_days) as Hfind.
  rewrite Hrp in Hfind. fold L in Hscan.
  assert (indices = [] <-> rs - min_gap_days < L) as Hnil.
  { unfold indices. rewrite zrange_nil_iff. lia. }
  split; [by intros i; apply elem_of_zrange|].
  assert (indices = [] ->
          find_similar_patterns sqrt_pos data a_hours top_n min_gap_days
            = Raise ValueError_history) as Hraise.
  { intros Hi. apply Hnil in Hi. rewrite Hfind, Hscan.
    by destruct (Z.ltb_spec (rs - min_gap_days) L); [|lia]. }
  assert (forall e,
          find_similar_patterns sqrt_pos data a_hours top_n min_gap_days = Raise e ->
          InsufficientHistory e -> indices = []) as Hempty.
  { intros e He Hins. apply Hnil. rewrite Hfind, Hscan in He.
    destruct (Z.ltb_spec (rs - min_gap_days) L); [done|].
    destruct (scan _ _ _ _ _ _) as [sims|e'] eqn:Hs; [done|].
    injection He as ->. by apply scan_raise in Hs. }
  assert (forall sims,
          Forall2 (fun i s => candidate sqrt_pos data rp L i = Ok s) indices sims ->
          scanned sims) as Hscanned.
  { intros sims Hall. eapply Forall2_impl; [exact Hall|].
    intros i s Hc. split; [done|].
    apply candidate_ok in Hc as (Hs & He & _). unfold range_of. by rewrite Hs, He. }
  split; [|split; [|split]].
  - split.
    + intros (e & He & Hins). by eapply Hempty.
    + intros Hi. exists ValueError_history. split; [by apply Hraise|done].
  - split; [|done]. intros He. by eapply Hempty.
  - intros matches rp' rs' re' Hok. split.
    { intros Hi. apply Hraise in Hi. congruence. }
    destruct (find_ok_inv _ _ _ _ _ _ _ _ _ Hok) as (Hrec' & sims & Hsh & Hsel).
    rewrite Hrp in Hrec'. injection Hrec' as <- <- <-.
    exists sims. split; [|done].
    apply Hscanned.
    destruct (scan_history_ok _ _ _ _ _ Hsh) as (rp' & rs' & re' & Hrec' & _ & Hall).
    rewrite Hrp in Hrec'. by injection Hrec' as <- <- <-.
  - intros Hgap Hne.
    assert (L <= rs - min_gap_days) as Hge.
    { destruct (Z.lt_ge_cases (rs - min_gap_days) L) as [Hlt|]; [|done].
      by apply Hnil in Hlt. }
    destruct (scan_history_returns _ _ _ _ _ _ Hrp Hgap Hge) as (sims & Hsh & Hall).
    exists sims. split; [exact Hall|]. split; [done|]. by rewrite Hfind, Hsh.
Qed.

(** What a search ends with, by the duration asked for and the length of
    the history. *)
Lemma find_outcome (data : list row) (a_hours : npfloat) (top_n min_gap_days : Z) :
  0 <= min_gap_days ->
  match find_similar_patterns sqrt_pos data a_hours top_n min_gap_days with
  | Raise e =>
      match a_hours with
      | Num h =>
          InsufficientHistory e /\
          len data < 2 * Z.max (Qceiling (h / 4)) 20 + min_gap_days
      | PInf | NInf => e = OverflowError
      | NaN => e = ValueError_nan
      end
  | Ok _ =>
      exists h, a_hours = Num h /\
        2 * Z.max (Qceiling (h / 4)) 20 + min_gap_days <= len data
  end.
Proof.
  intros Hgap. rewrite find_unfold.
  destruct (get_recent_pattern data a_hours) as [[[rp rs] re]|e] eqn:Hrec.
  - destruct (get_recent_pattern_finite _ _ _ Hrec) as [h ->].
    destruct (get_recent_pattern_ok _ _ _ _ _ Hrec) as (_ & _ & Hrs & HL & H0).
    set (days := Z.max (Qceiling (h / 4)) 20).
    assert (len rp = days) as HLd.
    { revert Hrec. rewrite get_recent_pattern_num. cbv zeta. fold days.
      destruct (Z.ltb_spec (len data) days); [done|]. intros [= _ Hs _]. lia. }
    rewrite (scan_history_unfold _ _ _ _ _ _ _ Hrec).
    destruct (Z.ltb_spec (rs - min_gap_days) (len rp)) as [Hlt|Hge].
    + split; [done|]. fold days. lia.
    + assert (2 * days + min_gap_days <= len data) as Hlen.
      { rewrite Hrs, HLd in Hge. lia. }
      destruct (scan_total sqrt_pos data rp (len rp)
                  (zrange (len rp - 1) (rs - min_gap_days)) []) as [sims ->];
        [|cbv iota beta; exists h; split; [done|exact Hlen]].
      intros i Hi. apply elem_of_zrange in Hi. apply candidate_in_range; lia.
  - destruct (get_recent_pattern_not_finite data) as (H1 & H2 & H3).
    destruct a_hours as [h| | |]; [|congruence..].
    revert Hrec. rewrite get_recent_pattern_num. cbv zeta.
    destruct (Z.ltb_spec (len data) (Z.max (Qceiling (h / 4)) 20)); [|done].
    intros [= <-]. split; [done|lia].
Qed.

(** X7. With a gap that is not negative and a finite duration, a search is
    refused for lack of data exactly when the history has fewer than
    [2 * days + min_gap_days] rows, [days = max(ceil(a_hours / 4), 20)] being
    the length of the reference window. A duration that is infinite or
    [nan] is refused whatever the history, by [OverflowError] and by
    [ValueError]. *)
Lemma history_requirement (data : list row) (a_hours : npfloat)
    (top_n min_gap_days : Z) :
  0 <= min_gap_days ->
  match a_hours with
  | Num h =>
      (exists e, find_similar_patterns sqrt_pos data a_hours top_n min_gap_days
                   = Raise e /\ InsufficientHistory e)
      <-> len data < 2 * Z.max (Qceiling (h / 4)) 20 + min_gap_days
  | PInf | NInf =>
      find_similar_patterns sqrt_pos data a_hours top_n min_gap_days
        = Raise OverflowError
  | NaN =>
      find_similar_patterns sqrt_pos data a_hours top_n min_gap_days
        = Raise ValueError_nan
  end.
Proof.
  intros Hgap.
  pose proof (find_outcome data a_hours top_n min_gap_days Hgap) as H.
  destruct (find_similar_patterns _ _ _ _ _) as [r|e].
  - destruct H as (h & -> & Hlen). split; [by intros (e & He & _)|lia].
  - destruct a_hours as [h| | |]; [|by subst..]. split.
    + intros _. apply H.
    + intros _. exists e. split; [done|apply H].
Qed.

(** X16. With a gap that is not negative, a search succeeds exactly when
    the duration is finite and the history has at least
    [2 * days + min_gap_days] rows. What it can raise is one of its two
    refusals for lack of data, [OverflowError] (an infinite duration) or
    [ValueError] (a duration that is [nan]): no [IndexError], no error of
    shape, nothing from [fastdtw]. *)
Lemma find_succeeds_iff (data : list row) (a_hours : npfloat)
    (top_n min_gap_days : Z) :
  0 <= min_gap_days ->
  ((exists matches rp rs re,
      find_similar_patterns sqrt_pos data a_hours top_n min_gap_days
        = Ok (matches, rp, rs, re))
   <-> exists h, a_hours = Num h /\
         2 * Z.max (Qceiling (h / 4)) 20 + min_gap_days <= len data) /\
  (forall e,
     find_similar_patterns sqrt_pos data a_hours top_n min_gap_days = Raise e ->
     (InsufficientHistory e /\ exists h, a_hours = Num h) \/
     (e = OverflowError /\ (a_hours = PInf \/ a_hours = NInf)) \/
     (e = ValueError_nan /\ a_hours = NaN)).
Proof.
  intros Hgap.
  pose proof (find_outcome data a_hours top_n min_gap_days Hgap) as H.
  destruct (find_similar_patterns _ _ _ _ _) as [[[[matches rp] rs] re]|e].
  - split; [|done]. split; [done|]. intros _. by exists matches, rp, rs, re.
  - split.
    + split; [by intros (? & ? & ? & ? & ?)|].
      intros (h & -> & Hlen). destruct H. lia.
    + intros e' [= <-]. destruct a_hours as [h| | |].
      * left. split; [apply H|by exists h].
      * right; left. split; [done|by left].
      * right; left. split; [done|by right].
      * right; right. done.
Qed.

(** ** [visualize_results] *)

Lemma nth_error_lookup {A : Type} (l : list A) (i : nat) : nth_error l i = l !! i.
Proof. revert i. induction l as [|x l IH]; intros [|i]; simpl; auto. Qed.

Lemma iloc_zrange (n k : Z) : 0 <= k < n -> iloc (zrange 0 n) k = Ok k.
Proof.
  intros Hk. unfold iloc, getitem. destruct (Z.leb_spec 0 k); [|lia].
  unfold zrange. rewrite nth_error_lookup, lookup_seqZ_lt by lia.
  f_equal. lia.
Qed.

(** What the panel of the pattern [m], the [k]-th drawn, holds: its own
    axis [k + 1], the colour [colors[k % 5]], the pattern over abscissae of
    its length, and the recent pattern over its own. *)
Definition panel_of (recent_pattern : list Q) (k : Z) (m : similarity) (p : panel)
  : Prop :=
  axis p = k + 1 /\
  getitem colors (k mod 5) = Some (colour p) /\
  ys p = pattern m /\ xs p = zrange 0 (len (pattern m)) /\
  overlay_ys p = recent_pattern /\ overlay_xs p = zrange 0 (len recent_pattern) /\
  first_date p = start_date m /\ last_date p = end_date m.

Lemma draw_patterns_ok (n : Z) (x_recent : list Z) (recent_pattern : list Q)
    (similar_patterns : list similarity) :
  x_recent = zrange 0 (len recent_pattern) ->
  forall idx, 0 <= idx -> idx + len similar_patterns <= n ->
  exists panels,
    draw_patterns (zrange 0 (n + 1)) x_recent recent_pattern idx similar_patterns
      = Ok panels /\
    length panels = length similar_patterns /\
    forall (k : nat) m p, similar_patterns !! k = Some m -> panels !! k = Some p ->
      panel_of recent_pattern (idx + Z.of_nat k) m p.
Proof.
  intros Hx. induction similar_patterns as [|m rest IH]; intros idx Hidx Hn.
  - exists []. split; [done|]. split; [done|]. intros k m p Hk. done.
  - unfold len in Hn. simpl in Hn. cbn [draw_patterns].
    rewrite iloc_zrange by lia. cbn.
    change (len colors) with 5.
    pose proof (Z.mod_pos_bound idx 5 ltac:(lia)) as Hmod.
    unfold iloc at 1.
    destruct (getitem_inner colors (idx mod 5)) as [c Hc]; [done|].
    rewrite Hc. cbn.
    destruct (IH (idx + 1)) as (panels & -> & Hlen & Hpanels); [lia|unfold len; lia|].
    cbn. eexists. split; [done|]. split; [by simpl; rewrite Hlen|].
    intros [|k] m' p Hm Hp; simpl in Hm, Hp.
    + injection Hm as <-. injection Hp as <-. rewrite Z.add_0_r.
      by repeat split.
    + specialize (Hpanels k m' p Hm Hp).
      by replace (idx + Z.of_nat (S k)) with (idx + 1 + Z.of_nat k) by lia.
Qed.

Lemma visualize_results_ok (data : list row) (similar_patterns : list similarity)
    (recent_pattern : list Q) (recent_start recent_end : Z) :
  0 <= recent_start < len data -> 0 <= recent_end < len data ->
  exists first panels,
    visualize_results data similar_patterns recent_pattern recent_start recent_end
      = Ok (first :: panels) /\
    axis first = 0 /\ colour first = blue /\
    ys first = recent_pattern /\ xs first = zrange 0 (len recent_pattern) /\
    iloc (date <$> data) recent_start = Ok (first_date first) /\
    iloc (date <$> data) recent_end = Ok (last_date first) /\
    length panels = length similar_patterns /\
    forall (k : nat) m p, similar_patterns !! k = Some m -> panels !! k = Some p ->
      panel_of recent_pattern (Z.of_nat k) m p.
Proof.
  intros Hs He. unfold visualize_results. cbv zeta.
  rewrite iloc_zrange by (pose proof (len_nonneg similar_patterns); lia). cbn.
  unfold iloc at 1 2.
  destruct (getitem_inner (date <$> data) recent_start) as [sd Hsd];
    [by rewrite len_fmap|].
  destruct (getitem_inner (date <$> data) recent_end) as [ed Hed];
    [by rewrite len_fmap|].
  rewrite Hsd, Hed. cbn.
  destruct (draw_patterns_ok (len similar_patterns) (zrange 0 (len recent_pattern))
              recent_pattern similar_patterns eq_refl 0) as (panels & -> & Hlen & Hp);
    [lia|lia|].
  cbn. eexists _, panels. split; [done|]. cbn.
  unfold iloc. rewrite Hsd, Hed. do 6 (split; [done|]). split; [done|].
  intros k m p Hm Hk. specialize (Hp k m p Hm Hk). by rewrite Z.add_0_l in Hp.
Qed.

(** X17. After a search that succeeded, [visualize_results] computes its
    [len(similar_patterns) + 1] panels without an index out of range: the
    recent pattern on axis 0 with the dates of the reference window, and the
    [k]-th match on its own axis [k + 1], in the colour [colors[k % 5]], with
    as many abscissae as values. *)
Lemma visualize_results_panels (data : list row) (a_hours : npfloat)
    (top_n min_gap_days : Z) (matches : list similarity) (rp : list Q) (rs re : Z) :
  find_similar_patterns sqrt_pos data a_hours top_n min_gap_days
    = Ok (matches, rp, rs, re) ->
  exists first panels,
    visualize_results data matches rp rs re = Ok (first :: panels) /\
    axis first = 0 /\ colour first = blue /\
    ys first = rp /\ xs first = zrange 0 (len rp) /\
    iloc (date <$> data) rs = Ok (first_date first) /\
    iloc (date <$> data) re = Ok (last_date first) /\
    length panels = length matches /\
    forall (k : nat) m p, matches !! k = Some m -> panels !! k = Some p ->
      panel_of rp (Z.of_nat k) m p.
Proof.
  intros Hfind.
  destruct (find_ok_inv _ _ _ _ _ _ _ _ _ Hfind) as (Hrec & _).
  destruct (get_recent_pattern_ok _ _ _ _ _ Hrec) as (_ & Hre & Hrs & HL & H0).
  pose proof (len_nonneg rp).
  apply visualize_results_ok; lia.
Qed.

(** ** [main]: the analysis end to end *)


End History.

(** ** Asking for more matches keeps the ones already found *)

Lemma select_patterns_extends (top_n gap : Z) (similarities accepted : list similarity)
    (used : list (Z * Z)) :
  accepted `prefix_of` select_patterns top_n gap similarities accepted used.
Proof.
  revert accepted used. induction similarities as [|sim rest IH]; intros acc used; simpl.
  - done.
  - destruct (overlaps gap sim used); [apply IH|].
    destruct (_ >=? _); [by apply prefix_app_r|].
    etrans; [|apply IH]. by apply prefix_app_r.
Qed.

Lemma select_patterns_prefix (n n' gap : Z) (similarities accepted : list similarity)
    (used : list (Z * Z)) :
  n <= n' ->
  select_patterns n gap similarities accepted used
    `prefix_of` select_patterns n' gap similarities accepted used.
Proof.
  intros Hn. revert accepted used.
  induction similarities as [|sim rest IH]; intros acc used; simpl; [done|].
  destruct (overlaps gap sim used); [apply IH|].
  destruct (Z.geb_spec (len (acc ++ [sim])) n) as [Hge|Hlt].
  - destruct (_ >=? n'); [done|apply select_patterns_extends].
  - destruct (Z.geb_spec (len (acc ++ [sim])) n'); [lia|apply IH].
Qed.

Section MoreMatches.

Variable sqrt_pos : Q -> Q.

(** X13. Asking for more matches keeps the ones already found: the result
    for [top_n] is a prefix of the result for any larger [top_n']. *)
Lemma matches_prefix_stable (data : list row) (a_hours : npfloat) (top_n top_n' min_gap_days : Z)
    (matches : list similarity) (rp : list Q) (rs re : Z) :
  find_similar_patterns sqrt_pos data a_hours top_n min_gap_days
    = Ok (matches, rp, rs, re) ->
  top_n <= top_n' ->
  exists matches',
    find_similar_patterns sqrt_pos data a_hours top_n' min_gap_days
      = Ok (matches', rp, rs, re) /\
    matches `prefix_of` matches'.
Proof.
  intros Hfind Hn.
  destruct (find_ok_inv _ _ _ _ _ _ _ _ _ Hfind) as (Hrec & sims & Hscan & ->).
  rewrite find_unfold, Hrec, Hscan. eexists. split; [reflexivity|].
  by apply select_patterns_prefix.
Qed.

End MoreMatches.

(** ** The normaliser keeps the order of the prices *)

(** X14. The normaliser keeps the order of the values: a price that is not
    larger has a normalised value that is not larger. *)
Lemma normalize_series_monotone (series out : list Q) (i j : nat) (vi vj oi oj : Q) :
  normalize_series series = Ok out ->
  series !! i = Some vi -> series !! j = Some vj ->
  out !! i = Some oi -> out !! j = Some oj ->
  (vi <= vj)%Q -> (oi <= oj)%Q.
Proof.
  intros Hout Hi Hj Hoi Hoj Hle.
  assert (series <> []) as Hne by (by intros ->).
  destruct (np_min_spec _ Hne) as (mn & Hmn & Hmn_in & Hmn_le).
  destruct (np_max_spec _ Hne) as (mx & Hmx & Hmx_in & Hmx_ge).
  rewrite (normalize_series_unfold _ _ _ Hmn Hmx) in Hout. injection Hout as <-.
  destruct (Qeq_bool mx mn) eqn:E.
  - rewrite list_lookup_fmap, Hi in Hoi. rewrite list_lookup_fmap, Hj in Hoj.
    injection Hoi as <-. injection Hoj as <-. lra.
  - apply Qeq_bool_neq in E.
    assert (mn < mx)%Q as Hlt.
    { specialize (Hmn_le mx Hmx_in). apply Qle_lteq in Hmn_le as [?|Heq]; [done|].
      exfalso. apply E. by symmetry. }
    rewrite list_lookup_fmap, Hi in Hoi. rewrite list_lookup_fmap, Hj in Hoj.
    injection Hoi as <-. injection Hoj as <-. unfold rescale.
    apply Qmult_le_compat_r; [lra|]. apply Qinv_le_0_compat. lra.
Qed.


(** ** Runs of the further properties on the sample *)


(** C6 on the sample: with no gap the range has the 31 indices 19..49, all
    scanned; with a gap of 31 days it is empty and the search is refused. *)
Lemma scan_range_exact_witness :
  length (zrange (len sample_pattern - 1) (50 - 0)) = 31%nat /\
  (exists sims,
     Forall2 (fun i s =>
                candidate sqrt_floor sample_data sample_pattern (len sample_pattern) i
                  = Ok s /\
                range_of s = (i - len sample_pattern + 1, i))
       (zrange (len sample_pattern - 1) (50 - 0)) sims /\
     scan_history sqrt_floor sample_data (Num 8) 0 = Ok sims /\
     find_similar_patterns sqrt_floor sample_data (Num 8) 5 0
       = Ok (select_patterns 5 0 (sort_by_distance sims) [] [],
             sample_pattern, 50, 69)) /\
  zrange (len sample_pattern - 1) (50 - 31) = [] /\
  find_similar_patterns sqrt_floor sample_data (Num 8) 5 31 = Raise ValueError_history.
Proof.
  split; [vm_compute; reflexivity|]. split.
  - pose proof (scan_range_exact sqrt_floor sample_data (Num 8) 5 0 sample_pattern
                  50 69 sample_recent) as H.
    cbv zeta in H. destruct H as (_ & _ & _ & _ & H).
    apply H; [lia|vm_compute; discriminate].
  - split; [vm_compute; reflexivity|].
    pose proof (scan_range_exact sqrt_floor sample_data (Num 8) 5 31 sample_pattern
                  50 69 sample_recent) as H.
    cbv zeta in H. destruct H as (_ & _ & H & _).
    apply H. vm_compute. reflexivity.
Defined.

(** C10 on the second sample: the windows [[0, 19]] and [[20, 39]] are both
    at distance 0 from the reference window, and are returned in that
    order. *)
Lemma ranking_deterministic_stable_witness :
  exists first second,
    tie_matches = [first; second] /\
    range_of first = (0, 19) /\ range_of second = (20, 39) /\
    xeq (dtw_distance first) (dtw_distance second) /\
    exists sims,
      scan_history sqrt_floor tie_data (Num 8) 0 = Ok sims /\
      Forall2 (fun i s => candidate sqrt_floor tie_data tie_pattern (len tie_pattern) i
                            = Ok s)
        (zrange (len tie_pattern - 1) (40 - 0)) sims /\
      sort_by_distance sims ≡ₚ sims /\
      (forall (p q : nat) (u v : similarity),
         sort_by_distance sims !! p = Some u ->
         sort_by_distance sims !! q = Some v -> (p < q)%nat ->
         xle (dtw_distance u) (dtw_distance v) /\
         (xeq (dtw_distance u) (dtw_distance v) -> start_idx u < start_idx v)) /\
      (forall l, l ≡ₚ sims -> StronglySorted ranked l -> l = sort_by_distance sims) /\
      tie_matches = select_patterns 5 0 (sort_by_distance sims) [] [] /\
      tie_matches `sublist_of` sort_by_distance sims /\
      (forall m, m ∈ tie_matches -> m ∈ sims) /\
      (forall (p q : nat) (u v : similarity),
         tie_matches !! p = Some u -> tie_matches !! q = Some v -> (p < q)%nat ->
         xle (dtw_distance u) (dtw_distance v) /\
         (xeq (dtw_distance u) (dtw_distance v) -> start_idx u < start_idx v)).
Proof.
  eexists _, _. split; [reflexivity|].
  split; [vm_compute; reflexivity|]. split; [vm_compute; reflexivity|].
  split; [vm_compute; reflexivity|].
  exact (ranking_deterministic_stable sqrt_floor tie_data (Num 8) 5 0 tie_matches
           tie_pattern 40 59 tie_run).
Defined.

Lemma matches_bounded_sorted_witness :
  (1 <= 5 -> len sample_matches_gap0 <= 5) /\
  len sample_matches_gap0 <= Z.max 5 1 /\
  StronglySorted by_distance sample_matches_gap0.
Proof.
  exact (matches_bounded_sorted sqrt_floor sample_data (Num 8) 5 0 sample_matches_gap0
           sample_pattern 50 69 sample_run_gap0).
Defined.

Lemma matches_before_reference_witness :
  exists m,
    sample_matches_gap0 !! 0%nat = Some m /\
    0 <= start_idx m /\
    end_idx m = start_idx m + len sample_pattern - 1 /\
    end_idx m < 50 - 0 /\
    len (pattern m) = len sample_pattern /\
    iloc (date <$> sample_data) (start_idx m) = Ok (start_date m) /\
    iloc (date <$> sample_data) (end_idx m) = Ok (end_date m).
Proof.
  eexists. split; [reflexivity|].
  apply (matches_before_reference sqrt_floor sample_data (Num 8) 5 0 sample_matches_gap0
           sample_pattern 50 69 _ sample_run_gap0).
  apply list_elem_of_here.
Defined.

Lemma print_results_complete_witness :
  exists printed,
    print_results sample_data sample_matches_gap0 = Ok printed /\
    Forall2 (fun m out => both_returns sample_data (end_idx m) out)
      sample_matches_gap0 printed.
Proof.
  apply (print_results_complete sqrt_floor sample_data (Num 8) 5 0 sample_matches_gap0
           sample_pattern 50 69 sample_run_gap0).
  lia.
Defined.

Lemma matches_maximal_witness :
  exists s m,
    candidate sqrt_floor sample_data sample_pattern (len sample_pattern) 19 = Ok s /\
    m ∈ sample_matches_gap0 /\
    (m = s \/ (start_idx m - 0 <= end_idx s /\ start_idx s <= end_idx m + 0)).
Proof.
  apply (matches_maximal sqrt_floor sample_data (Num 8) 5 0 sample_matches_gap0
           sample_pattern 50 69 19 sample_run_gap0).
  - vm_compute. reflexivity.
  - change (len sample_pattern) with 20. lia.
Defined.

Lemma matches_nonempty_witness :
  exists first others, sample_matches_top0 = first :: others.
Proof.
  exact (matches_nonempty sqrt_floor sample_data (Num 8) 0 30 sample_matches_top0
           sample_pattern 50 69 sample_run_top0).
Defined.

Lemma matches_ignore_correlation_witness :
  exists matches',
    find_similar_patterns (fun q => q) sample_data (Num 8) 5 0
      = Ok (matches', sample_pattern, 50, 69) /\
    Forall2 same_window sample_matches_gap0 matches'.
Proof.
  exact (matches_ignore_correlation sqrt_floor (fun q => q) sample_data (Num 8) 5 0
           sample_matches_gap0 sample_pattern 50 69 sample_run_gap0).
Defined.

Lemma normalize_series_idempotent_witness :
  exists out out',
    normalize_series (qs [3; 1; 2]) = Ok out /\
    normalize_series out = Ok out' /\ Forall2 Qeq out out'.
Proof.
  eexists.
  destruct (normalize_series_idempotent (qs [3; 1; 2]) _ eq_refl)
    as (out' & Hout' & Heq).
  exists out'. split; [reflexivity|]. split; [exact Hout'|exact Heq].
Defined.

Lemma match_score_bounds_witness :
  exists m,
    sample_matches_gap0 !! 0%nat = Some m /\
    exists q, dtw_distance m = Finite q /\ (0 <= q)%Q /\
    ((correlation m = NaN /\ score m = NaN) \/
     exists c v, correlation m = Num c /\ score m = Num v /\
       (-1 <= c)%Q /\ (c <= 1)%Q /\ (v == c / (1 + q))%Q /\
       (Qabs v <= Qabs c)%Q /\ (0 <= v * c)%Q).
Proof.
  eexists. split; [reflexivity|].
  apply (match_score_bounds sqrt_floor sample_data (Num 8) 5 0 sample_matches_gap0
           sample_pattern 50 69 _ sample_run_gap0).
  apply list_elem_of_here.
Defined.

Lemma calculate_dtw_distance_total_witness :
  exists q path,
    calculate_dtw_distance (qs [0; 0; 0; 0; 0; 1]) (qs [0; 1; 1; 1; 0; 0])
      = Ok (Finite q, path) /\ (0 <= q)%Q /\
    warping 6 6 path.
Proof.
  apply (calculate_dtw_distance_total (qs [0; 0; 0; 0; 0; 1]) (qs [0; 1; 1; 1; 0; 0]));
    discriminate.
Defined.

Lemma find_succeeds_iff_witness :
  ((exists matches rp rs re,
      find_similar_patterns sqrt_floor sample_data (Num 8) 5 30
        = Ok (matches, rp, rs, re))
   <-> exists h, Num 8 = Num h /\
         2 * Z.max (Qceiling (h / 4)) 20 + 30 <= len sample_data) /\
  (forall e,
     find_similar_patterns sqrt_floor sample_data (Num 8) 5 30 = Raise e ->
     (InsufficientHistory e /\ exists h, Num 8 = Num h) \/
     (e = OverflowError /\ (Num 8 = PInf \/ Num 8 = NInf)) \/
     (e = ValueError_nan /\ Num 8 = NaN)).
Proof.
  apply (find_succeeds_iff sqrt_floor sample_data (Num 8) 5 30). lia.
Defined.

Lemma visualize_results_panels_witness :
  exists first panels,
    visualize_results sample_data sample_matches_gap0 sample_pattern 50 69
      = Ok (first :: panels) /\
    axis first = 0 /\ colour first = blue /\
    ys first = sample_pattern /\ xs first = zrange 0 (len sample_pattern) /\
    iloc (date <$> sample_data) 50 = Ok (first_date first) /\
    iloc (date <$> sample_data) 69 = Ok (last_date first) /\
    length panels = length sample_matches_gap0 /\
    forall (k : nat) m p,
      sample_matches_gap0 !! k = Some m -> panels !! k = Some p ->
      panel_of sample_pattern (Z.of_nat k) m p.
Proof.
  exact (visualize_results_panels sqrt_floor sample_data (Num 8) 5 0
           sample_matches_gap0 sample_pattern 50 69 sample_run_gap0).
Defined.

Lemma history_requirement_witness :
  (exists e, find_similar_patterns sqrt_floor sample_data (Num 8) 5 30 = Raise e /\
             InsufficientHistory e)
  <-> len sample_data < 2 * Z.max (Qceiling (8 / 4)) 20 + 30.
Proof.
  apply (history_requirement sqrt_floor sample_data (Num 8) 5 30). lia.
Defined.

Lemma matches_prefix_stable_witness :
  exists matches',
    find_similar_patterns sqrt_floor sample_data (Num 8) 5 30
      = Ok (matches', sample_pattern, 50, 69) /\
    sample_matches_top0 `prefix_of` matches'.
Proof.
  apply (matches_prefix_stable sqrt_floor sample_data (Num 8) 0 5 30 sample_matches_top0
           sample_pattern 50 69 sample_run_top0).
  lia.
Defined.

Lemma normalize_series_monotone_witness :
  exists out oi oj,
    normalize_series (qs [3; 1; 2]) = Ok out /\
    out !! 2%nat = Some oi /\ out !! 0%nat = Some oj /\ (oi <= oj)%Q.
Proof.
  eexists _, _, _. split; [reflexivity|]. split; [reflexivity|].
  split; [reflexivity|].
  apply (normalize_series_monotone (qs [3; 1; 2]) _ 2 0 2 3 _ _ eq_refl);
    [reflexivity..|discriminate].
Defined.
